(** * abips.py: the pseudopotential repository manager of AbiPy

    A shallow embedding of [abipy/scripts/abips.py] and of the contract of
    the library it drives ([abipy.flowtk.psrepos]).

    - [Py]      the pieces of the Python runtime the script relies on
                (exceptions, [str.lower], [str.strip], [os.path.join],
                [sorted]) and the effect monad the commands run in;
    - [Script]  the commands of abips.py, over the interfaces [OS] and
                [PsRepos] of what they import;
    - [Core]    the catalog, locator, installer and validator as the
                specification describes them;
    - [Demo]    a small concrete machine on which the commands run;
    - [PyFacts], [ScriptFacts], [CoreFacts], [ListingFacts], [DemoFacts]
                what is proved of them. *)

From Stdlib Require Import ZArith Ascii String List Bool Lia.
From stdpp Require Import gmap strings list fin_maps.
Import ListNotations.

Local Open Scope string_scope.
Local Open Scope Z_scope.
Local Open Scope list_scope.

(* ===================================================================== *)
(** * The Python runtime                                                   *)
(* ===================================================================== *)

Module Py.

(** Raised objects. The script distinguishes three things about them:
    whether [except EOFError] catches them, whether [except Exception]
    catches them, and what they are. [KeyboardInterrupt] and [SystemExit]
    derive from [BaseException] only. *)
Inductive PyExc : Type :=
| EOFError
| KeyboardInterrupt
| SystemExit (code : Z)
| OSError (msg : string)
| ValueError (msg : string)
| UnknownRepositoryId (rid : Z)
| UnrecognizedDirectoryName (name : string)
| NetworkError
| ArchiveCorruptError
| FilesystemError
| NotInstalledError
| UnsupportedTierError (tier : string).

(** [isinstance(exc, Exception)] *)
Definition is_Exception (e : PyExc) : bool :=
  match e with
  | KeyboardInterrupt | SystemExit _ => false
  | _ => true
  end.

(** [isinstance(exc, EOFError)] *)
Definition is_EOFError (e : PyExc) : bool :=
  match e with
  | EOFError => true
  | _ => false
  end.

(** The outcome of a call: a value or a raised exception. *)
Inductive Res (A : Type) : Type :=
| Ret (a : A)
| Raise (e : PyExc).
Arguments Ret {A} a.
Arguments Raise {A} e.

Definition is_Ret {A} (r : Res A) : bool :=
  match r with Ret _ => true | Raise _ => false end.

(** ** [str]

    A [str] is modelled as a [string] whose characters are the code points
    below 256. *)

Definition nl : string := String (ascii_of_N 10) EmptyString.

(** One character of [str.lower()]: [A-Z] and the upper-case letters of
    Latin-1 (U+00C0..U+00DE but the multiplication sign U+00D7). *)
Definition lower_char (c : ascii) : ascii :=
  let n := N_of_ascii c in
  if ((65 <=? n) && (n <=? 90))%N
     || ((192 <=? n) && (n <=? 222) && negb (n =? 215))%N
  then ascii_of_N (n + 32)
  else c.

Fixpoint lower (s : string) : string :=
  match s with
  | EmptyString => EmptyString
  | String c rest => String (lower_char c) (lower rest)
  end.

(** [c.isspace()] below 256: TAB..CR, FS..US, SPACE, NEL, NBSP. *)
Definition isspace (c : ascii) : bool :=
  let n := N_of_ascii c in
  (((9 <=? n) && (n <=? 13)) || ((28 <=? n) && (n <=? 32))
   || (n =? 133) || (n =? 160))%N.

Fixpoint lstrip (s : string) : string :=
  match s with
  | EmptyString => EmptyString
  | String c rest => if isspace c then lstrip rest else s
  end.

Fixpoint rstrip (s : string) : string :=
  match s with
  | EmptyString => EmptyString
  | String c rest =>
      match rstrip rest with
      | EmptyString => if isspace c then EmptyString else String c EmptyString
      | kept => String c kept
      end
  end.

Definition strip (s : string) : string := rstrip (lstrip s).

(** [x in xs] for a list of [str]. *)
Fixpoint str_in (x : string) (xs : list string) : bool :=
  match xs with
  | [] => false
  | y :: ys => String.eqb x y || str_in x ys
  end.

Definition startswith_sep (s : string) : bool :=
  match s with
  | String c _ => Ascii.eqb c "/"
  | EmptyString => false
  end.

Fixpoint endswith_sep (s : string) : bool :=
  match s with
  | EmptyString => false
  | String c EmptyString => Ascii.eqb c "/"
  | String _ rest => endswith_sep rest
  end.

(** [os.path.join(a, b)] of posixpath. *)
Definition os_path_join (a b : string) : string :=
  if startswith_sep b then b
  else if String.eqb a "" || endswith_sep a then a +:+ b
  else a +:+ "/" +:+ b.

(** ** [sorted(xs, key=...)]: a stable sort on an integer key. *)
Section Sorted.
Context {A : Type} (key : A -> Z).

Fixpoint insert_by (x : A) (xs : list A) : list A :=
  match xs with
  | [] => [x]
  | y :: ys => if key x <=? key y then x :: y :: ys else y :: insert_by x ys
  end.

Definition sorted_by (xs : list A) : list A :=
  fold_right insert_by [] xs.
End Sorted.

(** ** The effect monad

    A command runs in a world it may change, may raise, and leaves a trace
    of what it printed and of the calls it made. An exception keeps the
    world and the trace reached when it was raised. *)
Section Monad.
Context {World Event : Type}.

Definition M (A : Type) : Type := World -> list Event * World * Res A.

Definition ret {A} (a : A) : M A := fun w => ([], w, Ret a).

Definition raise {A} (e : PyExc) : M A := fun w => ([], w, Raise e).

Definition bind {A B} (m : M A) (k : A -> M B) : M B :=
  fun w =>
    match m w with
    | (t1, w1, Ret a) =>
        match k a w1 with
        | (t2, w2, r) => (t1 ++ t2, w2, r)
        end
    | (t1, w1, Raise e) => (t1, w1, Raise e)
    end.

(** [try: body / except <catches> as exc: handler] *)
Definition try_except {A} (catches : PyExc -> bool)
    (body : M A) (handler : PyExc -> M A) : M A :=
  fun w =>
    match body w with
    | (t1, w1, Ret a) => (t1, w1, Ret a)
    | (t1, w1, Raise e) =>
        if catches e then
          match handler e w1 with
          | (t2, w2, r) => (t1 ++ t2, w2, r)
          end
        else (t1, w1, Raise e)
    end.

(** Something written on the trace. *)
Definition emit (ev : Event) : M unit := fun w => ([ev], w, Ret tt).

(** A call to a function of the environment, logged with its outcome. *)
Definition call {A} (log : Res A -> Event)
    (f : World -> Res A * World) : M A :=
  fun w => match f w with (r, w1) => ([log r], w1, r) end.

(** A query that neither changes the world nor raises. *)
Definition query {A} (f : World -> A) : M A := fun w => ([], w, Ret (f w)).
End Monad.

Arguments M : clear implicits.

Declare Scope py_scope.
Delimit Scope py_scope with py.
Notation "x <- m ;; k" := (bind m (fun x => k))
  (at level 100, m at next level, right associativity) : py_scope.
Notation "m ;; k" := (bind m (fun _ => k))
  (at level 100, right associativity) : py_scope.

Section Loops.
Context {World Event : Type}.
Local Abbreviation M := (M World Event).
Local Open Scope py_scope.

(** [for x in xs: body] *)
Fixpoint for_ {A} (xs : list A) (body : A -> M unit) : M unit :=
  match xs with
  | [] => ret tt
  | x :: rest => body x ;; for_ rest body
  end.

(** [[f(x) for x in xs]] *)
Fixpoint comprehension {A B} (f : A -> M B) (xs : list A) : M (list B) :=
  match xs with
  | [] => ret []
  | x :: rest =>
      y <- f x ;;
      ys <- comprehension f rest ;;
      ret (y :: ys)
  end.

(** [[x for x in xs if cond(x)]] *)
Fixpoint comprehension_if {A} (cond : A -> M bool) (xs : list A)
    : M (list A) :=
  match xs with
  | [] => ret []
  | x :: rest =>
      keep <- cond x ;;
      ys <- comprehension_if cond rest ;;
      ret (if keep then x :: ys else ys)
  end.

(** A loop that carries an accumulator. *)
Fixpoint for_acc {A S} (xs : list A) (body : S -> A -> M S) (acc : S)
    : M S :=
  match xs with
  | [] => ret acc
  | x :: rest => acc' <- body acc x ;; for_acc rest body acc'
  end.
End Loops.

(** Every event a computation can leave on its trace satisfies [P]. *)
Definition emits_only {World Event A} (P : Event -> Prop)
    (m : M World Event A) : Prop :=
  forall w, Forall P (m w).1.1.

End Py.

(* ===================================================================== *)
(** * abips.py                                                             *)
(* ===================================================================== *)

Module Script.
Import Py.
Local Open Scope py_scope.

(** The [options] namespace argparse hands to a command. [verbose] counts
    the [-v] flags; [id_list] is only set by [get_byid] and [show]. *)
Record Options : Type := {
  repos_root : string;
  verbose : Z;
  yes : bool;
  checksums : bool;
  id_list : list Z
}.

(** What the script uses of [os] and of the terminal. *)
Class OS (World : Type) : Type := {
  os_path_exists : string -> World -> bool;
  os_path_isdir : string -> World -> bool;
  os_mkdir : string -> World -> Res unit * World;
  os_listdir : string -> World -> Res (list string) * World;
  input : string -> World -> Res string * World
}.

(** What the script imports from [abipy.flowtk.psrepos]: the class
    [PseudosRepo] with the attributes and methods used here, the catalog
    [ALL_REPOS], [pprint_repos] and [repos_from_id_list]. *)
Class PsRepos (World : Type) : Type := {
  PseudosRepo : Type;
  PseudoTable : Type;
  rid : PseudosRepo -> Z;
  isnc : PseudosRepo -> bool;
  ispaw : PseudosRepo -> bool;
  ALL_REPOS : list PseudosRepo;
  from_dirpath : string -> World -> Res PseudosRepo * World;
  repos_from_id_list : list Z -> World -> Res (list PseudosRepo) * World;
  pprint_repos : list PseudosRepo -> string -> World -> Res unit * World;
  is_installed : PseudosRepo -> string -> World -> Res bool * World;
  install : PseudosRepo -> string -> Z -> World -> Res unit * World;
  validate_checksums : PseudosRepo -> string -> Z -> World -> Res unit * World;
  get_pseudos :
    PseudosRepo -> string -> string -> World -> Res PseudoTable * World
}.

Section Commands.
Context {World : Type} `{!OS World} `{!PsRepos World}.

(** What a run leaves on its trace: the lines it prints and its calls
    into the environment, each with its outcome. *)
Inductive Event : Type :=
| EvPrint (line : string)
| EvPrintExc (exc : PyExc)
| EvPrintRepo (repo : PseudosRepo)
| EvPrintPseudos (pseudos : PseudoTable)
| EvInput (prompt : string) (out : Res string)
| EvMkdir (path : string) (out : Res unit)
| EvListdir (path : string) (out : Res (list string))
| EvFromDirpath (dirpath : string) (out : Res PseudosRepo)
| EvReposFromIdList (ids : list Z) (out : Res (list PseudosRepo))
| EvPprintRepos (repos : list PseudosRepo) (root : string) (out : Res unit)
| EvIsInstalled (repo : PseudosRepo) (root : string) (out : Res bool)
| EvInstall (repo : PseudosRepo) (root : string) (verbosity : Z)
    (out : Res unit)
| EvValidateChecksums (repo : PseudosRepo) (root : string) (verbosity : Z)
    (out : Res unit)
| EvGetPseudos (repo : PseudosRepo) (root : string) (accuracy : string)
    (out : Res PseudoTable).

Local Abbreviation M := (Py.M World Event).

Definition print (line : string) : M unit := emit (EvPrint line).

Definition prompt : string := nl +:+ "Do you want to continue [Y/n]".

(** Lines 11-18. *)
Definition user_wants_to_abort : M bool :=
  try_except is_EOFError
    (answer <- call (EvInput prompt) (input prompt) ;;
     ret (str_in (strip (lower answer)) ["n"; "no"]))
    (fun _ => ret false).

(** Lines 21-30. *)
Definition get_repos_root (options : Options) : M string :=
  let repos_root := repos_root options in
  present <- query (os_path_exists repos_root) ;;
  (if negb present
   then call (EvMkdir repos_root) (os_mkdir repos_root)
   else ret tt) ;;
  ret repos_root.

(** Lines 37-57 of [abips_list]: what is listed. [None] is the early
    [return 0] of line 43; otherwise the root and the repositories found,
    sorted by ID. *)
Definition abips_list_show (options : Options)
    : M (option (string * list PseudosRepo)) :=
  repos_root <- get_repos_root options ;;
  names <- call (EvListdir repos_root) (os_listdir repos_root) ;;
  isdirs <- comprehension_if
              (fun name => query (os_path_isdir (os_path_join repos_root name)))
              names ;;
  let dirpaths := map (os_path_join repos_root) isdirs in
  match dirpaths with
  | [] =>
      print ("Could not find any pseudopotential repository installed in:"
             +:+ " " +:+ repos_root) ;;
      ret None
  | _ =>
      print ("The following pseudopotential repositories are installed in "
             +:+ repos_root +:+ ":" +:+ nl) ;;
      repos <- comprehension
                 (fun dirpath =>
                    call (EvFromDirpath dirpath) (from_dirpath dirpath))
                 dirpaths ;;
      let repos := sorted_by rid repos in
      call (EvPprintRepos repos repos_root) (pprint_repos repos repos_root) ;;
      (if negb (verbose options =? 0)
       then
         for_ repos (fun repo =>
           if ispaw repo then ret tt
           else
             pseudos <- call (EvGetPseudos repo repos_root "standard")
                          (get_pseudos repo repos_root "standard") ;;
             emit (EvPrintPseudos pseudos))
       else print (nl +:+ "Use -v to print the pseudos")) ;;
      ret (Some (repos_root, repos))
  end.

(** Lines 62-67: the validation loop. *)
Definition validate_all (options : Options) (repos_root : string)
    (repos : list PseudosRepo) : M (list PyExc) :=
  for_acc repos
    (fun exc_list repo =>
       try_except is_Exception
         (call (EvValidateChecksums repo repos_root (verbose options))
            (validate_checksums repo repos_root (verbose options)) ;;
          ret exc_list)
         (fun exc => ret (exc_list ++ [exc])))
    [].

(** Lines 59-74 of [abips_list]. *)
Definition abips_list_checksums (options : Options) (repos_root : string)
    (repos : list PseudosRepo) : M Z :=
  if negb (checksums options) then ret 0
  else
    exc_list <- validate_all options repos_root repos ;;
    (match exc_list with
     | [] => ret tt
     | _ =>
         print (nl +:+ "List of exceptions raised by validate_checksums:") ;;
         for_ exc_list (fun exc => emit (EvPrintExc exc))
     end) ;;
    ret (Z.of_nat (length exc_list)).

(** Lines 33-74. *)
Definition abips_list (options : Options) : M Z :=
  listed <- abips_list_show options ;;
  match listed with
  | None => ret 0
  | Some (repos_root, repos) => abips_list_checksums options repos_root repos
  end.

(** Lines 77-83; the command returns [None]. *)
Definition abips_avail (options : Options) : M unit :=
  print ("List of available pseudopotential repositories:" +:+ nl) ;;
  repos_root <- get_repos_root options ;;
  call (EvPprintRepos ALL_REPOS repos_root) (pprint_repos ALL_REPOS repos_root).

Definition check_installed (repos_root : string) (repo : PseudosRepo)
    : M bool :=
  call (EvIsInstalled repo repos_root) (is_installed repo repos_root).

(** [[repo for repo in repos if sel(repo) and not repo.is_installed(root)]] *)
Definition not_installed (sel : PseudosRepo -> bool) (repos_root : string)
    (repos : list PseudosRepo) : M (list PseudosRepo) :=
  comprehension_if
    (fun repo =>
       if sel repo
       then there <- check_installed repos_root repo ;; ret (negb there)
       else ret false)
    repos.

(** [if not options.yes and user_wants_to_abort(): return 2], as the
    question whether the command stops here. *)
Definition declined (options : Options) : M bool :=
  if negb (yes options) then user_wants_to_abort else ret false.

Definition install_all (options : Options) (repos_root : string)
    (repos : list PseudosRepo) : M unit :=
  for_ repos (fun repo =>
    call (EvInstall repo repos_root (verbose options))
      (install repo repos_root (verbose options))).

(** Lines 86-106. *)
Definition abips_nc_get (options : Options) : M Z :=
  repos_root <- get_repos_root options ;;
  repos <- not_installed isnc repos_root ALL_REPOS ;;
  match repos with
  | [] =>
      print ("All registered NC repositories are already installed in "
             +:+ repos_root +:+ ". Returning") ;;
      ret 0
  | _ =>
      print ("The following NC repositories will be installed:" +:+ nl) ;;
      call (EvPprintRepos repos repos_root) (pprint_repos repos repos_root) ;;
      stop <- declined options ;;
      if stop then ret 2
      else
        print "Fetching NC repositories. It may take some time ..." ;;
        install_all options repos_root repos ;;
        abips_list options ;;
        ret 0
  end.

(** Lines 109-128. *)
Definition abips_paw_get (options : Options) : M Z :=
  repos_root <- get_repos_root options ;;
  repos <- not_installed ispaw repos_root ALL_REPOS ;;
  match repos with
  | [] =>
      print ("All registered PAW repositories are already installed in "
             +:+ repos_root +:+ ". Returning") ;;
      ret 0
  | _ =>
      print "The following PAW repositories will be installed:" ;;
      call (EvPprintRepos repos repos_root) (pprint_repos repos repos_root) ;;
      stop <- declined options ;;
      if stop then ret 2
      else
        print "Fetching PAW repositories. It may take some time ..." ;;
        install_all options repos_root repos ;;
        abips_list options ;;
        ret 0
  end.

(** Lines 131-153. *)
Definition abips_get_byid (options : Options) : M Z :=
  repos_root <- get_repos_root options ;;
  repos <- call (EvReposFromIdList (id_list options))
             (repos_from_id_list (id_list options)) ;;
  repos <- not_installed (fun _ => true) repos_root repos ;;
  match repos with
  | [] =>
      print "Tables are already installed!" ;;
      abips_list options ;;
      ret 1
  | _ =>
      print "The following pseudopotential repositories will be installed:" ;;
      call (EvPprintRepos repos repos_root) (pprint_repos repos repos_root) ;;
      stop <- declined options ;;
      if stop then ret 2
      else
        install_all options repos_root repos ;;
        abips_list options ;;
        ret 0
  end.

(** Lines 156-173. *)
Definition abips_show (options : Options) : M Z :=
  repos_root <- get_repos_root options ;;
  repos <- call (EvReposFromIdList (id_list options))
             (repos_from_id_list (id_list options)) ;;
  repos <- not_installed (fun _ => true) repos_root repos ;;
  match repos with
  | [] =>
      print "Tables are already installed!" ;;
      abips_list options ;;
      ret 1
  | _ =>
      for_ repos (fun repo =>
        emit (EvPrintRepo repo) ;;
        pseudos <- call (EvGetPseudos repo repos_root "standard")
                     (get_pseudos repo repos_root "standard") ;;
        emit (EvPrintPseudos pseudos)) ;;
      ret 0
  end.
(** ** What a trace shows *)

(** The repositories [install] was called on, in call order. *)
Definition installs (t : list Event) : list PseudosRepo :=
  omap (fun ev => match ev with EvInstall r _ _ _ => Some r | _ => None end) t.

(** The repositories [is_installed] answered [False] for. *)
Definition found_missing (t : list Event) : list PseudosRepo :=
  omap (fun ev =>
          match ev with EvIsInstalled r _ (Ret false) => Some r | _ => None end)
    t.

(** The outcomes of the reads of the terminal. *)
Definition prompts (t : list Event) : list (Res string) :=
  omap (fun ev => match ev with EvInput _ out => Some out | _ => None end) t.

(** The repositories [validate_checksums] was called on. *)
Definition validated (t : list Event) : list PseudosRepo :=
  omap (fun ev =>
          match ev with EvValidateChecksums r _ _ _ => Some r | _ => None end)
    t.

(** What the calls to [validate_checksums] raised. *)
Definition failures (t : list Event) : list PyExc :=
  omap (fun ev =>
          match ev with
          | EvValidateChecksums _ _ _ (Raise e) => Some e
          | _ => None
          end) t.

(** The calls to [get_pseudos]: repository and accuracy. *)
Definition tables (t : list Event) : list (PseudosRepo * string) :=
  omap (fun ev =>
          match ev with EvGetPseudos r _ acc _ => Some (r, acc) | _ => None end)
    t.

(** The paths [from_dirpath] was called on. *)
Definition resolved (t : list Event) : list string :=
  omap (fun ev => match ev with EvFromDirpath p _ => Some p | _ => None end) t.

(** What [from_dirpath] raised, with the path it was called on. *)
Definition rejected (t : list Event) : list (string * PyExc) :=
  omap (fun ev =>
          match ev with
          | EvFromDirpath p (Raise e) => Some (p, e)
          | _ => None
          end) t.


(** An answer that makes [user_wants_to_abort] return [True]. *)
Definition says_no (answer : string) : bool :=
  str_in (strip (lower answer)) ["n"; "no"].

(** What the last lines of [abips_list] print for the exceptions
    collected. *)
Definition report (exc_list : list PyExc) : list Event :=
  match exc_list with
  | [] => []
  | _ =>
      EvPrint (nl +:+ "List of exceptions raised by validate_checksums:")
      :: map EvPrintExc exc_list
  end.

(** [validate_checksums] raises nothing but instances of [Exception]. *)
Definition raises_exceptions_only : Prop :=
  forall repo root v w e,
    (validate_checksums repo root v w).1 = Raise e -> is_Exception e = true.

(** A call to [validate_checksums] that returned. *)
Definition validation_passed (ev : Event) : Prop :=
  exists repo root v, ev = EvValidateChecksums repo root v (Ret tt).

(** The events that are neither a call to [install] or [is_installed]
    nor a read of the terminal. *)
Definition passive (ev : Event) : Prop :=
  match ev with
  | EvInstall _ _ _ _ | EvIsInstalled _ _ _ | EvInput _ _ => False
  | _ => True
  end.

(** The events that neither ask for a table nor print one. *)
Definition tableless (ev : Event) : Prop :=
  match ev with
  | EvGetPseudos _ _ _ _ | EvPrintPseudos _ => False
  | _ => True
  end.

(** The outcomes of the prompt after which [user_wants_to_abort] returns
    [False]: the end of the input, or an answer other than n and no. *)
Definition consents (out : Res string) : bool :=
  match out with
  | Ret answer => negb (says_no answer)
  | Raise e => is_EOFError e
  end.

(** What the three installing commands do once they have something to
    install (lines 98-106, 120-128 and 146-153); [announce] is the line
    the first two print before they fetch. *)
Definition proceed (announce : option string) (options : Options)
    (repos_root : string) (repos : list PseudosRepo) : M Z :=
  call (EvPprintRepos repos repos_root) (pprint_repos repos repos_root) ;;
  stop <- declined options ;;
  if stop then ret 2
  else
    match announce with
    | Some line =>
        print line ;;
        install_all options repos_root repos ;;
        abips_list options ;;
        ret 0
    | None =>
        install_all options repos_root repos ;;
        abips_list options ;;
        ret 0
    end.

(** How a run of an installing command relates what it installs to what
    it found missing. *)
Definition install_discipline (t : list Event) (r : Res Z) : Prop :=
  installs t `prefix_of` found_missing t
  /\ (forall v, r = Ret v -> v <> 2 -> installs t = found_missing t)
  /\ (found_missing t = [] -> installs t = [] /\ prompts t = []).

(** How a run of an installing command relates what it installs to the
    consent it got. *)
Definition consent_discipline (options : Options) (t : list Event)
    (r : Res Z) : Prop :=
  (yes options = true -> prompts t = [])
  /\ (forall answer,
        In (Ret answer) (prompts t) -> says_no answer = true ->
        r = Ret 2 /\ installs t = [])
  /\ (installs t <> [] ->
      yes options = true
      \/ exists out, prompts t = [out] /\ consents out = true)
  /\ (forall out,
        In out (prompts t) -> consents out = true ->
        yes options = false /\ installs t <> [] /\ r <> Ret 2)
  /\ (r = Ret 2 ->
      installs t = []
      /\ exists answer, prompts t = [Ret answer] /\ says_no answer = true).


(** The table requests of the loop of [abips_show] over [repos]. *)
Definition standard_tables (repos : list PseudosRepo)
    : list (PseudosRepo * string) :=
  map (fun repo => (repo, "standard")) repos.

(** The events that are not a call to [from_dirpath]. *)
Definition unresolving (ev : Event) : Prop :=
  match ev with
  | EvFromDirpath _ _ => False
  | _ => True
  end.

(** What lines 38-39 keep of a listing: the entries that are
    directories, as paths. *)
Definition directories_of (root : string) (names : list string) (w : World)
    : list string :=
  map (os_path_join root)
    (List.filter (fun name => os_path_isdir (os_path_join root name) w) names).

(** The commands that install. *)
Definition install_commands : list (Options -> M Z) :=
  [abips_nc_get; abips_paw_get; abips_get_byid].
End Commands.

End Script.

(* ===================================================================== *)
(** * The catalog and installation core, from the specification           *)
(* ===================================================================== *)

Module Core.
Import Py.
Local Open Scope py_scope.

Inductive Category : Type := NormConserving | ProjectorAugmentedWave.
Inductive Relativity : Type := ScalarRelativistic | FullyRelativistic.
Inductive Format : Type := FormatA | FormatB | FormatC.

(** Modelled from the spec: the Repository Descriptor of section 3 (the
    class [PseudosRepo] of abipy.flowtk.psrepos is not part of the
    sources). [expected_checksum] lists each file of the bundle with its
    expected digest. *)
Record Descriptor : Type := {
  d_id : Z;
  d_name : string;
  d_category : Category;
  d_functional : string;
  d_relativity : Relativity;
  d_format : Format;
  d_version : string;
  d_remote_url : string;
  d_expected_checksum : list (string * string);
  d_accuracy_tiers : list string
}.

(** The contents of one directory: file name to bytes. *)
Abbreviation Bundle := (gmap string string).

(** Modelled from the spec: the resources of sections 4.3 and 5. [disk] maps
    the path of a directory to its files, [tmp] is the temporary location
    the installer unpacks into, [net] is what the remote registry serves,
    [quota] is the number of files the disk still accepts (none: no limit)
    and [alarm] the number of steps left before the process is interrupted
    (none: never). *)
Record World : Type := {
  disk : gmap string Bundle;
  tmp : gmap string Bundle;
  net : gmap string string;
  quota : option nat;
  alarm : option nat
}.

(** Modelled from the spec: what the specification leaves to the
    implementation: the catalog ([ALL_REPOS] of abipy.flowtk.psrepos), the
    encoding of a descriptor's identity fields into a directory name
    (section 6), the marker files of a category (section 4.2), the digest
    and the archive format. *)
Class Platform : Type := {
  Registry : list Descriptor;
  encode : Category -> string -> Relativity -> Format -> string -> string;
  markers : Category -> list string;
  digest : string -> string;
  unpack : string -> option (list (string * string))
}.

(** An integrity violation: the file, the digest expected and the digest
    found, if the file is there. *)
Record IntegrityViolation : Type := {
  iv_file : string;
  iv_expected : string;
  iv_actual : option string
}.

Abbreviation M := (Py.M World Empty_set).

Section Model.
Context `{Platform}.

(** ** Registry and resolver (section 4.1) *)

Definition allRepositories : list Descriptor := Registry.

Definition lookup_id (i : Z) : option Descriptor :=
  find (fun d => d_id d =? i) Registry.

(** Modelled from the spec: [byIds] of section 4.1, the contract of
    [repos_from_id_list] of abipy.flowtk.psrepos, which is not part of
    the sources. *)
Fixpoint byIds (ids : list Z) : Res (list Descriptor) :=
  match ids with
  | [] => Ret []
  | i :: rest =>
      match lookup_id i with
      | None => Raise (UnknownRepositoryId i)
      | Some d =>
          match byIds rest with
          | Ret ds => Ret (d :: ds)
          | Raise e => Raise e
          end
      end
  end.

(** ** Installation locator (section 4.2) *)

Definition dir_name (d : Descriptor) : string :=
  encode (d_category d) (d_functional d) (d_relativity d) (d_format d)
    (d_version d).

(** Modelled from the spec: [directoryFor] of section 4.2. *)
Definition directoryFor (d : Descriptor) (root : string) : string :=
  os_path_join root (dir_name d).

(** [os.path.basename] of posixpath: what follows the last separator. *)
Fixpoint basename (path : string) : string :=
  match path with
  | EmptyString => EmptyString
  | String c rest =>
      if Ascii.eqb c "/" then basename rest
      else if existsb (Ascii.eqb "/") (list_ascii_of_string rest)
           then basename rest
           else path
  end.

(** Modelled from the spec: [fromInstalledDirectory] of section 4.1, the
    contract of [PseudosRepo.from_dirpath] of abipy.flowtk.psrepos, which
    is not part of the sources. *)
Definition fromInstalledDirectory (path : string) : Res Descriptor :=
  match find (fun d => String.eqb (dir_name d) (basename path)) Registry with
  | Some d => Ret d
  | None => Raise (UnrecognizedDirectoryName (basename path))
  end.

Definition has_file (b : Bundle) (file : string) : bool :=
  match b !! file with Some _ => true | None => false end.

(** Modelled from the spec: [isInstalled] of section 4.2: the directory
    exists and holds the marker files of the category. *)
Definition isInstalled (d : Descriptor) (root : string) (w : World) : bool :=
  match disk w !! directoryFor d root with
  | Some b => forallb (has_file b) (markers (d_category d))
  | None => false
  end.

(** ** Installer (section 4.3) *)

(** Every step of the installer first checks for an interruption. *)
Definition tick : M unit :=
  fun w =>
    match alarm w with
    | Some O => ([], w, Raise KeyboardInterrupt)
    | Some (S n) =>
        ([], {| disk := disk w; tmp := tmp w; net := net w;
                quota := quota w; alarm := Some n |}, Ret tt)
    | None => ([], w, Ret tt)
    end.

Definition fetch (url : string) : M string :=
  tick ;;
  fun w =>
    match net w !! url with
    | Some archive => ([], w, Ret archive)
    | None => ([], w, Raise NetworkError)
    end.

Definition clear_tmp (slot : string) : M unit :=
  fun w =>
    ([], {| disk := disk w; tmp := <[slot := ∅]> (tmp w); net := net w;
            quota := quota w; alarm := alarm w |}, Ret tt).

Definition write_tmp (slot file content : string) : M unit :=
  tick ;;
  fun w =>
    let written :=
      <[slot := <[file := content]> (default ∅ (tmp w !! slot))]> (tmp w) in
    match quota w with
    | Some O => ([], w, Raise FilesystemError)
    | Some (S n) =>
        ([], {| disk := disk w; tmp := written; net := net w;
                quota := Some n; alarm := alarm w |}, Ret tt)
    | None =>
        ([], {| disk := disk w; tmp := written; net := net w;
                quota := None; alarm := alarm w |}, Ret tt)
    end.

(** The rename into place is one step: the target directory gets the whole
    content of the temporary one, which is gone afterwards. *)
Definition rename_into_place (slot target : string) : M unit :=
  tick ;;
  fun w =>
    ([], {| disk := <[target := default ∅ (tmp w !! slot)]> (disk w);
            tmp := delete slot (tmp w); net := net w;
            quota := quota w; alarm := alarm w |}, Ret tt).

(** Modelled from the spec: [install] of section 4.3, the contract of
    [PseudosRepo.install] of abipy.flowtk.psrepos, which is not part of
    the sources: fetch, unpack into the temporary location, rename. *)
Definition install (d : Descriptor) (root : string) : M unit :=
  let slot := dir_name d in
  archive <- fetch (d_remote_url d) ;;
  match unpack archive with
  | None => raise ArchiveCorruptError
  | Some files =>
      clear_tmp slot ;;
      for_ files (fun '(file, content) => write_tmp slot file content) ;;
      rename_into_place slot (directoryFor d root)
  end.

(** ** Checksum validator (section 4.4) *)

Definition check_file (b : Bundle) (entry : string * string)
    : list IntegrityViolation :=
  let '(file, expected) := entry in
  match b !! file with
  | None =>
      [{| iv_file := file; iv_expected := expected; iv_actual := None |}]
  | Some content =>
      if String.eqb (digest content) expected then []
      else [{| iv_file := file; iv_expected := expected;
               iv_actual := Some (digest content) |}]
  end.

(** Modelled from the spec: [validate] of section 4.4, the contract of
    [PseudosRepo.validate_checksums] of abipy.flowtk.psrepos, which is not
    part of the sources. *)
Definition validate (d : Descriptor) (root : string) (w : World)
    : Res (list IntegrityViolation) :=
  match disk w !! directoryFor d root with
  | None => Raise NotInstalledError
  | Some b => Ret (flat_map (check_file b) (d_expected_checksum d))
  end.

(** ** Table accessor (section 4.5) *)

(** Modelled from the spec: [pseudosFor] of section 4.5; the table is the
    list of the bundle's file names. *)
Definition pseudosFor (d : Descriptor) (root tier : string) (w : World)
    : Res (list string) :=
  if negb (str_in tier (d_accuracy_tiers d)) then
    Raise (UnsupportedTierError tier)
  else
    match disk w !! directoryFor d root with
    | None => Raise NotInstalledError
    | Some b => Ret (map fst (map_to_list b))
    end.

(** Changing one byte of a file. *)
Fixpoint corrupt_byte (i : nat) (content : string) : string :=
  match content with
  | EmptyString => EmptyString
  | String c rest =>
      match i with
      | O => String (ascii_of_N ((N_of_ascii c + 1) mod 256)) rest
      | S j => String c (corrupt_byte j rest)
      end
  end.

Definition corrupt_file (path file : string) (i : nat) (w : World) : World :=
  {| disk := alter (alter (corrupt_byte i) file) path (disk w);
     tmp := tmp w; net := net w; quota := quota w; alarm := alarm w |}.
(** ** Vocabulary of the properties *)

(** An id is registered when the catalog has a descriptor with it. *)
Definition registered (i : Z) : Prop :=
  exists d, In d Registry /\ d_id d = i.

(** The bundle a list of unpacked files makes, written in order. *)
Definition bundle_of (files : list (string * string)) (b : Bundle) : Bundle :=
  foldl (fun acc entry => <[entry.1 := entry.2]> acc) b files.

(** The remote registry serves for [d] an archive that unpacks, names no
    file twice, and holds every expected file with the expected
    digest. *)
Definition genuine (d : Descriptor) (w : World) : Prop :=
  exists archive files,
    net w !! d_remote_url d = Some archive
    /\ unpack archive = Some files
    /\ NoDup (map fst files)
    /\ forall file expected,
         In (file, expected) (d_expected_checksum d) ->
         exists content, In (file, content) files /\ digest content = expected.

(** The steps that leave the installed directories and the remote
    registry alone. *)
Definition keeps_disk {A} (m : M A) : Prop :=
  forall w t w' r, m w = (t, w', r) -> disk w' = disk w /\ net w' = net w.
End Model.

End Core.

(* ===================================================================== *)
(** * A concrete machine                                                   *)
(* ===================================================================== *)

Module Demo.
Import Py Script.

(** A toy archive format: [name=content;name=content;...]. *)
Fixpoint split_on (sep : ascii) (s : string) : list string :=
  match s with
  | EmptyString => [EmptyString]
  | String c rest =>
      if Ascii.eqb c sep then EmptyString :: split_on sep rest
      else
        match split_on sep rest with
        | [] => [String c EmptyString]
        | piece :: pieces => String c piece :: pieces
        end
  end.

Definition entry_of (piece : string) : option (string * string) :=
  match split_on "=" piece with
  | [name; content] => Some (name, content)
  | _ => None
  end.

Definition demo_unpack (archive : string) : option (list (string * string)) :=
  mapM entry_of
    (List.filter (fun piece => negb (String.eqb piece "")) (split_on ";" archive)).

Definition category_tag (c : Core.Category) : string :=
  match c with
  | Core.NormConserving => "ONCVPSP"
  | Core.ProjectorAugmentedWave => "JTH"
  end.

Definition relativity_tag (r : Core.Relativity) : string :=
  match r with
  | Core.ScalarRelativistic => "SR"
  | Core.FullyRelativistic => "FR"
  end.

Definition format_tag (f : Core.Format) : string :=
  match f with
  | Core.FormatA => "psp8"
  | Core.FormatB => "upf2"
  | Core.FormatC => "psml"
  end.

Definition demo_encode (c : Core.Category) (functional : string)
    (r : Core.Relativity) (f : Core.Format) (version : string) : string :=
  category_tag c +:+ "-" +:+ functional +:+ "-" +:+ relativity_tag r
  +:+ "-" +:+ format_tag f +:+ "-v" +:+ version.

Definition pbe_sr : Core.Descriptor :=
  {| Core.d_id := 1; Core.d_name := "PBE scalar";
     Core.d_category := Core.NormConserving; Core.d_functional := "PBE";
     Core.d_relativity := Core.ScalarRelativistic;
     Core.d_format := Core.FormatA; Core.d_version := "0.4";
     Core.d_remote_url := "https://example.org/pbe-sr.tgz";
     Core.d_expected_checksum := [("H.psp8", "#h-sr"); ("He.psp8", "#he-sr")];
     Core.d_accuracy_tiers := ["standard"; "stringent"] |}.

Definition pbe_fr : Core.Descriptor :=
  {| Core.d_id := 2; Core.d_name := "PBE full";
     Core.d_category := Core.NormConserving; Core.d_functional := "PBE";
     Core.d_relativity := Core.FullyRelativistic;
     Core.d_format := Core.FormatA; Core.d_version := "0.4";
     Core.d_remote_url := "https://example.org/pbe-fr.tgz";
     Core.d_expected_checksum := [("H.psp8", "#h-fr")];
     Core.d_accuracy_tiers := ["standard"] |}.

Definition lda_paw : Core.Descriptor :=
  {| Core.d_id := 3; Core.d_name := "LDA paw";
     Core.d_category := Core.ProjectorAugmentedWave;
     Core.d_functional := "LDA";
     Core.d_relativity := Core.ScalarRelativistic;
     Core.d_format := Core.FormatA; Core.d_version := "1.1";
     Core.d_remote_url := "https://example.org/lda-paw.tgz";
     Core.d_expected_checksum := [("H.xml", "#h-paw")];
     Core.d_accuracy_tiers := ["standard"] |}.

(** The digest of the demo keeps the content: it has no collisions. *)
#[export] Instance demo_platform : Core.Platform :=
  {| Core.Registry := [pbe_sr; pbe_fr; lda_paw];
     Core.encode := demo_encode;
     Core.markers := fun _ => [];
     Core.digest := fun content => "#" +:+ content;
     Core.unpack := demo_unpack |}.

(** The machine: the resources of the core and what the user will type
    (each pending read of the terminal, with its outcome). *)
Record World : Type := {
  core : Core.World;
  stdin : list (Res string)
}.

Definition on_core {A} (m : Core.M A) (w : World) : Res A * World :=
  match m (core w) with
  | (_, c, r) => (r, {| core := c; stdin := stdin w |})
  end.

Definition with_disk (d : gmap string Core.Bundle) (w : World) : World :=
  {| core := {| Core.disk := d; Core.tmp := Core.tmp (core w);
                Core.net := Core.net (core w);
                Core.quota := Core.quota (core w);
                Core.alarm := Core.alarm (core w) |};
     stdin := stdin w |}.

Definition is_dir (path : string) (w : World) : bool :=
  match Core.disk (core w) !! path with Some _ => true | None => false end.

Fixpoint strip_prefix (prefix s : string) : option string :=
  match prefix, s with
  | EmptyString, _ => Some s
  | String a prefix', String b s' =>
      if Ascii.eqb a b then strip_prefix prefix' s' else None
  | String _ _, EmptyString => None
  end.

(** The name of [path] inside [dir], when [path] is directly inside. *)
Definition child_of (dir path : string) : option string :=
  match strip_prefix (os_path_join dir "") path with
  | Some name =>
      if String.eqb name ""
         || existsb (Ascii.eqb "/") (list_ascii_of_string name)
      then None else Some name
  | None => None
  end.

Definition entries (dir : string) (w : World) : list string :=
  match Core.disk (core w) !! dir with
  | Some files =>
      map fst (map_to_list files)
      ++ omap (fun '(path, _) => child_of dir path)
           (map_to_list (Core.disk (core w)))
  | None => []
  end.

Definition is_file (path : string) (w : World) : bool :=
  existsb
    (fun '(dir, files) =>
       existsb (fun '(name, _) => String.eqb (os_path_join dir name) path)
         (map_to_list files))
    (map_to_list (Core.disk (core w))).

(** [os.path.dirname] of a path without trailing separators: what stands
    before the last separator, without the separators that end it unless
    it is made of separators only. *)
Definition is_sep (c : ascii) : bool := Ascii.eqb c "/".

Fixpoint drop_seps (cs : list ascii) : list ascii :=
  match cs with
  | [] => []
  | c :: rest => if is_sep c then drop_seps rest else cs
  end.

Fixpoint drop_name (cs : list ascii) : list ascii :=
  match cs with
  | [] => []
  | c :: rest => if is_sep c then cs else drop_name rest
  end.

Definition dirname (path : string) : string :=
  let head := drop_name (drop_seps (rev (list_ascii_of_string path))) in
  string_of_list_ascii
    (rev (if forallb is_sep head then head else drop_seps head)).

(** The directory [os.mkdir] needs: the working directory and the root of
    the file system are there, any other parent has to be a directory. *)
Definition parent_is_dir (path : string) (w : World) : bool :=
  let parent := dirname path in
  forallb is_sep (list_ascii_of_string parent) || is_dir parent w.

#[export] Instance demo_os : OS World :=
  {| os_path_exists := fun path w => is_dir path w || is_file path w;
     os_path_isdir := is_dir;
     os_mkdir := fun path w =>
       if is_dir path w || is_file path w
       then (Raise (OSError "File exists"), w)
       else if negb (parent_is_dir path w)
       then (Raise (OSError "No such file or directory"), w)
       else (Ret tt, with_disk (<[path := ∅]> (Core.disk (core w))) w);
     os_listdir := fun path w =>
       if is_dir path w then (Ret (entries path w), w)
       else (Raise (OSError "No such directory"), w);
     input := fun _ w =>
       match stdin w with
       | [] => (Raise EOFError, w)
       | out :: rest => (out, {| core := core w; stdin := rest |})
       end |}.

(** The validator reports its violations to the script by raising. *)
Definition demo_validate_checksums (d : Core.Descriptor) (root : string)
    (w : World) : Res unit * World :=
  match Core.validate d root (core w) with
  | Ret [] => (Ret tt, w)
  | Ret (v :: _) => (Raise (ValueError (Core.iv_file v)), w)
  | Raise e => (Raise e, w)
  end.

Definition is_nc (d : Core.Descriptor) : bool :=
  match Core.d_category d with
  | Core.NormConserving => true
  | Core.ProjectorAugmentedWave => false
  end.

#[export] Instance demo_psrepos : PsRepos World :=
  {| PseudosRepo := Core.Descriptor;
     PseudoTable := list string;
     rid := Core.d_id;
     isnc := is_nc;
     ispaw := fun d => negb (is_nc d);
     ALL_REPOS := Core.Registry;
     from_dirpath := fun path w => (Core.fromInstalledDirectory path, w);
     repos_from_id_list := fun ids w => (Core.byIds ids, w);
     pprint_repos := fun _ _ w => (Ret tt, w);
     is_installed := fun d root w => (Ret (Core.isInstalled d root (core w)), w);
     install := fun d root _ => on_core (Core.install d root);
     validate_checksums := fun d root _ => demo_validate_checksums d root;
     get_pseudos := fun d root tier w =>
       (Core.pseudosFor d root tier (core w), w) |}.

Definition remote : gmap string string :=
  {[ "https://example.org/pbe-sr.tgz" := "H.psp8=h-sr;He.psp8=he-sr;";
     "https://example.org/pbe-fr.tgz" := "H.psp8=h-fr;";
     "https://example.org/lda-paw.tgz" := "H.xml=h-paw;" ]}.

Definition machine (d : gmap string Core.Bundle) (typed : list (Res string))
    : World :=
  {| core := {| Core.disk := d; Core.tmp := ∅; Core.net := remote;
                Core.quota := None; Core.alarm := None |};
     stdin := typed |}.

Definition root : string := "/home/u/.abinit/pseudos".

Definition opts (v : Z) (y c : bool) (ids : list Z) : Options :=
  {| repos_root := root; verbose := v; yes := y; checksums := c;
     id_list := ids |}.

(** ** Machines the facts are tried on *)

Definition dir_of (d : Core.Descriptor) : string := Core.directoryFor d root.

(** The root with the scalar PBE and the LDA repositories; a file of the
    latter has been tampered with. *)
Definition installed_disk : gmap string Core.Bundle :=
  <[root := ∅]>
    (<[dir_of pbe_sr := {[ "H.psp8" := "h-sr"; "He.psp8" := "he-sr" ]}]>
       (<[dir_of lda_paw := {[ "H.xml" := "tampered" ]}]> ∅)).

(** The same root with the scalar PBE repository only, as installed. *)
Definition clean_disk : gmap string Core.Bundle :=
  <[root := ∅]>
    (<[dir_of pbe_sr := {[ "H.psp8" := "h-sr"; "He.psp8" := "he-sr" ]}]> ∅).

(** The same with a directory of the user's next to the repository. *)
Definition stray_disk : gmap string Core.Bundle :=
  <[os_path_join root "notes" := ∅]> clean_disk.

(** A machine whose installer is interrupted after [n] steps. *)
Definition interrupted (n : nat) : Core.World :=
  {| Core.disk := {[ root := ∅ ]}; Core.tmp := ∅; Core.net := remote;
     Core.quota := None; Core.alarm := Some n |}.

(** The options and the listing the facts are tried with. *)
Definition listing_options : Options := opts 0 false true [].

Definition listed : list (PseudosRepo (World:=World)) := [pbe_sr; lda_paw].

Definition clean_core : Core.World := core (machine clean_disk []).

Definition fetch_options : Options := opts 0 true false [].

Definition ask_options : Options := opts 0 false false [2; 3].


End Demo.


(* ===================================================================== *)
(** * More observations on the commands                                    *)
(* ===================================================================== *)

Module Observe.
Import Py Script.
Local Open Scope py_scope.

Section Observations.
Context {World : Type} `{!OS World} `{!PsRepos World}.
Local Abbreviation M := (Py.M World Event).

(** The repositories [is_installed] was asked about, whatever it said. *)
Definition checked (t : list Event) : list PseudosRepo :=
  omap (fun ev => match ev with EvIsInstalled r _ _ => Some r | _ => None end) t.

(** The repositories [from_dirpath] returned. *)
Definition returned_repos (t : list Event) : list PseudosRepo :=
  omap (fun ev =>
          match ev with EvFromDirpath _ (Ret r) => Some r | _ => None end) t.

(** What [pprint_repos] was given to display. *)
Definition listings (t : list Event) : list (list PseudosRepo * string) :=
  omap (fun ev =>
          match ev with
          | EvPprintRepos repos root _ => Some (repos, root)
          | _ => None
          end) t.

(** The lines printed with [print]. *)
Definition printed (t : list Event) : list string :=
  omap (fun ev => match ev with EvPrint line => Some line | _ => None end) t.

(** The exceptions printed. *)
Definition printed_excs (t : list Event) : list PyExc :=
  omap (fun ev => match ev with EvPrintExc e => Some e | _ => None end) t.

(** The directories [os.mkdir] was called on. *)
Definition mkdirs (t : list Event) : list string :=
  omap (fun ev => match ev with EvMkdir path _ => Some path | _ => None end) t.

(** The lists [repos_from_id_list] returned. *)
Definition asked (t : list Event) : list (list PseudosRepo) :=
  omap (fun ev =>
          match ev with EvReposFromIdList _ (Ret l) => Some l | _ => None end) t.

(** What a call raised. *)
Definition raised_by (ev : Event) : option PyExc :=
  match ev with
  | EvInput _ (Raise e)
  | EvMkdir _ (Raise e)
  | EvListdir _ (Raise e)
  | EvFromDirpath _ (Raise e)
  | EvReposFromIdList _ (Raise e)
  | EvPprintRepos _ _ (Raise e)
  | EvIsInstalled _ _ (Raise e)
  | EvInstall _ _ _ (Raise e)
  | EvValidateChecksums _ _ _ (Raise e)
  | EvGetPseudos _ _ _ (Raise e) => Some e
  | _ => None
  end.

(** What a call raised that the script does not catch: [input] is read
    under [except EOFError] (line 15) and [validate_checksums] is called
    under [except Exception] (line 66); no other call is guarded. *)
Definition fatal (ev : Event) : option PyExc :=
  match ev with
  | EvInput _ (Raise e) => if is_EOFError e then None else Some e
  | EvValidateChecksums _ _ _ (Raise e) =>
      if is_Exception e then None else Some e
  | _ => raised_by ev
  end.

(** A run that ends as its calls did: it returns when none of them raised
    something uncaught, and otherwise it raises what the last call it made
    raised. *)
Definition ends_as_called {A} (t : list Event) (r : Res A) : Prop :=
  match r with
  | Ret _ => omap fatal t = []
  | Raise e =>
      exists before ev,
        t = before ++ [ev] /\ fatal ev = Some e /\ omap fatal before = []
  end.

Definition well_ended {A} (m : M A) : Prop :=
  forall w, ends_as_called (m w).1.1 (m w).2.

(** The commands that return an exit code. *)
Definition commands : list (Options -> M Z) :=
  [abips_list; abips_nc_get; abips_paw_get; abips_get_byid; abips_show].

(** An ascending list of integers. *)
Fixpoint ascending (ks : list Z) : bool :=
  match ks with
  | [] => true
  | k :: rest =>
      match rest with
      | [] => true
      | k' :: _ => (k <=? k') && ascending rest
      end
  end.

(** The calls to [install] that raised. *)
Definition install_failures (t : list Event) : list (PseudosRepo * PyExc) :=
  omap (fun ev =>
          match ev with
          | EvInstall r _ _ (Raise e) => Some (r, e)
          | _ => None
          end) t.

(** The values a command can return all satisfy [S]. *)
Definition returns_in {A} (S : A -> Prop) (m : M A) : Prop :=
  forall w a, (m w).2 = Ret a -> S a.

(** Events that are not a call to [is_installed] or [repos_from_id_list]. *)
Definition unselecting (ev : Event) : Prop :=
  match ev with
  | EvIsInstalled _ _ _ | EvReposFromIdList _ _ => False
  | _ => True
  end.

(** Events that are not a call to [from_dirpath] or [pprint_repos]. *)
Definition unlisting (ev : Event) : Prop :=
  match ev with
  | EvFromDirpath _ _ | EvPprintRepos _ _ _ => False
  | _ => True
  end.

(** Events that are neither a call to [validate_checksums] nor the print
    of an exception. *)
Definition unvalidating (ev : Event) : Prop :=
  match ev with
  | EvValidateChecksums _ _ _ _ | EvPrintExc _ => False
  | _ => True
  end.

(** Events that are a call to [validate_checksums]. *)
Definition validating (ev : Event) : Prop :=
  match ev with
  | EvValidateChecksums _ _ _ _ => True
  | _ => False
  end.

(** [os.mkdir], when it returns, has made the path exist. *)
Definition mkdir_creates : Prop :=
  forall path w w',
    os_mkdir path w = (Ret tt, w') -> os_path_exists path w' = true.

(** Events that are a call to [from_dirpath]. *)
Definition resolving (ev : Event) : Prop :=
  match ev with
  | EvFromDirpath _ _ => True
  | _ => False
  end.

(** The repositories that are not PAW. *)
Definition without_paw (repos : list PseudosRepo) : list PseudosRepo :=
  List.filter (fun repo => negb (ispaw repo)) repos.

(** How a run relates the repositories it asks [is_installed] about to
    the repositories [selected] it works on: they are asked about in
    order, all of them once the command returns, installs or asks for a
    table, and every question comes before the first installation and
    the first table. *)
Definition selection_discipline (selected : list PseudosRepo)
    (t : list Event) (r : Res Z) : Prop :=
  checked t `prefix_of` selected
  /\ (is_Ret r = true -> checked t = selected)
  /\ (installs t <> [] -> checked t = selected)
  /\ (tables t <> [] -> checked t = selected)
  /\ exists t1 t2,
       t = t1 ++ t2 /\ installs t1 = [] /\ tables t1 = [] /\ checked t2 = [].

(** The calls on a repository are made with [options.repos_root], and
    [install] with [options.verbose]. *)
Definition at_root (options : Options) (ev : Event) : Prop :=
  match ev with
  | EvIsInstalled _ rt _ => rt = repos_root options
  | EvInstall _ rt v _ => rt = repos_root options /\ v = verbose options
  | EvGetPseudos _ rt _ _ => rt = repos_root options
  | _ => True
  end.

(** The same for a command that works on what [repos_from_id_list]
    returns for [options.id_list]: it is called on that list only and
    returns at most once; nothing is asked, installed or shown when it
    did not return. *)
Definition request_discipline (options : Options) (t : list Event)
    (r : Res Z) : Prop :=
  (forall ids out, In (EvReposFromIdList ids out) t -> ids = id_list options)
  /\ (length (asked t) <= 1)%nat
  /\ (asked t = [] ->
      is_Ret r = false
      /\ checked t = [] /\ installs t = [] /\ tables t = [])
  /\ (forall requested,
        asked t = [requested] -> selection_discipline requested t r).
End Observations.

(** A string made of whitespace only. *)
Fixpoint blank (s : string) : bool :=
  match s with
  | EmptyString => true
  | String c rest => isspace c && blank rest
  end.

End Observe.

(* ===================================================================== *)
(** * The entry point                                                      *)
(* ===================================================================== *)

Module Entry.
Import Py Script.
Local Open Scope py_scope.

(** Lines 176-187. *)
Definition get_epilog : string :=
  "" +:+ nl
  +:+ "Usage example:" +:+ nl
  +:+ "" +:+ nl
  +:+ "  abips.py avail                          --> Show registered repositories and the associated IDs." +:+ nl
  +:+ "  abips.py list                           --> List installed repositories." +:+ nl
  +:+ "  abips.py get_byid 1 3                   --> Download repositories by ID(s).          " +:+ nl
  +:+ "  abips.py nc_get                         --> Get all NC repositories (most recent version)" +:+ nl
  +:+ "  abips.py nc_get -xc PBE -fr -sr --version 0.4 " +:+ nl
  +:+ "  abips.py paw_get                        --> Get all PAW repositories (most recent version)" +:+ nl.

(** What [parser.parse_args()] gives [main]: the sub-command, [None] when
    the command line names none, and the options. *)
Record Namespace : Type := {
  command : option string;
  options : Options
}.

(** [f"abips_{options.command}"] *)
Definition global_name (cmd : option string) : string :=
  "abips_" +:+ match cmd with Some name => name | None => "None" end.

Section Main.
Context {World : Type} `{!OS World} `{!PsRepos World}.
(** The parser of [get_parser], run on the command line. *)
Context (parse_args : World -> Res Namespace * World).
Local Abbreviation M := (Py.M World Event).

(** What [main] leaves on its trace. *)
Inductive MainEvent : Type :=
| MeParseArgs (out : Res Namespace)
| MeStderr (text : string)
| MeCommand (ev : Event).

(** How [main] ends: with the value of the command ([None] for [avail]),
    with an exception, or with the [KeyError] of [globals()]. *)
Inductive Outcome : Type :=
| Returned (value : option Z)
| Raised (e : PyExc)
| RaisedKeyError (key : string).

Definition returning (cmd : Options -> M Z) (opts : Options)
    : M (option Z) :=
  v <- cmd opts ;; ret (Some v).

(** [globals()[name]], for the names that start with [abips_]. *)
Definition globals (name : string) : option (Options -> M (option Z)) :=
  if String.eqb name "abips_list" then Some (returning abips_list)
  else if String.eqb name "abips_avail"
       then Some (fun opts => abips_avail opts ;; ret None)
  else if String.eqb name "abips_nc_get" then Some (returning abips_nc_get)
  else if String.eqb name "abips_paw_get" then Some (returning abips_paw_get)
  else if String.eqb name "abips_get_byid" then Some (returning abips_get_byid)
  else if String.eqb name "abips_show" then Some (returning abips_show)
  else None.

(** Lines 240-244: what is written on [stderr], and the [SystemExit]
    raised. *)
Definition show_examples_and_exit (err_msg : option string) (error_code : Z)
    : list MainEvent * PyExc :=
  (MeStderr get_epilog
   :: match err_msg with
      | Some msg =>
          if String.eqb msg "" then []
          else [MeStderr ("Fatal Error" +:+ nl +:+ msg +:+ nl)]
      | None => []
      end,
   SystemExit error_code).

(** Lines 238-254. *)
Definition main (w : World) : list MainEvent * World * Outcome :=
  match parse_args w with
  | (Raise exc, w1) =>
      if is_Exception exc then
        let '(written, exit) := show_examples_and_exit None 1 in
        (MeParseArgs (Raise exc) :: written, w1, Raised exit)
      else ([MeParseArgs (Raise exc)], w1, Raised exc)
  | (Ret ns, w1) =>
      match globals (global_name (command ns)) with
      | None =>
          ([MeParseArgs (Ret ns)], w1,
           RaisedKeyError (global_name (command ns)))
      | Some cmd =>
          match cmd (options ns) w1 with
          | (t, w2, Ret v) =>
              (MeParseArgs (Ret ns) :: map MeCommand t, w2, Returned v)
          | (t, w2, Raise e) =>
              (MeParseArgs (Ret ns) :: map MeCommand t, w2, Raised e)
          end
      end
  end.

(** The events of the command [main] ran. *)
Definition command_events (t : list MainEvent) : list Event :=
  omap (fun ev => match ev with MeCommand e => Some e | _ => None end) t.

(** What [main] wrote on [stderr]. *)
Definition stderr (t : list MainEvent) : list string :=
  omap (fun ev => match ev with MeStderr text => Some text | _ => None end) t.
End Main.

(** The sub-commands [get_parser] declares. *)
Definition subcommands : list string :=
  ["list"; "avail"; "nc_get"; "paw_get"; "get_byid"; "show"].

End Entry.

(* ===================================================================== *)
(** * More machines to try the facts on                                    *)
(* ===================================================================== *)

Module Trials.
Import Py Script Entry Demo.

(** A machine with the root only, whose installer is interrupted while it
    unpacks. *)
Definition halted : World := {| core := interrupted 2; stdin := [] |}.

(** A machine without the root, whose parent directory is there. *)
Definition fresh : World := machine {[ "/home/u/.abinit" := ∅ ]} [].

(** A root that holds one file and no directory. *)
Definition readme_disk : gmap string Core.Bundle :=
  {[ root := {[ "README" := "pseudopotentials" ]} ]}.

(** [list -v] without checksums. *)
Definition verbose_options : Options := opts 1 false false [].

(** The command line [abips.py nc_get -y]. *)
Definition nc_get_line (w : World) : Res Namespace * World :=
  (Ret {| command := Some "nc_get"; options := fetch_options |}, w).

(** [nc_get -y] on the machine that has the scalar PBE repository: the
    world after the selection, and the run of the installations. *)
Definition selected : list Event * World * Res (list PseudosRepo) :=
  not_installed isnc root ALL_REPOS (machine clean_disk []).

Definition fetched : list Event * World * Res unit :=
  install_all fetch_options root [pbe_fr] selected.1.2.

Definition relisted : list Event * World * Res Z :=
  abips_list fetch_options fetched.1.2.

End Trials.

(* ===================================================================== *)
(** * Facts about the runtime                                              *)
(* ===================================================================== *)

Module PyFacts.
Import Py.
Local Open Scope py_scope.

Section Runs.
Context {World Event : Type}.
Local Abbreviation M := (Py.M World Event).

Lemma run_bind {A B} (m : M A) (k : A -> M B) w t1 w1 a :
  m w = (t1, w1, Ret a) ->
  bind m k w = (t1 ++ (k a w1).1.1, (k a w1).1.2, (k a w1).2).
Proof.
  intros E. unfold bind. rewrite E. destruct (k a w1) as [[t2 w2] r].
  reflexivity.
Qed.

Lemma run_bind_raise {A B} (m : M A) (k : A -> M B) w t1 w1 e :
  m w = (t1, w1, Raise e) -> bind m k w = (t1, w1, Raise e).
Proof. intros E. unfold bind. rewrite E. reflexivity. Qed.

(** Either the first computation raises, or the second one runs from
    where the first one stopped. *)
Lemma bind_inv {A B} (m : M A) (k : A -> M B) w t w' r :
  bind m k w = (t, w', r) ->
  (exists e, m w = (t, w', Raise e) /\ r = Raise e)
  \/ (exists t1 w1 a t2,
        m w = (t1, w1, Ret a) /\ k a w1 = (t2, w', r) /\ t = t1 ++ t2).
Proof.
  unfold bind. destruct (m w) as [[t1 w1] [a|e]].
  - destruct (k a w1) as [[t2 w2] r2] eqn:E. intros [= <- <- <-].
    right. exists t1, w1, a, t2. auto.
  - intros [= <- <- <-]. left. exists e. auto.
Qed.
End Runs.

Section Emits.
Context {World Event : Type} (P : Event -> Prop).
Local Abbreviation M := (Py.M World Event).

Lemma emits_ret {A} (a : A) : emits_only P (ret a : M A).
Proof. intros w. constructor. Qed.

Lemma emits_raise {A} e : emits_only P (raise e : M A).
Proof. intros w. constructor. Qed.

Lemma emits_query {A} (f : World -> A) : emits_only P (query f : M A).
Proof. intros w. constructor. Qed.

Lemma emits_emit ev : P ev -> emits_only P (emit ev : M unit).
Proof. intros H w. simpl. auto. Qed.

Lemma emits_call {A} (log : Res A -> Event) f :
  (forall r, P (log r)) -> emits_only P (call log f : M A).
Proof.
  intros H w. unfold call. destruct (f w) as [r w1]. simpl. auto.
Qed.

Lemma emits_bind {A B} (m : M A) (k : A -> M B) :
  emits_only P m -> (forall a, emits_only P (k a)) ->
  emits_only P (bind m k).
Proof.
  intros Hm Hk w. unfold bind. specialize (Hm w).
  destruct (m w) as [[t1 w1] [a|e]]; simpl in *; [|assumption].
  specialize (Hk a w1). destruct (k a w1) as [[t2 w2] r]. simpl in *.
  apply Forall_app. auto.
Qed.

Lemma emits_try {A} catches (body : M A) handler :
  emits_only P body -> (forall e, emits_only P (handler e)) ->
  emits_only P (try_except catches body handler).
Proof.
  intros Hb Hh w. unfold try_except. specialize (Hb w).
  destruct (body w) as [[t1 w1] [a|e]]; simpl in *; [assumption|].
  destruct (catches e); [|assumption].
  specialize (Hh e w1). destruct (handler e w1) as [[t2 w2] r]. simpl in *.
  apply Forall_app. auto.
Qed.

Lemma emits_for {A} (xs : list A) (body : A -> M unit) :
  (forall x, emits_only P (body x)) -> emits_only P (for_ xs body).
Proof.
  intros H. induction xs as [|x xs IH]; simpl.
  - apply emits_ret.
  - apply emits_bind; auto.
Qed.

Lemma emits_comprehension {A B} (f : A -> M B) xs :
  (forall x, emits_only P (f x)) -> emits_only P (comprehension f xs).
Proof.
  intros H. induction xs as [|x xs IH]; simpl.
  - apply emits_ret.
  - apply emits_bind; [auto|]. intros y.
    apply emits_bind; [auto|]. intros ys. apply emits_ret.
Qed.

Lemma emits_comprehension_if {A} (cond : A -> M bool) xs :
  (forall x, emits_only P (cond x)) -> emits_only P (comprehension_if cond xs).
Proof.
  intros H. induction xs as [|x xs IH]; simpl.
  - apply emits_ret.
  - apply emits_bind; [auto|]. intros y.
    apply emits_bind; [auto|]. intros ys. apply emits_ret.
Qed.

Lemma emits_for_acc {A S} (xs : list A) (body : S -> A -> M S) acc :
  (forall s x, emits_only P (body s x)) -> emits_only P (for_acc xs body acc).
Proof.
  intros H. revert acc. induction xs as [|x xs IH]; intros acc; simpl.
  - apply emits_ret.
  - apply emits_bind; auto.
Qed.
End Emits.

Lemma emits_weaken {World Event A} (P Q : Event -> Prop)
    (m : Py.M World Event A) :
  (forall ev, P ev -> Q ev) -> emits_only P m -> emits_only Q m.
Proof. intros H Hm w. eapply Forall_impl; [apply Hm | exact H]. Qed.

Lemma emits_run {World Event A} (P : Event -> Prop)
    (m : Py.M World Event A) w t w' r :
  m w = (t, w', r) -> emits_only P m -> Forall P t.
Proof. intros E H. specialize (H w). rewrite E in H. exact H. Qed.

(** An observation that only looks at events excluded by the trace's
    invariant sees nothing. *)
Lemma omap_silent {Event B} (f : Event -> option B) (t : list Event) :
  Forall (fun ev => f ev = None) t -> omap f t = [].
Proof.
  induction 1 as [|ev t Hev _ IH]; simpl; [reflexivity|].
  rewrite Hev. exact IH.
Qed.

(** Decomposes a goal [emits_only P m] along the structure of [m]. *)
Ltac emits :=
  repeat first
    [ apply emits_ret | apply emits_raise | apply emits_query
    | apply emits_emit | apply emits_call; intros ?
    | apply emits_bind; [|intros ?]
    | apply emits_try; [|intros ?]
    | apply emits_for; intros ?
    | apply emits_comprehension; intros ?
    | apply emits_comprehension_if; intros ?
    | apply emits_for_acc; intros ? ?
    | match goal with
      | |- emits_only _ (if ?b then _ else _) => destruct b
      | |- emits_only _ (match ?x with _ => _ end) => destruct x
      end ].

End PyFacts.

(* ===================================================================== *)
(** * Facts about abips.py                                                 *)
(* ===================================================================== *)

Module ScriptFacts.
Import Py Script PyFacts.
Local Open Scope py_scope.

Section Listing.
Context {World : Type} `{!OS World} `{!PsRepos World}.
Local Abbreviation M := (Py.M World Event).

(** One round of the validation loop (lines 64-67). *)
Lemma validate_one_run options root repo (acc : list PyExc) w :
  raises_exceptions_only ->
  let out := validate_checksums repo root (verbose options) w in
  try_except is_Exception
    (call (EvValidateChecksums repo root (verbose options))
       (validate_checksums repo root (verbose options)) ;;
     ret acc)
    (fun exc => ret (acc ++ [exc])) w
  = ([EvValidateChecksums repo root (verbose options) out.1], out.2,
     Ret (acc ++ match out.1 with Ret _ => [] | Raise e => [e] end)).
Proof.
  intros Hexc. simpl. unfold try_except, bind, call, ret.
  pose proof (Hexc repo root (verbose options) w) as Hthis.
  destruct (validate_checksums repo root (verbose options) w)
    as [[[]|e] w1]; simpl in *.
  - rewrite app_nil_r. reflexivity.
  - rewrite (Hthis e eq_refl). reflexivity.
Qed.

Lemma validate_all_run options root repos :
  raises_exceptions_only ->
  forall acc w, exists t w',
    for_acc repos
      (fun exc_list repo =>
         try_except is_Exception
           (call (EvValidateChecksums repo root (verbose options))
              (validate_checksums repo root (verbose options)) ;;
            ret exc_list)
           (fun exc => ret (exc_list ++ [exc])))
      acc w
    = (t, w', Ret (acc ++ failures t))
    /\ validated t = repos
    /\ length t = length repos
    /\ (failures t = [] <-> Forall validation_passed t).
Proof.
  intros Hexc. induction repos as [|repo repos IH]; intros acc w; simpl.
  - exists [], w. rewrite app_nil_r. repeat split; auto.
  - pose proof (validate_one_run options root repo acc w Hexc) as Hone.
    simpl in Hone. rewrite (run_bind _ _ _ _ _ _ Hone). clear Hone.
    destruct (validate_checksums repo root (verbose options) w)
      as [out w1]; simpl.
    destruct (IH (acc ++ match out with Ret _ => [] | Raise e => [e] end) w1)
      as (t & w' & E & Hv & Hl & Hz).
    rewrite E. simpl.
    exists (EvValidateChecksums repo root (verbose options) out :: t), w'.
    destruct out as [[]|e]; simpl.
    + rewrite app_nil_r. repeat split; try congruence.
      * intros Hf. constructor; [|apply Hz; exact Hf].
        exists repo, root, (verbose options). reflexivity.
      * intros Hall. apply Hz. inversion Hall; assumption.
    + rewrite <- app_assoc. repeat split; try congruence.
      intros Hall. inversion Hall as [|? ? (r0 & rt0 & v0 & Hev) _].
        discriminate Hev.
Qed.

Lemma report_run (exc_list : list PyExc) (w : World) :
  (match exc_list with
   | [] => ret tt
   | _ =>
       emit (EvPrint (nl +:+ "List of exceptions raised by validate_checksums:")) ;;
       for_ exc_list (fun exc => emit (EvPrintExc exc))
   end) w = (report exc_list, w, Ret tt).
Proof.
  assert (Hfor : forall l (w0 : World),
             for_ l (fun exc => emit (EvPrintExc exc)) w0
             = (map EvPrintExc l, w0, Ret tt)).
  { induction l as [|e l IH]; intros w0; simpl; [reflexivity|].
    unfold bind, emit. rewrite IH. reflexivity. }
  destruct exc_list as [|e l]; [reflexivity|].
  unfold bind at 1, emit at 1. rewrite Hfor. reflexivity.
Qed.

Lemma abips_list_checksums_run options root repos w :
  raises_exceptions_only ->
  checksums options = true ->
  exists t w',
    abips_list_checksums options root repos w
    = (t ++ report (failures t), w', Ret (Z.of_nat (length (failures t))))
    /\ validated t = repos
    /\ length t = length repos
    /\ (failures t = [] <-> Forall validation_passed t).
Proof.
  intros Hexc Hc. unfold abips_list_checksums, print. rewrite Hc. simpl.
  destruct (validate_all_run options root repos Hexc [] w)
    as (t & w' & E & Hv & Hl & Hz).
  exists t, w'. split; [|auto].
  unfold validate_all. unfold bind at 1. rewrite E. simpl.
  unfold bind at 1. rewrite report_run. simpl. rewrite app_nil_r.
  reflexivity.
Qed.

(** C1. When the list command validates checksums, [validate_checksums]
    is called on every repository of the listing, whatever the earlier
    calls raised; the exceptions raised are collected in order, printed
    together after the last call, and the command returns their number,
    which is zero exactly when every call returned. *)
Theorem list_validates_every_repository options w0 t1 w1 root repos :
  raises_exceptions_only ->
  checksums options = true ->
  abips_list_show options w0 = (t1, w1, Ret (Some (root, repos))) ->
  exists t2 w2,
    abips_list options w0
    = (t1 ++ t2 ++ report (failures t2), w2,
       Ret (Z.of_nat (length (failures t2))))
    /\ validated t2 = repos
    /\ length t2 = length repos
    /\ (Z.of_nat (length (failures t2)) = 0 <-> Forall validation_passed t2).
Proof.
  intros Hexc Hc Hshow.
  destruct (abips_list_checksums_run options root repos w1 Hexc Hc)
    as (t2 & w2 & E & Hv & Hl & Hz).
  exists t2, w2. repeat split; auto.
  - unfold abips_list, bind. rewrite Hshow, E. reflexivity.
  - intros H0. apply Hz. destruct (failures t2); [reflexivity|discriminate].
  - intros Hall. apply Hz in Hall. rewrite Hall. reflexivity.
Qed.
End Listing.

Section Installing.
Context {World : Type} `{!OS World} `{!PsRepos World}.
Local Abbreviation M := (Py.M World Event).

Lemma installs_app (t1 t2 : list Event) :
  installs (t1 ++ t2) = installs t1 ++ installs t2.
Proof. apply omap_app. Qed.

Lemma found_missing_app (t1 t2 : list Event) :
  found_missing (t1 ++ t2) = found_missing t1 ++ found_missing t2.
Proof. apply omap_app. Qed.

Lemma prompts_app (t1 t2 : list Event) :
  prompts (t1 ++ t2) = prompts t1 ++ prompts t2.
Proof. apply omap_app. Qed.

Lemma passive_silent (t : list Event) :
  Forall passive t -> installs t = [] /\ found_missing t = [] /\ prompts t = [].
Proof.
  intros H. repeat split; apply omap_silent;
    (eapply Forall_impl; [exact H|]); intros [] Hp; simpl in *;
    try reflexivity; try contradiction.
Qed.

Lemma get_repos_root_passive options :
  emits_only passive (get_repos_root options).
Proof. unfold get_repos_root. emits; exact I. Qed.

Lemma abips_list_passive options : emits_only passive (abips_list options).
Proof.
  unfold abips_list, abips_list_show, abips_list_checksums, validate_all,
    get_repos_root, print.
  emits; exact I.
Qed.

(** The selection asks [is_installed] and nothing else; what it keeps are
    the repositories the answer was [False] for. *)
Lemma not_installed_run sel root repos w t w' r :
  not_installed sel root repos w = (t, w', r) ->
  installs t = [] /\ prompts t = []
  /\ forall kept, r = Ret kept -> found_missing t = kept.
Proof.
  unfold not_installed. revert w t w' r.
  induction repos as [|repo repos IH]; intros w t w' r; simpl.
  - intros [= <- <- <-]. repeat split. intros kept [= <-]. reflexivity.
  - intros Hrun. apply bind_inv in Hrun
      as [(e & Hc & ->)|(t1 & w1 & keep & t2 & Hc & Hrest & ->)].
    + destruct (sel repo); [|discriminate Hc].
      unfold bind, check_installed, call, ret in Hc.
      destruct (is_installed repo root w) as [[b|e'] w1]; [discriminate Hc|].
      injection Hc as <- <- <-. repeat split. discriminate.
    + assert (Hhead : installs t1 = [] /\ prompts t1 = []
                      /\ found_missing t1 = if keep then [repo] else []).
      { destruct (sel repo).
        - unfold bind, check_installed, call, ret in Hc.
          destruct (is_installed repo root w) as [[b|e'] w0];
            [|discriminate Hc].
          injection Hc as <- <- <-. destruct b; repeat split.
        - injection Hc as <- <- <-. repeat split. }
      destruct Hhead as (Hi1 & Hp1 & Hm1).
      apply bind_inv in Hrest
        as [(e & Hr & ->)|(t3 & w3 & ys & t4 & Hr & Hret & ->)].
      * destruct (IH _ _ _ _ Hr) as (Hi & Hp & _).
        rewrite installs_app, prompts_app, Hi1, Hp1, Hi, Hp.
        repeat split. discriminate.
      * destruct (IH _ _ _ _ Hr) as (Hi & Hp & Hk).
        injection Hret as <- <- <-.
        rewrite !installs_app, !prompts_app, !found_missing_app.
        rewrite Hi1, Hp1, Hi, Hp, Hm1, (Hk ys eq_refl). simpl.
        repeat split. intros kept [= <-]. rewrite app_nil_r.
        destruct keep; reflexivity.
Qed.

(** The installing loop calls [install] on the repositories in order and
    stops at the first call that raises. *)
Lemma install_all_run options root repos w t w' r :
  install_all options root repos w = (t, w', r) ->
  found_missing t = [] /\ prompts t = []
  /\ installs t `prefix_of` repos
  /\ (r = Ret tt -> installs t = repos)
  /\ (repos <> [] -> installs t <> []).
Proof.
  unfold install_all. revert w t w' r.
  induction repos as [|repo repos IH]; intros w t w' r; simpl.
  - intros [= <- <- <-]. repeat split; auto.
  - intros Hrun. apply bind_inv in Hrun
      as [(e & Hc & ->)|(t1 & w1 & [] & t2 & Hc & Hrest & ->)];
      unfold call in Hc;
      destruct (install repo root (verbose options) w) as [out w0];
      injection Hc as <- <- ->.
    + repeat split; try discriminate. exists repos. reflexivity.
    + destruct (IH _ _ _ _ Hrest) as (Hm & Hp & Hpre & Hall & _).
      rewrite found_missing_app, prompts_app, installs_app, Hm, Hp. simpl.
      repeat split; try discriminate.
      * apply prefix_cons. exact Hpre.
      * intros Hr. rewrite (Hall Hr). reflexivity.
Qed.

(** The question whether to stop: no read of the terminal with [--yes],
    one read otherwise, whose outcome decides. *)
Lemma declined_run options w t w' r :
  declined options w = (t, w', r) ->
  installs t = [] /\ found_missing t = []
  /\ ((yes options = true /\ t = [] /\ r = Ret false)
      \/ (yes options = false
          /\ exists out,
               t = [EvInput prompt out]
               /\ r = match out with
                      | Ret answer => Ret (says_no answer)
                      | Raise e => if is_EOFError e then Ret false else Raise e
                      end)).
Proof.
  unfold declined. destruct (yes options); simpl.
  - intros [= <- <- <-]. repeat split. left. auto.
  - unfold user_wants_to_abort, try_except, bind, call, ret.
    destruct (input prompt w) as [[answer|e] w1]; simpl.
    + intros [= <- <- <-]. repeat split. right. split; [reflexivity|].
      exists (Ret answer). auto.
    + destruct (is_EOFError e) eqn:He; intros [= <- <- <-]; repeat split;
        right; (split; [reflexivity|]); exists (Raise e); rewrite He; auto.
Qed.
Lemma fetch_and_install_run announce options root repos w t w' r :
  repos <> [] ->
  match announce with
  | Some line =>
      print line ;;
      install_all options root repos ;; abips_list options ;; ret 0
  | None => install_all options root repos ;; abips_list options ;; ret 0
  end w = (t, w', r) ->
  found_missing t = [] /\ prompts t = []
  /\ installs t `prefix_of` repos /\ installs t <> []
  /\ forall v, r = Ret v -> v = 0 /\ installs t = repos.
Proof.
  intros Hne.
  assert (Hgo : forall w t w' r,
            (install_all options root repos ;; abips_list options ;; ret 0) w
            = (t, w', r) ->
            found_missing t = [] /\ prompts t = []
            /\ installs t `prefix_of` repos /\ installs t <> []
            /\ forall v, r = Ret v -> v = 0 /\ installs t = repos).
  { clear w t w' r. intros w t w' r Hrun.
    apply bind_inv in Hrun
      as [(e & Hi & ->)|(t1 & w1 & [] & t2 & Hi & Hrest & ->)];
      destruct (install_all_run _ _ _ _ _ _ _ Hi)
        as (Hm & Hp & Hpre & Hall & Hsome).
    - split; [exact Hm|]. split; [exact Hp|]. split; [exact Hpre|].
      split; [auto|]. intros v H. discriminate H.
    - assert (Hl : Forall passive t2 /\ forall v, r = Ret v -> v = 0).
      { apply bind_inv in Hrest
          as [(e & Hl & ->)|(t3 & w3 & n & t4 & Hl & Hret & ->)].
        - split; [|discriminate].
          pose proof (abips_list_passive options w1) as H. rewrite Hl in H.
          exact H.
        - injection Hret as <- <- <-. rewrite app_nil_r. split.
          + pose proof (abips_list_passive options w1) as H.
            rewrite Hl in H. exact H.
          + intros v [= <-]. reflexivity. }
      destruct Hl as (Hl & Hv).
      destruct (passive_silent _ Hl) as (Hi2 & Hm2 & Hp2).
      rewrite found_missing_app, prompts_app, installs_app.
      rewrite Hm, Hp, Hi2, Hm2, Hp2, (Hall eq_refl), !app_nil_r.
      split; [reflexivity|]. split; [reflexivity|]. split; [reflexivity|].
      split; [exact Hne|]. intros v Hr. split; [apply Hv; exact Hr|].
      reflexivity. }
  destruct announce as [line|]; [|apply Hgo].
  intros Hrun. apply bind_inv in Hrun
    as [(e & Hpr & ->)|(t1 & w1 & [] & t2 & Hpr & Hrest & ->)];
    [discriminate Hpr|].
  injection Hpr as <- <-. simpl. apply Hgo in Hrest. exact Hrest.
Qed.

(** The four ways a run stands with respect to consent. *)
Lemma consent_unasked options t r :
  installs t = [] -> prompts t = [] -> r <> Ret 2 ->
  consent_discipline options t r.
Proof.
  intros Hi Hp Hr. unfold consent_discipline. rewrite Hi, Hp.
  split; [reflexivity|]. split; [intros answer []|].
  split; [intros H; contradiction|]. split; [intros out []|].
  intros H. contradiction.
Qed.

Lemma consent_refused options t answer :
  yes options = false -> installs t = [] -> prompts t = [Ret answer] ->
  says_no answer = true ->
  consent_discipline options t (Ret 2).
Proof.
  intros Hy Hi Hp Hno. unfold consent_discipline. rewrite Hi, Hp, Hy.
  split; [discriminate|]. split; [auto|].
  split; [intros H; contradiction|]. split.
  - intros out [<-|[]] Hc. simpl in Hc. rewrite Hno in Hc. discriminate Hc.
  - intros _. split; [reflexivity|]. exists answer. auto.
Qed.

Lemma consent_interrupted options t e r :
  yes options = false -> installs t = [] -> prompts t = [Raise e] ->
  is_EOFError e = false -> r <> Ret 2 ->
  consent_discipline options t r.
Proof.
  intros Hy Hi Hp He Hr. unfold consent_discipline. rewrite Hi, Hp, Hy.
  split; [discriminate|]. split.
  - intros answer [H|[]]. discriminate H.
  - split; [intros H; contradiction|]. split.
    + intros out [<-|[]] Hc. simpl in Hc. congruence.
    + intros H. contradiction.
Qed.

Lemma consent_by_flag options t r :
  yes options = true -> prompts t = [] -> r <> Ret 2 ->
  consent_discipline options t r.
Proof.
  intros Hy Hp Hr. unfold consent_discipline. rewrite Hp.
  split; [reflexivity|]. split; [intros answer []|].
  split; [auto|]. split; [intros out []|]. intros H. contradiction.
Qed.

Lemma consent_by_answer options t out r :
  yes options = false -> prompts t = [out] -> consents out = true ->
  installs t <> [] -> r <> Ret 2 ->
  consent_discipline options t r.
Proof.
  intros Hy Hp Hc Hi Hr. unfold consent_discipline. rewrite Hp, Hy.
  split; [discriminate|]. split.
  - intros answer [->|[]] Hno. simpl in Hc. rewrite Hno in Hc.
    discriminate Hc.
  - split; [intros _; right; exists out; auto|]. split.
    + intros out' _ _. auto.
    + intros H. contradiction.
Qed.

Lemma proceed_run announce options root repos w t w' r :
  repos <> [] ->
  proceed announce options root repos w = (t, w', r) ->
  found_missing t = []
  /\ installs t `prefix_of` repos
  /\ (forall v, r = Ret v -> v <> 2 -> installs t = repos)
  /\ consent_discipline options t r.
Proof.
  intros Hne Hrun. unfold proceed in Hrun.
  apply bind_inv in Hrun
    as [(e & Hpp & ->)|(t1 & w1 & [] & t2 & Hpp & Hrest & ->)];
    unfold call in Hpp;
    destruct (pprint_repos repos root w) as [out w0];
    injection Hpp as <- <- ->.
  { split; [reflexivity|]. split; [apply prefix_nil|].
    split; [discriminate|]. apply consent_unasked; auto. }
  apply bind_inv in Hrest
    as [(e & Hd & ->)|(t3 & w3 & stop & t4 & Hd & Hrest & ->)];
    destruct (declined_run _ _ _ _ _ Hd) as (Hi & Hm & Hcase).
  { destruct Hcase as [(_ & _ & Hr)|(Hy & out & -> & Hr)]; [discriminate Hr|].
    destruct out as [answer|e']; [discriminate Hr|].
    destruct (is_EOFError e') eqn:He; [discriminate Hr|].
    split; [reflexivity|]. split; [apply prefix_nil|].
    split; [discriminate|].
    apply (consent_interrupted _ _ e'); auto. }
  destruct stop.
  { injection Hrest as <- <- <-.
    destruct Hcase as [(_ & _ & Hr)|(Hy & out & -> & Hr)]; [discriminate Hr|].
    destruct out as [answer|e'];
      [|destruct (is_EOFError e'); discriminate Hr].
    injection Hr as Hno.
    split; [reflexivity|]. split; [apply prefix_nil|].
    split; [intros v [= <-] H; contradiction|].
    apply (consent_refused _ _ answer); auto. }
  destruct (fetch_and_install_run _ _ _ _ _ _ _ _ Hne Hrest)
    as (Hm4 & Hp4 & Hpre & Hsome & Hret).
  assert (Hinst : installs
                    (EvPprintRepos repos root (Ret tt) :: t3 ++ t4)
                  = installs t4).
  { simpl. rewrite installs_app, Hi. reflexivity. }
  assert (Hmiss : found_missing
                    (EvPprintRepos repos root (Ret tt) :: t3 ++ t4) = []).
  { simpl. rewrite found_missing_app, Hm, Hm4. reflexivity. }
  assert (Hpr : prompts (EvPprintRepos repos root (Ret tt) :: t3 ++ t4)
                = prompts t3).
  { simpl. rewrite prompts_app, Hp4, app_nil_r. reflexivity. }
  assert (Hr2 : r <> Ret 2).
  { intros ->. destruct (Hret 2 eq_refl) as [H _]. discriminate H. }
  simpl app. split; [exact Hmiss|]. rewrite Hinst.
  split; [exact Hpre|].
  split; [intros v Hv _; apply (Hret v Hv)|].
  destruct Hcase as [(Hy & -> & _)|(Hy & out & -> & Hr)].
  - apply consent_by_flag; auto.
  - assert (Hc : consents out = true).
    { destruct out as [answer|e']; simpl.
      - injection Hr as Hr. rewrite <- Hr. reflexivity.
      - destruct (is_EOFError e'); [reflexivity|discriminate Hr]. }
    apply (consent_by_answer _ _ out); assumption.
Qed.
Lemma consent_discipline_ext options (t t' : list Event) r :
  installs t = installs t' -> prompts t = prompts t' ->
  consent_discipline options t r -> consent_discipline options t' r.
Proof. unfold consent_discipline. intros <- <-. auto. Qed.

(** A run that neither installs nor asks. *)
Lemma discipline_idle options t r :
  installs t = [] -> prompts t = [] -> r <> Ret 2 ->
  (forall v, r = Ret v -> found_missing t = []) ->
  install_discipline t r /\ consent_discipline options t r.
Proof.
  intros Hi Hp Hr Hm. split; [|apply consent_unasked; assumption].
  unfold install_discipline. rewrite Hi, Hp.
  split; [apply prefix_nil|]. split; [|auto].
  intros v Hv _. symmetry. apply (Hm v Hv).
Qed.

(** What follows the selection in an installing command: [quiet] when
    nothing is missing, the confirmation and the installation
    otherwise. *)
Lemma after_selection options root kept (quiet : M Z) title announce
    t0 w t1 w' r :
  installs t0 = [] -> prompts t0 = [] -> found_missing t0 = kept ->
  emits_only passive quiet ->
  (forall w, (quiet w).2 <> Ret 2) ->
  match kept with
  | [] => quiet
  | _ => print title ;; proceed announce options root kept
  end w = (t1, w', r) ->
  install_discipline (t0 ++ t1) r /\ consent_discipline options (t0 ++ t1) r.
Proof.
  intros Hi0 Hp0 Hm0 Hquiet Hnot2 Hrun.
  destruct kept as [|repo kept].
  - pose proof (Hquiet w) as Hpas. pose proof (Hnot2 w) as Hr.
    rewrite Hrun in Hpas, Hr. simpl in Hpas, Hr.
    destruct (passive_silent _ Hpas) as (Hi1 & Hm1 & Hp1).
    apply discipline_idle.
    + rewrite installs_app, Hi0, Hi1. reflexivity.
    + rewrite prompts_app, Hp0, Hp1. reflexivity.
    + exact Hr.
    + intros _ _. rewrite found_missing_app, Hm0, Hm1. reflexivity.
  - apply bind_inv in Hrun
      as [(e & Hpr & ->)|(t2 & w2 & [] & t3 & Hpr & Hrest & ->)];
      [discriminate Hpr|].
    injection Hpr as <- <-.
    assert (Hne : repo :: kept <> []) by discriminate.
    destruct (proceed_run _ _ _ _ _ _ _ _ Hne Hrest)
      as (Hm3 & Hpre & Hall & Hcons).
    assert (Hi : installs (t0 ++ [EvPrint title] ++ t3) = installs t3).
    { rewrite !installs_app, Hi0. reflexivity. }
    assert (Hp : prompts (t0 ++ [EvPrint title] ++ t3) = prompts t3).
    { rewrite !prompts_app, Hp0. reflexivity. }
    assert (Hm : found_missing (t0 ++ [EvPrint title] ++ t3) = repo :: kept).
    { rewrite !found_missing_app, Hm0, Hm3. simpl. rewrite app_nil_r.
      reflexivity. }
    split.
    + unfold install_discipline. rewrite Hi, Hp, Hm.
      split; [exact Hpre|]. split; [exact Hall|]. discriminate.
    + apply (consent_discipline_ext options t3); auto.
Qed.

Lemma selection_failed options t e :
  installs t = [] -> prompts t = [] ->
  install_discipline t (Raise e) /\ consent_discipline options t (Raise e).
Proof.
  intros Hi Hp. apply discipline_idle; auto; discriminate.
Qed.

Lemma abips_nc_get_discipline options w :
  install_discipline (abips_nc_get options w).1.1 (abips_nc_get options w).2
  /\ consent_discipline options (abips_nc_get options w).1.1
       (abips_nc_get options w).2.
Proof.
  destruct (abips_nc_get options w) as [[t w'] r] eqn:Hrun. simpl.
  unfold abips_nc_get in Hrun.
  apply bind_inv in Hrun
    as [(e & Hroot & ->)|(t0 & w0 & root & t1 & Hroot & Hrun & ->)];
    pose proof (get_repos_root_passive options w) as Hpas;
    rewrite Hroot in Hpas; simpl in Hpas;
    destruct (passive_silent _ Hpas) as (Hi0 & Hm0 & Hp0).
  { apply selection_failed; assumption. }
  apply bind_inv in Hrun
    as [(e & Hsel & ->)|(t2 & w2 & kept & t3 & Hsel & Hrun & ->)];
    destruct (not_installed_run _ _ _ _ _ _ _ Hsel) as (Hi2 & Hp2 & Hm2).
  { apply selection_failed.
    - rewrite installs_app, Hi0, Hi2. reflexivity.
    - rewrite prompts_app, Hp0, Hp2. reflexivity. }
  rewrite app_assoc.
  eapply (after_selection options root kept
            (print ("All registered NC repositories are already installed in "
                    +:+ root +:+ ". Returning") ;; ret 0)
            ("The following NC repositories will be installed:" +:+ nl)
            (Some "Fetching NC repositories. It may take some time ...")).
  - rewrite installs_app, Hi0, Hi2. reflexivity.
  - rewrite prompts_app, Hp0, Hp2. reflexivity.
  - rewrite found_missing_app, Hm0, (Hm2 kept eq_refl). reflexivity.
  - unfold print. emits. exact I.
  - intros w3. discriminate.
  - destruct kept; exact Hrun.
Qed.

Lemma abips_paw_get_discipline options w :
  install_discipline (abips_paw_get options w).1.1 (abips_paw_get options w).2
  /\ consent_discipline options (abips_paw_get options w).1.1
       (abips_paw_get options w).2.
Proof.
  destruct (abips_paw_get options w) as [[t w'] r] eqn:Hrun. simpl.
  unfold abips_paw_get in Hrun.
  apply bind_inv in Hrun
    as [(e & Hroot & ->)|(t0 & w0 & root & t1 & Hroot & Hrun & ->)];
    pose proof (get_repos_root_passive options w) as Hpas;
    rewrite Hroot in Hpas; simpl in Hpas;
    destruct (passive_silent _ Hpas) as (Hi0 & Hm0 & Hp0).
  { apply selection_failed; assumption. }
  apply bind_inv in Hrun
    as [(e & Hsel & ->)|(t2 & w2 & kept & t3 & Hsel & Hrun & ->)];
    destruct (not_installed_run _ _ _ _ _ _ _ Hsel) as (Hi2 & Hp2 & Hm2).
  { apply selection_failed.
    - rewrite installs_app, Hi0, Hi2. reflexivity.
    - rewrite prompts_app, Hp0, Hp2. reflexivity. }
  rewrite app_assoc.
  eapply (after_selection options root kept
            (print ("All registered PAW repositories are already installed in "
                    +:+ root +:+ ". Returning") ;; ret 0)
            "The following PAW repositories will be installed:"
            (Some "Fetching PAW repositories. It may take some time ...")).
  - rewrite installs_app, Hi0, Hi2. reflexivity.
  - rewrite prompts_app, Hp0, Hp2. reflexivity.
  - rewrite found_missing_app, Hm0, (Hm2 kept eq_refl). reflexivity.
  - unfold print. emits. exact I.
  - intros w3. discriminate.
  - destruct kept; exact Hrun.
Qed.

Lemma said_installed_not_2 options w :
  ((print "Tables are already installed!" ;; abips_list options ;; ret 1)
     w).2 <> Ret 2.
Proof.
  unfold bind, print, emit, ret.
  destruct (abips_list options w) as [[t1 w1] [n|e]]; simpl; discriminate.
Qed.

Lemma abips_get_byid_discipline options w :
  install_discipline (abips_get_byid options w).1.1
    (abips_get_byid options w).2
  /\ consent_discipline options (abips_get_byid options w).1.1
       (abips_get_byid options w).2.
Proof.
  destruct (abips_get_byid options w) as [[t w'] r] eqn:Hrun. simpl.
  unfold abips_get_byid in Hrun.
  apply bind_inv in Hrun
    as [(e & Hroot & ->)|(t0 & w0 & root & t1 & Hroot & Hrun & ->)];
    pose proof (get_repos_root_passive options w) as Hpas;
    rewrite Hroot in Hpas; simpl in Hpas;
    destruct (passive_silent _ Hpas) as (Hi0 & Hm0 & Hp0).
  { apply selection_failed; assumption. }
  apply bind_inv in Hrun
    as [(e & Hids & ->)|(ta & wa & asked & tb & Hids & Hrun & ->)];
    unfold call in Hids;
    destruct (repos_from_id_list (id_list options) w0) as [out wb];
    injection Hids as <- <- ->.
  { apply selection_failed.
    - rewrite installs_app, Hi0. reflexivity.
    - rewrite prompts_app, Hp0. reflexivity. }
  apply bind_inv in Hrun
    as [(e & Hsel & ->)|(t2 & w2 & kept & t3 & Hsel & Hrun & ->)];
    destruct (not_installed_run _ _ _ _ _ _ _ Hsel) as (Hi2 & Hp2 & Hm2).
  { apply selection_failed.
    - rewrite !installs_app, Hi0, Hi2. reflexivity.
    - rewrite !prompts_app, Hp0, Hp2. reflexivity. }
  rewrite !app_assoc.
  eapply (after_selection options root kept
            (print "Tables are already installed!" ;;
             abips_list options ;; ret 1)
            "The following pseudopotential repositories will be installed:"
            None).
  - rewrite !installs_app, Hi0, Hi2. reflexivity.
  - rewrite !prompts_app, Hp0, Hp2. reflexivity.
  - rewrite !found_missing_app, Hm0, (Hm2 kept eq_refl). reflexivity.
  - apply emits_bind; [apply emits_emit; exact I|]. intros _.
    apply emits_bind; [apply abips_list_passive|]. intros n.
    apply emits_ret.
  - intros w3. apply said_installed_not_2.
  - destruct kept; exact Hrun.
Qed.

(** Every run of an installing command keeps both disciplines. *)
Lemma install_commands_discipline cmd options w :
  In cmd install_commands ->
  install_discipline (cmd options w).1.1 (cmd options w).2
  /\ consent_discipline options (cmd options w).1.1 (cmd options w).2.
Proof.
  intros [<-|[<-|[<-|[]]]].
  - apply abips_nc_get_discipline.
  - apply abips_paw_get_discipline.
  - apply abips_get_byid_discipline.
Qed.
Lemma nothing_missing_nc options w t0 w0 root t1 w1 :
  get_repos_root options w = (t0, w0, Ret root) ->
  not_installed isnc root ALL_REPOS w0 = (t1, w1, Ret []) ->
  abips_nc_get options w
  = (t0 ++ t1
     ++ [EvPrint ("All registered NC repositories are already installed in "
                  +:+ root +:+ ". Returning")],
     w1, Ret 0).
Proof.
  intros Hroot Hsel. unfold abips_nc_get.
  rewrite (run_bind _ _ _ _ _ _ Hroot), (run_bind _ _ _ _ _ _ Hsel).
  reflexivity.
Qed.

Lemma nothing_missing_paw options w t0 w0 root t1 w1 :
  get_repos_root options w = (t0, w0, Ret root) ->
  not_installed ispaw root ALL_REPOS w0 = (t1, w1, Ret []) ->
  abips_paw_get options w
  = (t0 ++ t1
     ++ [EvPrint ("All registered PAW repositories are already installed in "
                  +:+ root +:+ ". Returning")],
     w1, Ret 0).
Proof.
  intros Hroot Hsel. unfold abips_paw_get.
  rewrite (run_bind _ _ _ _ _ _ Hroot), (run_bind _ _ _ _ _ _ Hsel).
  reflexivity.
Qed.

Lemma nothing_missing_byid options w t0 w0 root asked w1 t1 w2 t2 w3 n :
  get_repos_root options w = (t0, w0, Ret root) ->
  repos_from_id_list (id_list options) w0 = (Ret asked, w1) ->
  not_installed (fun _ => true) root asked w1 = (t1, w2, Ret []) ->
  abips_list options w2 = (t2, w3, Ret n) ->
  abips_get_byid options w
  = (t0 ++ [EvReposFromIdList (id_list options) (Ret asked)] ++ t1
     ++ [EvPrint "Tables are already installed!"] ++ t2,
     w3, Ret 1).
Proof.
  intros Hroot Hids Hsel Hlist. unfold abips_get_byid.
  rewrite (run_bind _ _ _ _ _ _ Hroot). simpl.
  assert (Hcall : call (EvReposFromIdList (id_list options))
                    (repos_from_id_list (id_list options)) w0
                  = ([EvReposFromIdList (id_list options) (Ret asked)], w1,
                     Ret asked)).
  { unfold call. rewrite Hids. reflexivity. }
  rewrite (run_bind _ _ _ _ _ _ Hcall). simpl.
  rewrite (run_bind _ _ _ _ _ _ Hsel). simpl.
  unfold bind, print, emit, ret. rewrite Hlist. simpl.
  rewrite app_nil_r. reflexivity.
Qed.

(** C6. An installing command calls [install] only with consent: with
    [--yes] it never reads the terminal and never stops for want of
    consent; without it, an answer that is n or no once lowercased and
    stripped makes the command return 2 without any call to [install];
    and whenever [install] is called, either [--yes] was given or the one
    read of the terminal ended in an outcome that lets the command go
    on. *)
Theorem install_only_after_consent cmd options w :
  In cmd install_commands ->
  (yes options = true ->
     prompts (cmd options w).1.1 = [] /\ (cmd options w).2 <> Ret 2)
  /\ (forall answer,
        yes options = false ->
        In (Ret answer) (prompts (cmd options w).1.1) ->
        str_in (strip (lower answer)) ["n"; "no"] = true ->
        (cmd options w).2 = Ret 2 /\ installs (cmd options w).1.1 = [])
  /\ (installs (cmd options w).1.1 <> [] ->
        yes options = true
        \/ exists out,
             prompts (cmd options w).1.1 = [out] /\ consents out = true).
Proof.
  intros Hcmd.
  destruct (install_commands_discipline cmd options w Hcmd)
    as [_ (Hyes & Hno & Hinst & _ & Htwo)].
  split; [|split].
  - intros Hy. split; [apply Hyes; exact Hy|].
    intros Hr. destruct (Htwo Hr) as (_ & answer & Hp & _).
    rewrite (Hyes Hy) in Hp. discriminate Hp.
  - intros answer _ Hin Hsays. apply (Hno answer Hin Hsays).
  - exact Hinst.
Qed.

Lemma user_wants_to_abort_run w :
  user_wants_to_abort w
  = ([EvInput prompt (input prompt w).1], (input prompt w).2,
     match (input prompt w).1 with
     | Ret answer => Ret (says_no answer)
     | Raise e => if is_EOFError e then Ret false else Raise e
     end).
Proof.
  unfold user_wants_to_abort, try_except, bind, call, ret.
  destruct (input prompt w) as [[answer|e] w1]; simpl; [reflexivity|].
  destruct (is_EOFError e); reflexivity.
Qed.

(** C9. When reading the answer raises [EOFError], and when the answer,
    lowercased and stripped, is neither n nor no (the empty answer is
    such an answer), [user_wants_to_abort] returns [False]; an installing
    command run without [--yes] then goes on to call [install] and does
    not return 2. *)
Theorem no_answer_means_consent :
  (forall w out,
     (input prompt w).1 = out ->
     out = Raise EOFError
     \/ (exists answer,
           out = Ret answer
           /\ str_in (strip (lower answer)) ["n"; "no"] = false) ->
     (user_wants_to_abort w).2 = Ret false)
  /\ str_in (strip (lower "")) ["n"; "no"] = false
  /\ (forall cmd options w out,
        In cmd install_commands ->
        In out (prompts (cmd options w).1.1) ->
        out = Raise EOFError
        \/ (exists answer,
              out = Ret answer
              /\ str_in (strip (lower answer)) ["n"; "no"] = false) ->
        yes options = false
        /\ installs (cmd options w).1.1 <> []
        /\ (cmd options w).2 <> Ret 2).
Proof.
  split; [|split].
  - intros w out Hout Hcase. rewrite user_wants_to_abort_run, Hout. simpl.
    destruct Hcase as [->|(answer & -> & Hsays)]; [reflexivity|].
    unfold says_no. rewrite Hsays. reflexivity.
  - reflexivity.
  - intros cmd options w out Hcmd Hin Hcase.
    destruct (install_commands_discipline cmd options w Hcmd)
      as [_ (_ & _ & _ & Hgo & _)].
    apply (Hgo out Hin).
    destruct Hcase as [->|(answer & -> & Hsays)]; [reflexivity|].
    simpl. unfold says_no. rewrite Hsays. reflexivity.
Qed.
End Installing.

Section Showing.
Context {World : Type} `{!OS World} `{!PsRepos World}.
Local Abbreviation M := (Py.M World Event).

Lemma tables_app (t1 t2 : list Event) :
  tables (t1 ++ t2) = tables t1 ++ tables t2.
Proof. apply omap_app. Qed.

Lemma tableless_silent (t : list Event) :
  Forall tableless t -> tables t = [].
Proof.
  intros H. apply omap_silent. eapply Forall_impl; [exact H|].
  intros [] Hp; simpl in *; try reflexivity; contradiction.
Qed.

Lemma get_repos_root_tableless options :
  emits_only tableless (get_repos_root options).
Proof. unfold get_repos_root. emits; exact I. Qed.

Lemma not_installed_tableless sel root repos :
  emits_only tableless (not_installed sel root repos).
Proof. unfold not_installed, check_installed. emits; exact I. Qed.






End Showing.

Section Resolving.
Context {World : Type} `{!OS World} `{!PsRepos World}.
Local Abbreviation M := (Py.M World Event).

Lemma resolved_app (t1 t2 : list Event) :
  resolved (t1 ++ t2) = resolved t1 ++ resolved t2.
Proof. apply omap_app. Qed.

Lemma unresolving_silent (t : list Event) :
  Forall unresolving t ->
  resolved t = [] /\ forall p out, ~ In (EvFromDirpath p out) t.
Proof.
  intros H. split.
  - apply omap_silent. eapply Forall_impl; [exact H|].
    intros [] Hp; simpl in *; try reflexivity; contradiction.
  - intros p out Hin. rewrite List.Forall_forall in H.
    apply (H _ Hin).
Qed.

Lemma get_repos_root_unresolving options :
  emits_only unresolving (get_repos_root options).
Proof. unfold get_repos_root. emits; exact I. Qed.

(** Lines 38-39: the filter only asks whether an entry is a directory. *)
Lemma isdir_filter_run root names (w : World) :
  comprehension_if (Event:=Event)
    (fun name => query (os_path_isdir (os_path_join root name))) names w
  = ([], w,
     Ret (List.filter
            (fun name => os_path_isdir (os_path_join root name) w) names)).
Proof.
  induction names as [|name names IH]; simpl; [reflexivity|].
  unfold bind at 1, query at 1. unfold bind at 1. rewrite IH. simpl.
  destruct (os_path_isdir (os_path_join root name) w); reflexivity.
Qed.

(** Line 46: [from_dirpath] is called on the paths in order; the first
    call that raises ends the comprehension with what it raised. *)
Lemma from_dirpath_all_run dirpaths w t w' r :
  comprehension
    (fun dirpath => call (EvFromDirpath dirpath) (from_dirpath dirpath))
    dirpaths w = (t, w', r) ->
  resolved t `prefix_of` dirpaths
  /\ (is_Ret r = true -> resolved t = dirpaths)
  /\ (forall p e, In (EvFromDirpath p (Raise e)) t -> r = Raise e).
Proof.
  revert w t w' r.
  induction dirpaths as [|dirpath dirpaths IH]; intros w t w' r; simpl.
  - intros [= <- <- <-]. split; [apply prefix_nil|]. split; [auto|].
    intros p e [].
  - intros Hrun. apply bind_inv in Hrun
      as [(e & Hc & ->)|(t1 & w1 & repo & t2 & Hc & Hrest & ->)];
      unfold call in Hc;
      destruct (from_dirpath dirpath w) as [out w0];
      injection Hc as <- <- ->.
    + split; [exists dirpaths; reflexivity|]. split; [discriminate|].
      intros p e' [[= _ <-]|[]]. reflexivity.
    + apply bind_inv in Hrest
        as [(e & Hr & ->)|(t3 & w3 & repos & t4 & Hr & Hret & ->)];
        destruct (IH _ _ _ _ Hr) as (Hpre & Hall & Hraise).
      * split; [apply prefix_cons; exact Hpre|]. split; [discriminate|].
        intros p e' [H|H]; [discriminate H|]. apply (Hraise p e' H).
      * injection Hret as <- <- <-. rewrite app_nil_r.
        split; [apply prefix_cons; exact Hpre|]. split.
        -- intros _. simpl. rewrite (Hall eq_refl). reflexivity.
        -- intros p e' [H|H]; [discriminate H|].
           specialize (Hraise p e' H). discriminate Hraise.
Qed.

Lemma abips_list_show_resolves options w t w' r :
  abips_list_show options w = (t, w', r) ->
  (forall p e, In (EvFromDirpath p (Raise e)) t -> r = Raise e)
  /\ (forall t0 w0 root names w1,
        get_repos_root options w = (t0, w0, Ret root) ->
        os_listdir root w0 = (Ret names, w1) ->
        resolved t `prefix_of` directories_of root names w1
        /\ (is_Ret r = true -> resolved t = directories_of root names w1)).
Proof.
  intros Hrun. unfold abips_list_show in Hrun.
  assert (Hquiet : forall t e,
            Forall unresolving t ->
            (forall p e', In (EvFromDirpath p (Raise e')) t ->
               Raise (A:=option (string * list PseudosRepo)) e = Raise e')
            /\ resolved t = []).
  { intros t' e Hu. destruct (unresolving_silent _ Hu) as (Hres & Hno).
    split; [|exact Hres]. intros p e' Hin. destruct (Hno _ _ Hin). }
  apply bind_inv in Hrun
    as [(e & Hroot & ->)|(t0 & w0 & root & t1 & Hroot & Hrun & ->)];
    pose proof (emits_run unresolving _ _ _ _ _ Hroot
                  (get_repos_root_unresolving options)) as Hu0'.
  { destruct (Hquiet _ e Hu0') as (Hno & Hres). split; [exact Hno|].
    intros ? ? ? ? ? H. rewrite Hroot in H. discriminate H. }
  apply bind_inv in Hrun
    as [(e & Hls & ->)|(ta & wa & names & tb & Hls & Hrun & ->)];
    unfold call in Hls;
    destruct (os_listdir root w0) as [out w1] eqn:Hlist;
    injection Hls as <- <- ->.
  { assert (Hu : Forall unresolving (t0 ++ [EvListdir root (Raise e)])).
    { apply Forall_app. split; [exact Hu0'|]. repeat constructor. }
    destruct (Hquiet _ e Hu) as (Hno & Hres). split; [exact Hno|].
    intros ? ? ? ? ? H. rewrite Hroot in H. injection H as <- <- <-.
    intros H. rewrite Hlist in H. discriminate H. }
  apply bind_inv in Hrun
    as [(e & Hf & ->)|(tf & wf & isdirs & tb' & Hf & Hrun & ->)];
    rewrite isdir_filter_run in Hf; [discriminate Hf|].
  injection Hf as <- <- <-. simpl app.
  remember tb' as tb eqn:Htb. clear Htb tb'.
  assert (Hpre : Forall unresolving (t0 ++ [EvListdir root (Ret names)])).
  { apply Forall_app. split; [exact Hu0'|]. repeat constructor. }
  destruct (unresolving_silent _ Hpre) as (Hres0 & Hno0).
  assert (Hgoal :
    (forall p e, In (EvFromDirpath p (Raise e)) tb -> r = Raise e)
    /\ resolved tb `prefix_of` directories_of root names w1
    /\ (is_Ret r = true -> resolved tb = directories_of root names w1)).
  { unfold directories_of.
    destruct (map (os_path_join root)
                (List.filter
                   (fun name => os_path_isdir (os_path_join root name) w1)
                   names)) as [|dirpath dirpaths] eqn:Hdirs.
    - apply (emits_run unresolving) in Hrun as Hu;
        [|unfold print; emits; exact I].
      destruct (unresolving_silent _ Hu) as (Hres & Hno).
      split; [intros p e Hin; destruct (Hno _ _ Hin)|].
      rewrite Hres. split; [apply prefix_nil|auto].
    - set (found := dirpath :: dirpaths) in *.
      apply bind_inv in Hrun
        as [(e & Hpr & ->)|(tp & wp & [] & tq & Hpr & Hrun & ->)];
        [discriminate Hpr|].
      injection Hpr as <- <-.
      apply bind_inv in Hrun
        as [(e & Hall & ->)|(t2 & w2 & repos & t3 & Hall & Hrun & ->)];
        destruct (from_dirpath_all_run _ _ _ _ _ Hall)
          as (Hpfx & Heq & Hraise).
      + split; [|split].
        * intros p e' [H|H]; [discriminate H|].
          specialize (Hraise p e' H). injection Hraise as ->. reflexivity.
        * exact Hpfx.
        * discriminate.
      + apply (emits_run unresolving) in Hrun as Hu;
          [|emits; exact I].
        destruct (unresolving_silent _ Hu) as (Hres & Hno).
        simpl. rewrite resolved_app, Hres, app_nil_r, (Heq eq_refl).
        split; [|split; [reflexivity|auto]].
        intros p e' [H|H]; [discriminate H|].
        apply in_app_or in H as [H|H].
        * specialize (Hraise p e' H). discriminate Hraise.
        * destruct (Hno _ _ H). }
  destruct Hgoal as (Hraise & Hpfx & Heq).
  split.
  - intros p e Hin. apply in_app_or in Hin as [Hin|Hin].
    + destruct (unresolving_silent _ Hu0') as (_ & Hno).
      destruct (Hno _ _ Hin).
    + destruct Hin as [H|Hin]; [discriminate H|]. apply (Hraise p e Hin).
  - intros t0' w0' root' names' w1' H. rewrite Hroot in H.
    injection H as <- <- <-. intros Hlist'.
    rewrite Hlist in Hlist'. injection Hlist' as <- <-.
    rewrite resolved_app.
    destruct (unresolving_silent _ Hu0') as (Hr0 & _). rewrite Hr0.
    simpl. auto.
Qed.
Lemma rejected_In (t : list Event) p e :
  In (p, e) (rejected t) -> In (EvFromDirpath p (Raise e)) t.
Proof.
  induction t as [|ev t IH]; simpl; [auto|].
  destruct ev as [| | | | | | |p' [repo|e']| | | | | |]; simpl; auto.
  intros [[= <- <-]|Hin]; auto.
Qed.

(** The list command hands every entry that is a directory to
    [from_dirpath], and what [from_dirpath] raises ends the command. *)
Lemma abips_list_resolves options w :
  (forall p e,
     In (EvFromDirpath p (Raise e)) (abips_list options w).1.1 ->
     (abips_list options w).2 = Raise e)
  /\ (forall t0 w0 root names w1,
        get_repos_root options w = (t0, w0, Ret root) ->
        os_listdir root w0 = (Ret names, w1) ->
        resolved (abips_list options w).1.1
          `prefix_of` directories_of root names w1
        /\ (is_Ret (abips_list options w).2 = true ->
              resolved (abips_list options w).1.1
              = directories_of root names w1)).
Proof.
  destruct (abips_list options w) as [[t w'] r] eqn:Hrun. simpl.
  unfold abips_list in Hrun.
  apply bind_inv in Hrun
    as [(e & Hshow & ->)|(t1 & w1 & listed & t2 & Hshow & Hrun & ->)];
    destruct (abips_list_show_resolves _ _ _ _ _ Hshow) as (Hraise & Hdirs).
  - split.
    + intros p e' Hin. specialize (Hraise p e' Hin).
      injection Hraise as ->. reflexivity.
    + intros t0 w0 root names w1 Hroot Hlist.
      destruct (Hdirs _ _ _ _ _ Hroot Hlist) as (Hpre & _).
      split; [exact Hpre|discriminate].
  - apply (emits_run unresolving) in Hrun as Hu.
    2:{ unfold abips_list_checksums, validate_all, print.
        destruct listed as [[root repos]|]; emits; exact I. }
    destruct (unresolving_silent _ Hu) as (Hres & Hno).
    split.
    + intros p e Hin. apply in_app_or in Hin as [Hin|Hin].
      * specialize (Hraise p e Hin). discriminate Hraise.
      * destruct (Hno _ _ Hin).
    + intros t0 w0 root names w1' Hroot Hlist.
      destruct (Hdirs _ _ _ _ _ Hroot Hlist) as (_ & Heq).
      rewrite resolved_app, Hres, app_nil_r, (Heq eq_refl).
      split; [reflexivity|auto].
Qed.
End Resolving.

End ScriptFacts.

(* ===================================================================== *)
(** * Facts about the core                                                 *)
(* ===================================================================== *)

Module CoreFacts.
Import Py Core PyFacts.
Local Open Scope py_scope.

Section Resolver.
Context `{Platform}.

Lemma lookup_id_Some i d :
  lookup_id i = Some d -> In d Registry /\ d_id d = i.
Proof.
  unfold lookup_id. intros Hf. apply find_some in Hf as [Hin Heq].
  split; [exact Hin|]. apply Z.eqb_eq. exact Heq.
Qed.

Lemma lookup_id_None i : lookup_id i = None <-> ~ registered i.
Proof.
  unfold lookup_id, registered. split.
  - intros Hf (d & Hin & Hid).
    pose proof (find_none _ _ Hf d Hin) as Hne. simpl in Hne.
    apply Z.eqb_neq in Hne. contradiction.
  - intros Hno. destruct (find _ Registry) as [d|] eqn:Hf; [|reflexivity].
    apply find_some in Hf as [Hin Heq]. apply Z.eqb_eq in Heq.
    destruct Hno. exists d. auto.
Qed.

(** C3. [byIds] returns one descriptor per requested id, in the order of
    the request and with its repetitions; when an id of the request is
    not registered it raises [UnknownRepositoryId] for the first such id
    and returns nothing. *)
Theorem byIds_follows_the_request ids :
  (forall ds,
     byIds ids = Ret ds ->
     map d_id ds = ids /\ Forall (fun d => In d Registry) ds)
  /\ (forall e,
        byIds ids = Raise e ->
        exists known i rest,
          ids = known ++ i :: rest
          /\ Forall registered known
          /\ ~ registered i
          /\ e = UnknownRepositoryId i)
  /\ (Forall registered ids <-> is_Ret (byIds ids) = true).
Proof.
  induction ids as [|i ids (IHret & IHraise & IHall)]; simpl.
  - split; [|split].
    + intros ds [= <-]. split; [reflexivity|constructor].
    + intros e [=].
    + split; [reflexivity|constructor].
  - destruct (lookup_id i) as [d|] eqn:Hd.
    + destruct (lookup_id_Some _ _ Hd) as [Hin Hid].
      assert (Hreg : registered i) by (exists d; auto).
      destruct (byIds ids) as [ds|e] eqn:Hrest.
      * split; [|split].
        -- intros ds' [= <-]. destruct (IHret ds eq_refl) as [Hmap Hall].
           simpl. rewrite Hid, Hmap. split; [reflexivity|].
           constructor; assumption.
        -- intros e [=].
        -- split; [reflexivity|]. intros _. constructor; [exact Hreg|].
           apply IHall. reflexivity.
      * split; [|split].
        -- intros ds [=].
        -- intros e' [= <-].
           destruct (IHraise e eq_refl)
             as (known & j & rest & -> & Hknown & Hj & ->).
           exists (i :: known), j, rest.
           repeat split; auto.
        -- split; [|discriminate]. intros Hall.
           inversion Hall as [|? ? _ Hids]. apply IHall in Hids.
           discriminate Hids.
    + apply lookup_id_None in Hd. split; [|split].
      * intros ds [=].
      * intros e [= <-]. exists [], i, ids. repeat split; auto.
      * split; [|discriminate]. intros Hall.
        inversion Hall as [|? ? Hi _]. contradiction.
Qed.
End Resolver.

Section Installer.
Context `{Platform}.

Lemma keeps_disk_bind {A B} (m : M A) (k : A -> M B) :
  keeps_disk m -> (forall a, keeps_disk (k a)) -> keeps_disk (bind m k).
Proof.
  intros Hm Hk w t w' r Hrun.
  apply bind_inv in Hrun
    as [(e & Hr & ->)|(t1 & w1 & a & t2 & Hr & Hrest & ->)].
  - apply (Hm _ _ _ _ Hr).
  - destruct (Hm _ _ _ _ Hr) as [Hd Hn].
    destruct (Hk a _ _ _ _ Hrest) as [Hd' Hn']. split; congruence.
Qed.

Lemma keeps_disk_tick : keeps_disk tick.
Proof.
  intros w t w' r. unfold tick.
  destruct (alarm w) as [[|n]|]; intros [= <- <- <-]; auto.
Qed.

Lemma keeps_disk_fetch url : keeps_disk (fetch url).
Proof.
  apply keeps_disk_bind; [apply keeps_disk_tick|]. intros _ w t w' r.
  destruct (net w !! url); intros [= <- <- <-]; auto.
Qed.

Lemma keeps_disk_clear_tmp slot : keeps_disk (clear_tmp slot).
Proof. intros w t w' r [= <- <- <-]. auto. Qed.

Lemma keeps_disk_write_tmp slot file content :
  keeps_disk (write_tmp slot file content).
Proof.
  apply keeps_disk_bind; [apply keeps_disk_tick|]. intros _ w t w' r.
  destruct (quota w) as [[|n]|]; intros [= <- <- <-]; auto.
Qed.

Lemma keeps_disk_unpacking slot files :
  keeps_disk
    (for_ files (fun '(file, content) => write_tmp slot file content)).
Proof.
  induction files as [|[file content] files IH]; simpl.
  - intros w t w' r [= <- <- <-]. auto.
  - apply keeps_disk_bind; [apply keeps_disk_write_tmp|]. intros _. exact IH.
Qed.

(** The rename either happens or leaves the disk as it was. *)
Lemma rename_into_place_run slot target w t w' r :
  rename_into_place slot target w = (t, w', r) ->
  (exists e, r = Raise e /\ disk w' = disk w)
  \/ (r = Ret tt
      /\ disk w' = <[target := default ∅ (tmp w !! slot)]> (disk w)).
Proof.
  unfold rename_into_place. intros Hrun.
  apply bind_inv in Hrun
    as [(e & Hr & ->)|(t1 & w1 & [] & t2 & Hr & Hrest & ->)].
  - left. exists e. split; [reflexivity|]. apply (keeps_disk_tick _ _ _ _ Hr).
  - right. injection Hrest as <- <- <-. simpl. split; [reflexivity|].
    unfold tick in Hr. destruct (alarm w) as [[|n]|];
      injection Hr as <- <-; reflexivity.
Qed.

Lemma tick_tmp w t w' r : tick w = (t, w', r) -> tmp w' = tmp w.
Proof.
  unfold tick. destruct (alarm w) as [[|n]|]; intros [= <- <- <-]; auto.
Qed.

(** Once every file is written, the temporary directory holds them. *)
Lemma unpacking_run slot files w t w' :
  for_ files (fun '(file, content) => write_tmp slot file content) w
  = (t, w', Ret tt) ->
  tmp w' !! slot = Some (bundle_of files (default ∅ (tmp w !! slot)))
  \/ (files = [] /\ tmp w' = tmp w).
Proof.
  revert w t. induction files as [|[file content] files IH]; intros w t; simpl.
  - intros [= <- <-]. right. auto.
  - intros Hrun. left.
    apply bind_inv in Hrun
      as [(e & _ & [=])|(t1 & w1 & [] & t2 & Hw & Hrest & ->)].
    assert (Hw1 : tmp w1
                  = <[slot := <[file := content]> (default ∅ (tmp w !! slot))]>
                      (tmp w)).
    { unfold write_tmp in Hw. apply bind_inv in Hw
        as [(e & _ & [=])|(ta & wa & [] & tb & Ht & Hb & ->)].
      rewrite <- (tick_tmp _ _ _ _ Ht).
      destruct (quota wa) as [[|n]|]; try discriminate Hb;
        injection Hb as <- <-; reflexivity. }
    destruct (IH _ _ Hrest) as [Hs|[-> Hs]].
    + rewrite Hs, Hw1, lookup_insert_eq. reflexivity.
    + rewrite Hs, Hw1, lookup_insert_eq. reflexivity.
Qed.

(** A failed installation leaves the disk as it was; a successful one
    adds the directory with the files of the archive. *)
Lemma install_run d root w t w' r :
  install d root w = (t, w', r) ->
  (exists e, r = Raise e /\ disk w' = disk w)
  \/ (r = Ret tt
      /\ exists archive files,
           net w !! d_remote_url d = Some archive
           /\ unpack archive = Some files
           /\ disk w'
              = <[directoryFor d root := bundle_of files ∅]> (disk w)).
Proof.
  unfold install. intros Hrun.
  apply bind_inv in Hrun
    as [(e & Hf & ->)|(t1 & w1 & archive & t2 & Hf & Hrest & ->)].
  { left. exists e. split; [reflexivity|].
    apply (keeps_disk_fetch _ _ _ _ _ Hf). }
  destruct (keeps_disk_fetch _ _ _ _ _ Hf) as [Hd1 Hn1].
  assert (Harch : net w !! d_remote_url d = Some archive).
  { unfold fetch in Hf. apply bind_inv in Hf
      as [(e & _ & [=])|(ta & wa & [] & tb & Ht & Hb & ->)].
    destruct (keeps_disk_tick _ _ _ _ Ht) as [_ <-].
    destruct (net wa !! d_remote_url d) as [a|]; [|discriminate Hb].
    injection Hb as _ _ <-. reflexivity. }
  destruct (unpack archive) as [files|] eqn:Hunpack.
  2:{ left. injection Hrest as <- <- <-. exists ArchiveCorruptError. auto. }
  apply bind_inv in Hrest
    as [(e & [=] & _)|(t3 & w3 & [] & t4 & Hc & Hrest & ->)].
  injection Hc as <- <-.
  apply bind_inv in Hrest
    as [(e & Hu & ->)|(t5 & w5 & [] & t6 & Hu & Hrest & ->)].
  { left. exists e. split; [reflexivity|].
    destruct (keeps_disk_unpacking _ _ _ _ _ _ Hu) as [Hd _].
    rewrite Hd. exact Hd1. }
  destruct (keeps_disk_unpacking _ _ _ _ _ _ Hu) as [Hd5 _].
  simpl in Hd5.
  destruct (rename_into_place_run _ _ _ _ _ _ Hrest)
    as [(e & -> & Hd)|(-> & Hd)].
  { left. exists e. split; [reflexivity|]. congruence. }
  right. split; [reflexivity|]. exists archive, files.
  split; [exact Harch|]. split; [exact Hunpack|].
  rewrite Hd, Hd5, Hd1. f_equal.
  destruct (unpacking_run _ _ _ _ _ Hu) as [Hs|[-> Hs]].
  - rewrite Hs. simpl. rewrite lookup_insert_eq. reflexivity.
  - rewrite Hs. simpl. rewrite lookup_insert_eq. reflexivity.
Qed.

(** C2. When [install] fails or is interrupted, that is whenever it
    raises, the directories under the root are what they were: for a
    descriptor that had no directory, none has appeared, not even a
    partial one, and [isInstalled] is still false. *)
Theorem failed_install_leaves_nothing d root w t w' e :
  disk w !! directoryFor d root = None ->
  install d root w = (t, w', Raise e) ->
  disk w' = disk w
  /\ disk w' !! directoryFor d root = None
  /\ isInstalled d root w' = false.
Proof.
  intros Hfree Hrun.
  destruct (install_run _ _ _ _ _ _ Hrun)
    as [(e' & _ & Hd)|([=] & _)].
  split; [exact Hd|]. unfold isInstalled. rewrite Hd, Hfree. auto.
Qed.
End Installer.

Section Validator.
Context `{Platform}.

Lemma bundle_of_other files b file :
  ~ In file (map fst files) -> bundle_of files b !! file = b !! file.
Proof.
  unfold bundle_of. revert b.
  induction files as [|[f c] files IH]; intros b Hnot; simpl; [reflexivity|].
  rewrite IH.
  - apply lookup_insert_ne. intros ->. apply Hnot. left. reflexivity.
  - intros Hin. apply Hnot. right. exact Hin.
Qed.

Lemma bundle_of_lookup files b file content :
  NoDup (map fst files) -> In (file, content) files ->
  bundle_of files b !! file = Some content.
Proof.
  unfold bundle_of. revert b.
  induction files as [|[f c] files IH]; intros b Hnd Hin; simpl; [destruct Hin|].
  apply NoDup_cons in Hnd as [Hnot Hnd].
  destruct Hin as [[= -> ->]|Hin].
  - fold (bundle_of files (<[file:=content]> b)).
    rewrite bundle_of_other.
    + apply lookup_insert_eq.
    + rewrite <- list_elem_of_In. exact Hnot.
  - apply IH; assumption.
Qed.

(** A file with the expected digest raises no violation. *)
Lemma check_file_clean b file expected content :
  b !! file = Some content -> digest content = expected ->
  check_file b (file, expected) = [].
Proof.
  intros Hb Hd. unfold check_file. rewrite Hb, Hd, String.eqb_refl.
  reflexivity.
Qed.

Lemma check_file_agree b b' entry :
  b' !! entry.1 = b !! entry.1 -> check_file b' entry = check_file b entry.
Proof. destruct entry as [file expected]. simpl. intros ->. reflexivity. Qed.

Lemma flat_map_clean b manifest :
  flat_map (check_file b) manifest = [] ->
  forall entry, In entry manifest -> check_file b entry = [].
Proof.
  induction manifest as [|e manifest IH]; simpl; [intros _ ? []|].
  intros Happ entry [<-|Hin].
  - destruct (check_file b e); [reflexivity|discriminate Happ].
  - apply IH; [|exact Hin].
    destruct (check_file b e); [exact Happ|discriminate Happ].
Qed.

(** Changing one file of a bundle changes the report by what that file
    now yields, when it yielded nothing before. *)
Lemma violations_after_change manifest b b' file expected :
  NoDup (map fst manifest) ->
  In (file, expected) manifest ->
  (forall other, other <> file -> b' !! other = b !! other) ->
  check_file b (file, expected) = [] ->
  flat_map (check_file b') manifest
  ≡ₚ check_file b' (file, expected) ++ flat_map (check_file b) manifest.
Proof.
  intros Hnd Hin Hagree Hclean.
  induction manifest as [|[f dg] manifest IH]; [destruct Hin|].
  simpl in Hnd. apply NoDup_cons in Hnd as [Hnot Hnd]. cbn [flat_map].
  destruct Hin as [[= -> ->]|Hin].
  - rewrite Hclean. cbn [app]. apply Permutation_app_head.
    assert (Hsame : forall entry, In entry manifest ->
              check_file b' entry = check_file b entry).
    { intros entry Hentry. apply check_file_agree. apply Hagree.
      intros Heq. apply Hnot. rewrite list_elem_of_In, <- Heq.
      apply in_map. exact Hentry. }
    clear -Hsame. induction manifest as [|e manifest IH]; [reflexivity|].
    cbn [flat_map]. rewrite (Hsame e), IH; [reflexivity| |left; reflexivity].
    intros entry Hentry. apply Hsame. right. exact Hentry.
  - assert (Hne : f <> file).
    { intros ->. apply Hnot. rewrite list_elem_of_In.
      apply (in_map fst _ _ Hin). }
    rewrite (check_file_agree b b' (f, dg)) by (apply Hagree; exact Hne).
    rewrite (IH Hnd Hin). rewrite !app_assoc.
    apply Permutation_app_tail. apply Permutation_app_comm.
Qed.

Lemma corrupt_file_disk path file i w :
  disk (corrupt_file path file i w)
  = alter (alter (corrupt_byte i) file) path (disk w).
Proof. reflexivity. Qed.

(** What corrupting one file does to the report of a descriptor whose
    directory holds it. *)
Lemma validate_after_corruption d root w b file expected content i :
  disk w !! directoryFor d root = Some b ->
  b !! file = Some content ->
  NoDup (map fst (d_expected_checksum d)) ->
  In (file, expected) (d_expected_checksum d) ->
  check_file b (file, expected) = [] ->
  digest (corrupt_byte i content) <> digest content ->
  exists v vs,
    iv_file v = file
    /\ iv_actual v = Some (digest (corrupt_byte i content))
    /\ validate d root w = Ret vs
    /\ exists vs',
         validate d root (corrupt_file (directoryFor d root) file i w)
         = Ret vs'
         /\ vs' ≡ₚ v :: vs.
Proof.
  intros Hdir Hfile Hnd Hin Hclean Hdiff.
  set (b' := alter (corrupt_byte i) file b).
  assert (Hexp : digest content = expected).
  { unfold check_file in Hclean. rewrite Hfile in Hclean.
    destruct (String.eqb (digest content) expected) eqn:E;
      [|discriminate Hclean].
    apply String.eqb_eq. exact E. }
  assert (Hnew : check_file b' (file, expected)
                 = [{| iv_file := file; iv_expected := expected;
                       iv_actual := Some (digest (corrupt_byte i content)) |}]).
  { unfold check_file, b'. rewrite lookup_alter_eq, Hfile. simpl.
    destruct (String.eqb (digest (corrupt_byte i content)) expected) eqn:E;
      [|reflexivity].
    apply String.eqb_eq in E. congruence. }
  exists {| iv_file := file; iv_expected := expected;
            iv_actual := Some (digest (corrupt_byte i content)) |},
    (flat_map (check_file b) (d_expected_checksum d)).
  split; [reflexivity|]. split; [reflexivity|].
  unfold validate. rewrite Hdir. split; [reflexivity|].
  rewrite corrupt_file_disk, lookup_alter_eq, Hdir. simpl.
  eexists. split; [reflexivity|]. fold b'.
  rewrite (violations_after_change _ b b' file expected Hnd Hin);
    [rewrite Hnew; reflexivity| |exact Hclean].
  intros other Hne. unfold b'. apply lookup_alter_ne. congruence.
Qed.
Lemma flat_map_nil {A B} (g : A -> list B) (l : list A) :
  (forall x, In x l -> g x = []) -> flat_map g l = [].
Proof.
  induction l as [|x l IH]; intros Hall; simpl; [reflexivity|].
  rewrite (Hall x) by (left; reflexivity). apply IH.
  intros y Hy. apply Hall. right. exact Hy.
Qed.

Lemma expected_of d file :
  In file (map fst (d_expected_checksum d)) ->
  exists expected, In (file, expected) (d_expected_checksum d).
Proof.
  intros Hin. apply in_map_iff in Hin as ([f dg] & Hf & Hin).
  simpl in Hf. subst f. exists dg. exact Hin.
Qed.

Lemma validate_fresh d root w t w' :
  genuine d w -> install d root w = (t, w', Ret tt) ->
  validate d root w' = Ret [].
Proof.
  intros (archive & files & Harch & Hunpack & Hnd & Hall) Hrun.
  destruct (install_run _ _ _ _ _ _ Hrun)
    as [(e & [=] & _)|(_ & archive' & files' & Harch' & Hunpack' & Hd)].
  rewrite Harch in Harch'. injection Harch' as <-.
  rewrite Hunpack in Hunpack'. injection Hunpack' as <-.
  unfold validate. rewrite Hd, lookup_insert_eq. f_equal.
  apply flat_map_nil. intros [file expected] Hin.
  destruct (Hall _ _ Hin) as (content & Hfile & Hdigest).
  apply (check_file_clean _ _ _ content); [|exact Hdigest].
  apply bundle_of_lookup; assumption.
Qed.

(** C4. [validate] scans every expected file. After a successful
    installation of a genuine archive it reports nothing; after one byte
    of one file is corrupted it reports exactly one violation, naming
    that file; after two files are corrupted, exactly two, one for each.
    It raises only [NotInstalledError], and only when the descriptor has
    no directory at all: with a directory, every expected file that is
    missing is reported as a violation. A corruption counts when the
    digest tells the corrupted content from the original. *)
Theorem validate_reports_every_file d root :
  (forall w t w',
     genuine d w -> install d root w = (t, w', Ret tt) ->
     validate d root w' = Ret [])
  /\ (forall w b file content i,
        validate d root w = Ret [] ->
        NoDup (map fst (d_expected_checksum d)) ->
        disk w !! directoryFor d root = Some b ->
        b !! file = Some content ->
        In file (map fst (d_expected_checksum d)) ->
        digest (corrupt_byte i content) <> digest content ->
        exists v,
          validate d root (corrupt_file (directoryFor d root) file i w)
          = Ret [v]
          /\ iv_file v = file)
  /\ (forall w b file1 content1 i1 file2 content2 i2,
        validate d root w = Ret [] ->
        NoDup (map fst (d_expected_checksum d)) ->
        disk w !! directoryFor d root = Some b ->
        file1 <> file2 ->
        b !! file1 = Some content1 -> b !! file2 = Some content2 ->
        In file1 (map fst (d_expected_checksum d)) ->
        In file2 (map fst (d_expected_checksum d)) ->
        digest (corrupt_byte i1 content1) <> digest content1 ->
        digest (corrupt_byte i2 content2) <> digest content2 ->
        exists v1 v2 vs,
          validate d root
            (corrupt_file (directoryFor d root) file2 i2
               (corrupt_file (directoryFor d root) file1 i1 w))
          = Ret vs
          /\ vs ≡ₚ [v1; v2] /\ iv_file v1 = file1 /\ iv_file v2 = file2)
  /\ (forall w e,
        validate d root w = Raise e ->
        e = NotInstalledError /\ disk w !! directoryFor d root = None)
  /\ (forall w b,
        disk w !! directoryFor d root = Some b ->
        exists vs,
          validate d root w = Ret vs
          /\ forall file expected,
               In (file, expected) (d_expected_checksum d) ->
               b !! file = None ->
               In {| iv_file := file; iv_expected := expected;
                     iv_actual := None |} vs).
Proof.
  split; [|split; [|split; [|split]]].
  - intros w t w'. apply validate_fresh.
  - intros w b file content i Hclean Hnd Hdir Hfile Hin Hdiff.
    destruct (expected_of _ _ Hin) as (expected & Hentry).
    assert (Hnone : check_file b (file, expected) = []).
    { unfold validate in Hclean. rewrite Hdir in Hclean.
      injection Hclean as Hclean. apply (flat_map_clean _ _ Hclean _ Hentry). }
    destruct (validate_after_corruption d root w b file expected content i
                Hdir Hfile Hnd Hentry Hnone Hdiff)
      as (v & vs & Hv & _ & Hbefore & vs' & Hafter & Hperm).
    rewrite Hclean in Hbefore. injection Hbefore as <-.
    apply Permutation_singleton_r in Hperm. subst vs'.
    exists v. auto.
  - intros w b file1 content1 i1 file2 content2 i2
      Hclean Hnd Hdir Hne Hfile1 Hfile2 Hin1 Hin2 Hdiff1 Hdiff2.
    destruct (expected_of _ _ Hin1) as (expected1 & Hentry1).
    destruct (expected_of _ _ Hin2) as (expected2 & Hentry2).
    assert (Hall : flat_map (check_file b) (d_expected_checksum d) = []).
    { unfold validate in Hclean. rewrite Hdir in Hclean.
      injection Hclean as Hclean. exact Hclean. }
    pose proof (flat_map_clean _ _ Hall _ Hentry1) as Hnone1.
    pose proof (flat_map_clean _ _ Hall _ Hentry2) as Hnone2.
    destruct (validate_after_corruption d root w b file1 expected1 content1 i1
                Hdir Hfile1 Hnd Hentry1 Hnone1 Hdiff1)
      as (v1 & vs & Hv1 & _ & Hbefore & vs1 & Hafter1 & Hperm1).
    rewrite Hclean in Hbefore. injection Hbefore as <-.
    apply Permutation_singleton_r in Hperm1. subst vs1.
    set (w1 := corrupt_file (directoryFor d root) file1 i1 w) in *.
    set (b1 := alter (corrupt_byte i1) file1 b).
    assert (Hdir1 : disk w1 !! directoryFor d root = Some b1).
    { unfold w1. rewrite corrupt_file_disk, lookup_alter_eq, Hdir.
      reflexivity. }
    assert (Hkeep : b1 !! file2 = b !! file2).
    { unfold b1. apply lookup_alter_ne. exact Hne. }
    assert (Hnone2' : check_file b1 (file2, expected2) = []).
    { rewrite (check_file_agree b b1 (file2, expected2)); assumption. }
    rewrite <- Hkeep in Hfile2.
    destruct (validate_after_corruption d root w1 b1 file2 expected2 content2
                i2 Hdir1 Hfile2 Hnd Hentry2 Hnone2' Hdiff2)
      as (v2 & vs & Hv2 & _ & Hbefore & vs2 & Hafter2 & Hperm2).
    rewrite Hafter1 in Hbefore. injection Hbefore as <-.
    exists v1, v2, vs2. split; [exact Hafter2|].
    split; [|auto]. rewrite Hperm2. apply perm_swap.
  - intros w e. unfold validate.
    destruct (disk w !! directoryFor d root); [discriminate|].
    intros [= <-]. auto.
  - intros w b Hdir. unfold validate. rewrite Hdir. eexists.
    split; [reflexivity|]. intros file expected Hin Hmissing.
    apply in_flat_map. exists (file, expected). split; [exact Hin|].
    unfold check_file. rewrite Hmissing. left. reflexivity.
Qed.

(** [fromInstalledDirectory] fails on a name no descriptor encodes to,
    and answers with a descriptor of the catalog otherwise. *)
Lemma fromInstalledDirectory_run path :
  ((forall d, In d Registry -> dir_name d <> basename path) ->
   fromInstalledDirectory path
   = Raise (UnrecognizedDirectoryName (basename path)))
  /\ (forall d,
        fromInstalledDirectory path = Ret d ->
        In d Registry /\ dir_name d = basename path).
Proof.
  unfold fromInstalledDirectory.
  destruct (find _ Registry) as [d|] eqn:Hf.
  - apply find_some in Hf as [Hin Heq]. apply String.eqb_eq in Heq.
    split.
    + intros Hno. destruct (Hno d Hin Heq).
    + intros d' [= <-]. auto.
  - split; [reflexivity|discriminate].
Qed.
End Validator.

End CoreFacts.

(* ===================================================================== *)
(** * The script over the core                                             *)
(* ===================================================================== *)

Module ListingFacts.
Import Py Script Core PyFacts ScriptFacts CoreFacts.

(** C7, as the code has it. [fromInstalledDirectory] raises
    [UnrecognizedDirectoryName] on every name no descriptor of the catalog
    encodes to, and otherwise answers with the descriptor of that name.
    Its caller, the list command, does not sort related from unrelated
    directories: it hands every entry of the root that is a directory to
    [from_dirpath], in order, and what [from_dirpath] raises ends the
    command with that exception. Only the entries that are not directories
    are left out. *)
Theorem unknown_directories_reach_the_resolver
    `{Platform} {World : Type} `{!OS World} `{!PsRepos World}
    (options : Options) (w : World) :
  (forall path,
     (forall d, In d Registry -> dir_name d <> basename path) ->
     fromInstalledDirectory path
     = Raise (UnrecognizedDirectoryName (basename path)))
  /\ (forall path d,
        fromInstalledDirectory path = Ret d ->
        In d Registry /\ dir_name d = basename path)
  /\ (forall p e,
        In (p, e) (rejected (abips_list options w).1.1) ->
        (abips_list options w).2 = Raise e)
  /\ (forall t0 w0 root names w1,
        get_repos_root options w = (t0, w0, Ret root) ->
        os_listdir root w0 = (Ret names, w1) ->
        resolved (abips_list options w).1.1
          `prefix_of` directories_of root names w1
        /\ (is_Ret (abips_list options w).2 = true ->
              resolved (abips_list options w).1.1
              = directories_of root names w1)).
Proof.
  split; [|split; [|split]].
  - intros path. apply fromInstalledDirectory_run.
  - intros path. apply fromInstalledDirectory_run.
  - intros p e Hin. apply (proj1 (abips_list_resolves options w) p e).
    apply rejected_In. exact Hin.
  - apply abips_list_resolves.
Qed.

End ListingFacts.

(* ===================================================================== *)
(** * The facts on the concrete machine                                    *)
(* ===================================================================== *)

Module DemoFacts.
Import Py Script Core Demo PyFacts ScriptFacts CoreFacts ListingFacts.

Ltac among := repeat first [left; reflexivity | right].

(** The validator of the demo raises [ValueError] or [NotInstalledError]. *)
Lemma demo_raises_exceptions_only : raises_exceptions_only (World:=World).
Proof.
  intros repo rt v w e. simpl. unfold demo_validate_checksums, validate.
  destruct (disk (core w) !! directoryFor repo rt) as [b|].
  - destruct (flat_map (check_file b) (d_expected_checksum repo));
      simpl; [discriminate|]. intros [= <-]. reflexivity.
  - simpl. intros [= <-]. reflexivity.
Qed.

(** The list command on the machine with a tampered file: both
    repositories are validated, one exception is reported. *)
Lemma list_validates_every_repository_witness :
  exists t2 w2,
    abips_list listing_options (machine installed_disk [])
    = ((abips_list_show listing_options (machine installed_disk [])).1.1
       ++ t2 ++ report (failures t2), w2,
       Ret (Z.of_nat (length (failures t2))))
    /\ validated t2 = listed
    /\ length t2 = length listed
    /\ (Z.of_nat (length (failures t2)) = 0 <-> Forall validation_passed t2).
Proof.
  apply (list_validates_every_repository listing_options
           (machine installed_disk []) _
           (abips_list_show listing_options (machine installed_disk [])).1.2
           root listed).
  - exact demo_raises_exceptions_only.
  - reflexivity.
  - reflexivity.
Defined.

(** An installation interrupted while it unpacks. *)
Lemma failed_install_leaves_nothing_witness :
  disk (install pbe_sr root (interrupted 2)).1.2 = disk (interrupted 2)
  /\ disk (install pbe_sr root (interrupted 2)).1.2 !! directoryFor pbe_sr root
     = None
  /\ isInstalled pbe_sr root (install pbe_sr root (interrupted 2)).1.2 = false.
Proof.
  apply (failed_install_leaves_nothing pbe_sr root (interrupted 2)
           (install pbe_sr root (interrupted 2)).1.1 _ KeyboardInterrupt).
  - vm_compute. reflexivity.
  - vm_compute. reflexivity.
Defined.

(** A request with a repetition, out of catalog order. *)
Lemma byIds_follows_the_request_witness :
  map d_id [lda_paw; pbe_sr; lda_paw] = [3; 1; 3]
  /\ Forall (fun d => In d Registry) [lda_paw; pbe_sr; lda_paw].
Proof.
  apply (proj1 (byIds_follows_the_request [3; 1; 3])). reflexivity.
Defined.

(** The request of the specification, on a catalog where 1 is registered
    and 99 is not. *)
Example byIds_unknown : byIds [1; 1; 99] = Raise (UnknownRepositoryId 99).
Proof. reflexivity. Qed.

(** One byte of one file of the installed repository is changed. *)
Lemma validate_reports_every_file_witness :
  exists v,
    validate pbe_sr root
      (corrupt_file (directoryFor pbe_sr root) "He.psp8" 1 clean_core)
    = Ret [v]
    /\ iv_file v = "He.psp8".
Proof.
  apply (proj1 (proj2 (validate_reports_every_file pbe_sr root)) clean_core
           {[ "H.psp8" := "h-sr"; "He.psp8" := "he-sr" ]} "He.psp8" "he-sr" 1%nat).
  - vm_compute. reflexivity.
  - apply (bool_decide_unpack _). vm_compute. exact I.
  - vm_compute. reflexivity.
  - vm_compute. reflexivity.
  - simpl. among.
  - vm_compute. discriminate.
Defined.

(** [get_byid 2 3] answered by No, with spaces around. *)
Lemma install_only_after_consent_witness :
  (abips_get_byid ask_options (machine clean_disk [Ret " No "])).2 = Ret 2
  /\ installs (abips_get_byid ask_options (machine clean_disk [Ret " No "])).1.1
     = [].
Proof.
  apply (proj1 (proj2 (install_only_after_consent abips_get_byid ask_options
                         (machine clean_disk [Ret " No "]) ltac:(among)))
           " No ").
  - reflexivity.
  - vm_compute. among.
  - vm_compute. reflexivity.
Defined.

(** [get_byid 2 3] with the terminal closed. *)
Lemma no_answer_means_consent_witness :
  yes ask_options = false
  /\ installs (abips_get_byid ask_options (machine clean_disk [])).1.1 <> []
  /\ (abips_get_byid ask_options (machine clean_disk [])).2 <> Ret 2.
Proof.
  apply (proj2 (proj2 no_answer_means_consent) abips_get_byid ask_options
           (machine clean_disk []) (Raise EOFError) ltac:(among)).
  - vm_compute. among.
  - left. reflexivity.
Defined.


(** The list command on a root with a directory of the user's. *)
Lemma unknown_directories_reach_the_resolver_witness :
  (abips_list listing_options (machine stray_disk [])).2
  = Raise (UnrecognizedDirectoryName "notes").
Proof.
  apply (proj1 (proj2 (proj2 (unknown_directories_reach_the_resolver
                                listing_options (machine stray_disk []))))
           (os_path_join root "notes") (UnrecognizedDirectoryName "notes")).
  vm_compute. among.
Defined.

(** C7 fails as stated: the list command does not leave the unrelated
    directory out; it asks [from_dirpath] about it and fails. *)
Lemma list_does_not_filter_unrelated_directories :
  os_path_isdir (os_path_join root "notes") (machine stray_disk []) = true
  /\ fromInstalledDirectory (os_path_join root "notes")
     = Raise (UnrecognizedDirectoryName "notes")
  /\ In (os_path_join root "notes")
       (resolved (abips_list listing_options (machine stray_disk [])).1.1)
  /\ is_Ret (abips_list listing_options (machine stray_disk [])).2 = false.
Proof.
  split; [vm_compute; reflexivity|]. split; [vm_compute; reflexivity|].
  split; [vm_compute; among|]. vm_compute. reflexivity.
Qed.

End DemoFacts.

(* ===================================================================== *)
(** * More facts about the runtime                                         *)
(* ===================================================================== *)

Module RuntimeFacts.
Import Py Observe.

Section Sorting.
Context {A : Type} (key : A -> Z).

Lemma insert_by_perm x xs : insert_by key x xs ≡ₚ x :: xs.
Proof.
  induction xs as [|y ys IH]; simpl; [reflexivity|].
  destruct (key x <=? key y); [reflexivity|].
  rewrite IH. apply perm_swap.
Qed.

Lemma sorted_by_perm xs : sorted_by key xs ≡ₚ xs.
Proof.
  induction xs as [|x xs IH]; simpl; [reflexivity|].
  unfold sorted_by in IH. rewrite insert_by_perm, IH. reflexivity.
Qed.

Lemma ascending_cons k ks :
  ascending (k :: ks) = true <->
  (forall k', head ks = Some k' -> k <= k') /\ ascending ks = true.
Proof.
  destruct ks as [|k' ks]; simpl.
  - split; [split; [discriminate|reflexivity]|reflexivity].
  - rewrite andb_true_iff, Z.leb_le. split.
    + intros [Hle Hasc]. split; [intros ? [= <-]; exact Hle|exact Hasc].
    + intros [Hle Hasc]. split; [apply Hle; reflexivity|exact Hasc].
Qed.

Lemma insert_by_head x xs k :
  head (map key (insert_by key x xs)) = Some k ->
  k = key x \/ head (map key xs) = Some k.
Proof.
  destruct xs as [|y ys]; simpl.
  - intros [= <-]. left. reflexivity.
  - destruct (key x <=? key y); simpl; intros [= <-]; auto.
Qed.

Lemma insert_by_ascending x xs :
  ascending (map key xs) = true ->
  ascending (map key (insert_by key x xs)) = true.
Proof.
  induction xs as [|y ys IH]; [reflexivity|].
  intros Hasc. cbn [insert_by].
  destruct (key x <=? key y) eqn:Hle.
  - cbn [map]. apply ascending_cons. split; [|exact Hasc].
    intros k' [= <-]. apply Z.leb_le. exact Hle.
  - cbn [map] in *. apply ascending_cons in Hasc as [Hhead Hasc].
    apply ascending_cons. split; [|apply IH; exact Hasc].
    intros k' Hk'. apply insert_by_head in Hk' as [->|Hk'].
    + apply Z.leb_gt in Hle. lia.
    + apply Hhead. exact Hk'.
Qed.

Lemma sorted_by_ascending xs : ascending (map key (sorted_by key xs)) = true.
Proof.
  induction xs as [|x xs IH]; [reflexivity|].
  apply insert_by_ascending. exact IH.
Qed.

(** Among the elements of one key, the order of the input is kept. *)
Lemma insert_by_stable x xs k :
  ascending (map key xs) = true ->
  List.filter (fun a => key a =? k) (insert_by key x xs)
  = List.filter (fun a => key a =? k) (x :: xs).
Proof.
  induction xs as [|y ys IH]; [reflexivity|].
  intros Hasc. cbn [insert_by].
  destruct (key x <=? key y) eqn:Hle; [reflexivity|].
  cbn [map] in Hasc. apply ascending_cons in Hasc as [_ Hasc].
  cbn [List.filter]. rewrite (IH Hasc). cbn [List.filter].
  apply Z.leb_gt in Hle.
  destruct (key x =? k) eqn:Hx, (key y =? k) eqn:Hy; try reflexivity.
  apply Z.eqb_eq in Hx, Hy. lia.
Qed.

Lemma sorted_by_stable xs k :
  List.filter (fun a => key a =? k) (sorted_by key xs)
  = List.filter (fun a => key a =? k) xs.
Proof.
  induction xs as [|x xs IH]; [reflexivity|].
  change (sorted_by key (x :: xs)) with (insert_by key x (sorted_by key xs)).
  rewrite insert_by_stable by apply sorted_by_ascending.
  cbn [List.filter]. rewrite IH. reflexivity.
Qed.
End Sorting.

Section Strings.
Import Script.

Lemma lower_char_space c : isspace (lower_char c) = isspace c.
Proof. destruct c as [[] [] [] [] [] [] [] []]; reflexivity. Qed.

Lemma lower_char_n c : lower_char c = "n"%char -> c = "n"%char \/ c = "N"%char.
Proof.
  destruct c as [[] [] [] [] [] [] [] []]; vm_compute; intros H;
    try discriminate H; auto.
Qed.

Lemma lower_char_o c : lower_char c = "o"%char -> c = "o"%char \/ c = "O"%char.
Proof.
  destruct c as [[] [] [] [] [] [] [] []]; vm_compute; intros H;
    try discriminate H; auto.
Qed.

Lemma lstrip_lower s : lstrip (lower s) = lower (lstrip s).
Proof.
  induction s as [|c rest IH]; simpl; [reflexivity|].
  rewrite lower_char_space. destruct (isspace c); [exact IH|reflexivity].
Qed.

Lemma rstrip_lower s : rstrip (lower s) = lower (rstrip s).
Proof.
  induction s as [|c rest IH]; simpl; [reflexivity|].
  rewrite IH, lower_char_space.
  destruct (rstrip rest); simpl; [destruct (isspace c)|]; reflexivity.
Qed.

Lemma strip_lower s : strip (lower s) = lower (strip s).
Proof. unfold strip. rewrite lstrip_lower, rstrip_lower. reflexivity. Qed.

Lemma append_cons c s1 s2 : String c s1 +:+ s2 = String c (s1 +:+ s2).
Proof. reflexivity. Qed.

Lemma append_nil s : "" +:+ s = s.
Proof. reflexivity. Qed.

Lemma lstrip_split s : exists ws, s = ws +:+ lstrip s /\ blank ws = true.
Proof.
  induction s as [|c rest (ws & Heq & Hws)]; simpl.
  - exists "". auto.
  - destruct (isspace c) eqn:Hc.
    + exists (String c ws). simpl. rewrite append_cons, Hc, Hws, <- Heq. auto.
    + exists "". auto.
Qed.

Lemma rstrip_split s : exists ws, s = rstrip s +:+ ws /\ blank ws = true.
Proof.
  induction s as [|c rest (ws & Heq & Hws)]; simpl.
  - exists "". auto.
  - destruct (rstrip rest) as [|k kept] eqn:Hr.
    + rewrite append_nil in Heq. subst rest. destruct (isspace c) eqn:Hc.
      * exists (String c ws). simpl. rewrite Hc, Hws. auto.
      * exists ws. auto.
    + exists ws. rewrite append_cons, <- Heq. auto.
Qed.

Lemma lstrip_blank_app ws s : blank ws = true -> lstrip (ws +:+ s) = lstrip s.
Proof.
  induction ws as [|c ws IH]; simpl; [reflexivity|].
  intros H. apply andb_true_iff in H as [Hc Hws]. rewrite Hc. auto.
Qed.

Lemma rstrip_blank ws : blank ws = true -> rstrip ws = "".
Proof.
  induction ws as [|c ws IH]; simpl; [reflexivity|].
  intros H. apply andb_true_iff in H as [Hc Hws]. rewrite (IH Hws), Hc.
  reflexivity.
Qed.

Lemma rstrip_app_blank s ws : blank ws = true -> rstrip (s +:+ ws) = rstrip s.
Proof.
  intros Hws. induction s as [|c rest IH].
  - apply rstrip_blank. exact Hws.
  - rewrite append_cons. simpl. rewrite IH. reflexivity.
Qed.

Lemma lower_is_n s : lower s = "n" -> s = "n" \/ s = "N".
Proof.
  destruct s as [|c [|c' rest]]; simpl; try discriminate.
  intros [= Hc]. destruct (lower_char_n _ Hc) as [->| ->]; auto.
Qed.

Lemma lower_is_no s :
  lower s = "no" -> s = "no" \/ s = "No" \/ s = "nO" \/ s = "NO".
Proof.
  destruct s as [|c [|c' [|c'' rest]]]; simpl; try discriminate.
  intros [= Hc Hc'].
  destruct (lower_char_n _ Hc) as [->| ->],
           (lower_char_o _ Hc') as [->| ->]; auto.
Qed.

(** Line 18: the answers that abort are n and no, in any letter case and
    with any whitespace around, and no other. *)
Lemma says_no_spec answer :
  says_no answer = true <->
  exists ws1 core ws2,
    answer = ws1 +:+ core +:+ ws2
    /\ blank ws1 = true /\ blank ws2 = true
    /\ In core ["n"; "N"; "no"; "No"; "nO"; "NO"].
Proof.
  unfold says_no. rewrite strip_lower. split.
  - intros Hin.
    destruct (lstrip_split answer) as (ws1 & H1 & Hws1).
    destruct (rstrip_split (lstrip answer)) as (ws2 & H2 & Hws2).
    exists ws1, (strip answer), ws2.
    split; [|split; [exact Hws1|split; [exact Hws2|]]].
    + unfold strip. rewrite <- H2. exact H1.
    + simpl in Hin. apply orb_true_iff in Hin as [Hn|Hno].
      * apply String.eqb_eq, lower_is_n in Hn as [->| ->]; simpl; auto.
      * apply orb_true_iff in Hno as [Hno|[=]].
        apply String.eqb_eq, lower_is_no in Hno as [->|[->|[->| ->]]];
          simpl; auto 10.
  - intros (ws1 & core & ws2 & -> & Hws1 & Hws2 & Hcore).
    unfold strip. rewrite (lstrip_blank_app _ _ Hws1).
    assert (Hkeep : lstrip (core +:+ ws2) = core +:+ ws2).
    { destruct Hcore as [<-|[<-|[<-|[<-|[<-|[<-|[]]]]]]]; reflexivity. }
    rewrite Hkeep, (rstrip_app_blank _ _ Hws2).
    destruct Hcore as [<-|[<-|[<-|[<-|[<-|[<-|[]]]]]]]; reflexivity.
Qed.
End Strings.

End RuntimeFacts.

(* ===================================================================== *)
(** * More facts about abips.py                                            *)
(* ===================================================================== *)

Module CommandFacts.
Import Py Script Observe PyFacts ScriptFacts RuntimeFacts.
Local Open Scope py_scope.

Section Ending.
Context {World : Type} `{!OS World} `{!PsRepos World}.
Local Abbreviation M := (Py.M World Event).

Lemma well_ended_ret {A} (a : A) : well_ended (ret a : M A).
Proof. intros w. reflexivity. Qed.

Lemma well_ended_query {A} (f : World -> A) : well_ended (query f : M A).
Proof. intros w. reflexivity. Qed.

Lemma well_ended_emit ev : fatal ev = None -> well_ended (emit ev : M unit).
Proof. intros H w. simpl. rewrite H. reflexivity. Qed.

Lemma well_ended_call {A} (log : Res A -> Event) f :
  (forall out,
     fatal (log out) = match out with Ret _ => None | Raise e => Some e end) ->
  well_ended (call log f : M A).
Proof.
  intros H w. unfold call. destruct (f w) as [[a|e] w1]; simpl.
  - rewrite (H (Ret a)). reflexivity.
  - exists [], (log (Raise e)). rewrite (H (Raise e)). auto.
Qed.

Lemma well_ended_bind {A B} (m : M A) (k : A -> M B) :
  well_ended m -> (forall a, well_ended (k a)) -> well_ended (bind m k).
Proof.
  intros Hm Hk w. unfold bind. specialize (Hm w).
  destruct (m w) as [[t1 w1] [a|e]]; simpl in *; [|exact Hm].
  specialize (Hk a w1). destruct (k a w1) as [[t2 w2] [b|e]]; simpl in *.
  - rewrite omap_app, Hm, Hk. reflexivity.
  - destruct Hk as (before & ev & -> & Hev & Hbefore).
    exists (t1 ++ before), ev. rewrite app_assoc, omap_app, Hm, Hbefore. auto.
Qed.

Lemma well_ended_for {A} (xs : list A) (body : A -> M unit) :
  (forall x, well_ended (body x)) -> well_ended (for_ xs body).
Proof.
  intros H. induction xs as [|x xs IH]; simpl.
  - apply well_ended_ret.
  - apply well_ended_bind; auto.
Qed.

Lemma well_ended_comprehension {A B} (f : A -> M B) xs :
  (forall x, well_ended (f x)) -> well_ended (comprehension f xs).
Proof.
  intros H. induction xs as [|x xs IH]; simpl.
  - apply well_ended_ret.
  - apply well_ended_bind; [auto|]. intros y.
    apply well_ended_bind; [auto|]. intros ys. apply well_ended_ret.
Qed.

Lemma well_ended_comprehension_if {A} (cond : A -> M bool) xs :
  (forall x, well_ended (cond x)) -> well_ended (comprehension_if cond xs).
Proof.
  intros H. induction xs as [|x xs IH]; simpl.
  - apply well_ended_ret.
  - apply well_ended_bind; [auto|]. intros y.
    apply well_ended_bind; [auto|]. intros ys. apply well_ended_ret.
Qed.

Lemma well_ended_for_acc {A S} (xs : list A) (body : S -> A -> M S) acc :
  (forall s x, well_ended (body s x)) -> well_ended (for_acc xs body acc).
Proof.
  intros H. revert acc. induction xs as [|x xs IH]; intros acc; simpl.
  - apply well_ended_ret.
  - apply well_ended_bind; auto.
Qed.

(** Lines 13-18: only [EOFError] is caught. *)
Lemma well_ended_user_wants_to_abort : well_ended user_wants_to_abort.
Proof.
  intros w. rewrite user_wants_to_abort_run. simpl.
  destruct (input prompt w).1 as [answer|e]; simpl; [reflexivity|].
  destruct (is_EOFError e) eqn:He; simpl; [rewrite He; reflexivity|].
  exists [], (EvInput prompt (Raise e)). simpl. rewrite He. auto.
Qed.

(** Lines 64-67: only instances of [Exception] are caught. *)
Lemma well_ended_validate_one repo root v (acc : list PyExc) :
  well_ended
    (try_except is_Exception
       (call (EvValidateChecksums repo root v) (validate_checksums repo root v) ;;
        ret acc)
       (fun exc => ret (acc ++ [exc]))).
Proof.
  intros w. unfold try_except, bind, call, ret.
  destruct (validate_checksums repo root v w) as [[[]|e] w1]; simpl;
    [reflexivity|].
  destruct (is_Exception e) eqn:He; simpl; [rewrite He; reflexivity|].
  exists [], (EvValidateChecksums repo root v (Raise e)). simpl.
  rewrite He. auto.
Qed.

Ltac ended :=
  repeat first
    [ apply well_ended_ret | apply well_ended_query
    | apply well_ended_user_wants_to_abort
    | apply well_ended_validate_one
    | apply well_ended_emit; reflexivity
    | apply well_ended_call; intros []; reflexivity
    | apply well_ended_bind; [|intros ?]
    | apply well_ended_for; intros ?
    | apply well_ended_comprehension; intros ?
    | apply well_ended_comprehension_if; intros ?
    | apply well_ended_for_acc; intros ? ?
    | match goal with
      | |- well_ended (if ?b then _ else _) => destruct b
      | |- well_ended (match ?x with _ => _ end) => destruct x
      end ].

Lemma well_ended_abips_list options : well_ended (abips_list options).
Proof.
  unfold abips_list, abips_list_show, abips_list_checksums, validate_all,
    get_repos_root, print.
  ended.
Qed.

Lemma well_ended_abips_avail options : well_ended (abips_avail options).
Proof. unfold abips_avail, get_repos_root, print. ended. Qed.

Lemma well_ended_proceed announce options root repos :
  well_ended (proceed announce options root repos).
Proof.
  unfold proceed, declined, install_all, print.
  apply well_ended_bind; [ended|]. intros _.
  apply well_ended_bind; [ended|]. intros [|]; [ended|].
  destruct announce;
    repeat first
      [ apply well_ended_abips_list
      | apply well_ended_bind; [|intros ?]
      | apply well_ended_for; intros ?
      | apply well_ended_ret
      | apply well_ended_emit; reflexivity
      | apply well_ended_call; intros []; reflexivity ].
Qed.

Lemma well_ended_not_installed sel root repos :
  well_ended (not_installed sel root repos).
Proof. unfold not_installed, check_installed. ended. Qed.

Lemma well_ended_get_repos_root options : well_ended (get_repos_root options).
Proof. unfold get_repos_root. ended. Qed.

Lemma well_ended_abips_nc_get options : well_ended (abips_nc_get options).
Proof.
  unfold abips_nc_get.
  apply well_ended_bind; [apply well_ended_get_repos_root|]. intros root.
  apply well_ended_bind; [apply well_ended_not_installed|]. intros [|repo kept].
  - unfold print. ended.
  - apply well_ended_bind; [unfold print; ended|]. intros _.
    apply (well_ended_proceed
             (Some "Fetching NC repositories. It may take some time ...")).
Qed.

Lemma well_ended_abips_paw_get options : well_ended (abips_paw_get options).
Proof.
  unfold abips_paw_get.
  apply well_ended_bind; [apply well_ended_get_repos_root|]. intros root.
  apply well_ended_bind; [apply well_ended_not_installed|]. intros [|repo kept].
  - unfold print. ended.
  - apply well_ended_bind; [unfold print; ended|]. intros _.
    apply (well_ended_proceed
             (Some "Fetching PAW repositories. It may take some time ...")).
Qed.

Lemma well_ended_abips_get_byid options : well_ended (abips_get_byid options).
Proof.
  unfold abips_get_byid.
  apply well_ended_bind; [apply well_ended_get_repos_root|]. intros root.
  apply well_ended_bind; [ended|]. intros requested.
  apply well_ended_bind; [apply well_ended_not_installed|]. intros [|repo kept].
  - apply well_ended_bind; [unfold print; ended|]. intros _.
    apply well_ended_bind; [apply well_ended_abips_list|]. intros n. ended.
  - apply well_ended_bind; [unfold print; ended|]. intros _.
    apply (well_ended_proceed None).
Qed.

Lemma well_ended_abips_show options : well_ended (abips_show options).
Proof.
  unfold abips_show.
  apply well_ended_bind; [apply well_ended_get_repos_root|]. intros root.
  apply well_ended_bind; [ended|]. intros requested.
  apply well_ended_bind; [apply well_ended_not_installed|]. intros [|repo kept].
  - apply well_ended_bind; [unfold print; ended|]. intros _.
    apply well_ended_bind; [apply well_ended_abips_list|]. intros n. ended.
  - ended.
Qed.

Lemma command_well_ended (cmd : Options -> M Z) options :
  In cmd commands -> well_ended (cmd options).
Proof.
  intros [<-|[<-|[<-|[<-|[<-|[]]]]]].
  - apply well_ended_abips_list.
  - apply well_ended_abips_nc_get.
  - apply well_ended_abips_paw_get.
  - apply well_ended_abips_get_byid.
  - apply well_ended_abips_show.
Qed.

(** X1. A command raises exactly when a call it makes raised something
    the script does not catch, and that call is then the last thing the
    command did; a command that returns has met no such exception. The
    script catches [EOFError] at the prompt and instances of [Exception]
    around [validate_checksums], and nothing else. *)
Theorem commands_end_as_their_calls options w :
  (forall cmd,
     In cmd commands -> ends_as_called (cmd options w).1.1 (cmd options w).2)
  /\ ends_as_called (abips_avail options w).1.1 (abips_avail options w).2.
Proof.
  split; [|apply well_ended_abips_avail].
  intros cmd Hcmd. apply (command_well_ended cmd options Hcmd).
Qed.
End Ending.

Section Failing.
Context {World : Type} `{!OS World} `{!PsRepos World}.
Local Abbreviation M := (Py.M World Event).

Lemma fatal_event_is_last {A} (t : list Event) (r : Res A) ev e :
  ends_as_called t r -> In ev t -> fatal ev = Some e ->
  r = Raise e /\ exists before, t = before ++ [ev] /\ omap fatal before = [].
Proof.
  intros Hend Hin Hev.
  assert (Hnone : forall l, omap fatal l = [] -> ~ In ev l).
  { intros l Hl Hinl.
    assert (Hmem : e ∈ omap fatal l).
    { apply list_elem_of_omap. exists ev. rewrite list_elem_of_In. auto. }
    rewrite Hl in Hmem. inversion Hmem. }
  destruct r as [a|e']; simpl in Hend.
  - destruct (Hnone _ Hend Hin).
  - destruct Hend as (before & ev' & -> & Hev' & Hbefore).
    apply in_app_or in Hin as [Hin|[<-|[]]].
    + destruct (Hnone _ Hbefore Hin).
    + rewrite Hev in Hev'. injection Hev' as <-.
      split; [reflexivity|]. exists before. auto.
Qed.

Lemma install_failures_In (t : list Event) repo e :
  In (repo, e) (install_failures t) ->
  exists root v, In (EvInstall repo root v (Raise e)) t.
Proof.
  rewrite <- list_elem_of_In. unfold install_failures.
  rewrite list_elem_of_omap. intros (ev & Hin & Hev).
  rewrite list_elem_of_In in Hin.
  destruct ev as [| | | | | | | | | | |r rt v [[]|e']| |]; try discriminate Hev.
  injection Hev as <- <-. exists rt, v. exact Hin.
Qed.

Lemma install_failures_fatal (t : list Event) :
  omap fatal t = [] -> install_failures t = [].
Proof.
  induction t as [|ev t IH]; [reflexivity|].
  intros H. change (omap fatal (ev :: t))
    with (match fatal ev with
          | Some e => e :: omap fatal t
          | None => omap fatal t
          end) in H.
  destruct (fatal ev) eqn:Hf; [discriminate H|].
  destruct ev as [| | | | | | | | | | |r rt v [[]|e']| |];
    try exact (IH H).
  discriminate Hf.
Qed.

Lemma install_commands_are_commands (cmd : Options -> M Z) :
  In cmd install_commands -> In cmd commands.
Proof. intros [<-|[<-|[<-|[]]]]; simpl; auto. Qed.

(** X2. A call to [install] that raises ends the installing command with
    that exception at once: the failing call is the last thing the command
    did, so the repositories after it are not installed and the listing
    that follows a successful installation is not run. *)
Theorem failed_install_ends_the_command cmd options w repo e :
  In cmd install_commands ->
  In (repo, e) (install_failures (cmd options w).1.1) ->
  (cmd options w).2 = Raise e
  /\ exists before root v,
       (cmd options w).1.1 = before ++ [EvInstall repo root v (Raise e)]
       /\ install_failures before = [].
Proof.
  intros Hcmd Hin.
  destruct (install_failures_In _ _ _ Hin) as (root & v & Hev).
  pose proof (command_well_ended cmd options
                (install_commands_are_commands cmd Hcmd) w) as Hend.
  destruct (fatal_event_is_last _ _ _ e Hend Hev eq_refl)
    as (Hr & before & Ht & Hbefore).
  split; [exact Hr|]. exists before, root, v.
  split; [exact Ht|]. apply install_failures_fatal. exact Hbefore.
Qed.
End Failing.

Section ExitCodes.
Context {World : Type} `{!OS World} `{!PsRepos World}.
Local Abbreviation M := (Py.M World Event).

Lemma returns_in_ret {A} (S : A -> Prop) (a : A) :
  S a -> returns_in S (ret a : M A).
Proof. intros H w b [= <-]. exact H. Qed.

Lemma returns_in_bind {A B} (S : B -> Prop) (m : M A) (k : A -> M B) :
  (forall a, returns_in S (k a)) -> returns_in S (bind m k).
Proof.
  intros Hk w b. unfold bind. destruct (m w) as [[t1 w1] [a|e]]; simpl.
  - specialize (Hk a w1 b). destruct (k a w1) as [[t2 w2] r]. exact Hk.
  - discriminate.
Qed.

Ltac codes :=
  repeat first
    [ apply returns_in_bind; intros ?
    | apply returns_in_ret
    | match goal with
      | |- returns_in _ (if ?b then _ else _) => destruct b
      | |- returns_in _ (match ?x with _ => _ end) => destruct x
      end ].

Lemma abips_list_codes options :
  returns_in (fun v => 0 <= v) (abips_list options).
Proof. unfold abips_list, abips_list_checksums. codes; lia. Qed.

Lemma abips_nc_get_codes options :
  returns_in (fun v => v = 0 \/ v = 2) (abips_nc_get options).
Proof. unfold abips_nc_get. codes; auto. Qed.

Lemma abips_paw_get_codes options :
  returns_in (fun v => v = 0 \/ v = 2) (abips_paw_get options).
Proof. unfold abips_paw_get. codes; auto. Qed.

Lemma abips_get_byid_codes options :
  returns_in (fun v => v = 0 \/ v = 1 \/ v = 2) (abips_get_byid options).
Proof. unfold abips_get_byid. codes; auto. Qed.

Lemma abips_show_codes options :
  returns_in (fun v => v = 0 \/ v = 1) (abips_show options).
Proof. unfold abips_show. codes; auto. Qed.

(** X3. The exit codes. The list command returns a number that is not
    negative; [nc_get] and [paw_get] return 0 or 2, [get_byid] 0, 1 or 2
    and [show] 0 or 1: the count the list command returns at the end of an
    installing command is not passed on. *)
Theorem exit_codes options w :
  (forall v, (abips_list options w).2 = Ret v -> 0 <= v)
  /\ (forall v, (abips_nc_get options w).2 = Ret v -> v = 0 \/ v = 2)
  /\ (forall v, (abips_paw_get options w).2 = Ret v -> v = 0 \/ v = 2)
  /\ (forall v, (abips_get_byid options w).2 = Ret v -> v = 0 \/ v = 1 \/ v = 2)
  /\ (forall v, (abips_show options w).2 = Ret v -> v = 0 \/ v = 1).
Proof.
  split; [|split; [|split; [|split]]]; intros v.
  - apply (abips_list_codes options w v).
  - apply (abips_nc_get_codes options w v).
  - apply (abips_paw_get_codes options w v).
  - apply (abips_get_byid_codes options w v).
  - apply (abips_show_codes options w v).
Qed.
End ExitCodes.

Section Root.
Context {World : Type} `{!OS World} `{!PsRepos World}.
Local Abbreviation M := (Py.M World Event).

(** X4. [get_repos_root] returns [options.repos_root], and the root
    exists when it returns: it is left alone when it is there already and
    created with one [os.mkdir] otherwise. It raises only what that
    [os.mkdir] raised. *)
Theorem get_repos_root_ensures options w :
  mkdir_creates ->
  (forall t w' root,
     get_repos_root options w = (t, w', Ret root) ->
     root = repos_root options
     /\ os_path_exists root w' = true
     /\ mkdirs t = if os_path_exists root w then [] else [root])
  /\ (os_path_exists (repos_root options) w = true ->
      get_repos_root options w = ([], w, Ret (repos_root options)))
  /\ (forall t w' e,
        get_repos_root options w = (t, w', Raise e) ->
        os_path_exists (repos_root options) w = false
        /\ t = [EvMkdir (repos_root options) (Raise e)]).
Proof.
  intros Hmk. unfold get_repos_root, bind, query, call, ret.
  destruct (os_path_exists (repos_root options) w) eqn:Hex; simpl.
  - split; [|split; [reflexivity|discriminate]].
    intros t w' root [= <- <- <-]. rewrite Hex. auto.
  - destruct (os_mkdir (repos_root options) w) as [[[]|e] w1] eqn:Hm; simpl.
    + split; [|split; [discriminate|discriminate]].
      intros t w' root [= <- <- <-]. rewrite Hex.
      split; [reflexivity|]. split; [|reflexivity]. apply (Hmk _ _ _ Hm).
    + split; [discriminate|]. split; [discriminate|].
      intros t w' e' [= <- <- <-]. auto.
Qed.
End Root.

Section ListingShape.
Context {World : Type} `{!OS World} `{!PsRepos World}.
Local Abbreviation M := (Py.M World Event).

Lemma abips_list_show_empty options w t0 w0 root names w1 :
  get_repos_root options w = (t0, w0, Ret root) ->
  os_listdir root w0 = (Ret names, w1) ->
  directories_of root names w1 = [] ->
  abips_list_show options w
  = (t0 ++ [EvListdir root (Ret names);
            EvPrint ("Could not find any pseudopotential repository installed in:"
                     +:+ " " +:+ root)],
     w1, Ret None).
Proof.
  intros Hroot Hlist Hdirs. unfold abips_list_show.
  rewrite (run_bind _ _ _ _ _ _ Hroot). cbn [fst snd].
  assert (Hcall : call (Event:=Event) (EvListdir root) (os_listdir root) w0
                  = ([EvListdir root (Ret names)], w1, Ret names)).
  { unfold call. rewrite Hlist. reflexivity. }
  rewrite (run_bind _ _ _ _ _ _ Hcall). cbn [fst snd].
  rewrite (run_bind _ _ _ _ _ _ (isdir_filter_run root names w1)).
  cbn [fst snd]. unfold directories_of in Hdirs. rewrite Hdirs.
  reflexivity.
Qed.

(** X5. On a root that holds no directory the list command prints that
    it found no repository and returns 0, whatever the options: it calls
    neither [from_dirpath], [pprint_repos], [get_pseudos] nor
    [validate_checksums]. *)
Theorem list_of_a_root_without_directories options w t0 w0 root names w1 :
  get_repos_root options w = (t0, w0, Ret root) ->
  os_listdir root w0 = (Ret names, w1) ->
  directories_of root names w1 = [] ->
  abips_list options w
  = (t0 ++ [EvListdir root (Ret names);
            EvPrint ("Could not find any pseudopotential repository installed in:"
                     +:+ " " +:+ root)],
     w1, Ret 0).
Proof.
  intros Hroot Hlist Hdirs. unfold abips_list.
  rewrite (run_bind _ _ _ _ _ _
             (abips_list_show_empty _ _ _ _ _ _ _ Hroot Hlist Hdirs)).
  simpl. rewrite app_nil_r. reflexivity.
Qed.

Lemma get_repos_root_value options w t w' root :
  get_repos_root options w = (t, w', Ret root) ->
  root = repos_root options /\ Forall unlisting t /\ Forall tableless t.
Proof.
  intros Hrun. split; [|split].
  - unfold get_repos_root in Hrun.
    apply bind_inv in Hrun
      as [(e & _ & [=])|(t1 & w1 & present & t2 & _ & Hrun & ->)].
    apply bind_inv in Hrun
      as [(e & _ & [=])|(t3 & w3 & [] & t4 & _ & Hret & ->)].
    injection Hret as _ _ <-. reflexivity.
  - apply (emits_run unlisting _ _ _ _ _ Hrun).
    unfold get_repos_root. emits; exact I.
  - apply (emits_run tableless _ _ _ _ _ Hrun).
    apply get_repos_root_tableless.
Qed.

Lemma unlisting_silent (t : list Event) :
  Forall unlisting t -> returned_repos t = [] /\ listings t = [].
Proof.
  intros H. split; apply omap_silent; (eapply Forall_impl; [exact H|]);
    intros [] Hp; simpl in *; try reflexivity; contradiction.
Qed.

Lemma resolving_silent (t : list Event) :
  Forall resolving t -> listings t = [] /\ tables t = [].
Proof.
  intros H. split; apply omap_silent; (eapply Forall_impl; [exact H|]);
    intros [] Hp; simpl in *; try reflexivity; contradiction.
Qed.

(** Line 46, when every call returns. *)
Lemma from_dirpath_all_returned dirpaths w t w' repos :
  comprehension
    (fun dirpath => call (EvFromDirpath dirpath) (from_dirpath dirpath))
    dirpaths w = (t, w', Ret repos) ->
  returned_repos t = repos /\ Forall resolving t.
Proof.
  revert w t w' repos.
  induction dirpaths as [|dirpath dirpaths IH]; intros w t w' repos; simpl.
  - intros [= <- <- <-]. auto.
  - intros Hrun. apply bind_inv in Hrun
      as [(e & _ & [=])|(t1 & w1 & repo & t2 & Hc & Hrest & ->)].
    unfold call in Hc. destruct (from_dirpath dirpath w) as [out w0].
    injection Hc as <- <- ->.
    apply bind_inv in Hrest
      as [(e & _ & [=])|(t3 & w3 & rest & t4 & Hr & Hret & ->)].
    injection Hret as <- <- <-. destruct (IH _ _ _ _ Hr) as (Hrep & Hall).
    rewrite app_nil_r. simpl. rewrite Hrep. split; [reflexivity|].
    constructor; [exact I|exact Hall].
Qed.

(** Lines 52-55: the tables of the listing. *)
Lemma listing_tables_run root repos w t w' r :
  for_ repos (fun repo =>
    if ispaw repo then ret tt
    else
      pseudos <- call (EvGetPseudos repo root "standard")
                   (get_pseudos repo root "standard") ;;
      emit (EvPrintPseudos pseudos)) w = (t, w', r) ->
  tables t `prefix_of` standard_tables (without_paw repos)
  /\ (r = Ret tt -> tables t = standard_tables (without_paw repos))
  /\ Forall unlisting t.
Proof.
  revert w t w' r. induction repos as [|repo repos IH]; intros w t w' r.
  - intros [= <- <- <-]. split; [apply prefix_nil|]. split; [auto|constructor].
  - cbn [for_]. unfold without_paw. cbn [List.filter].
    intros Hrun. apply bind_inv in Hrun
      as [(e & Hb & ->)|(t1 & w1 & [] & t2 & Hb & Hrest & ->)];
      destruct (ispaw repo); cbn [negb].
    + discriminate Hb.
    + unfold bind, call, emit in Hb.
      destruct (get_pseudos repo root "standard" w) as [[tab|e'] w0];
        [discriminate Hb|]. injection Hb as <- <- <-.
      split; [exists (standard_tables (without_paw repos)); reflexivity|].
      split; [discriminate|]. repeat constructor.
    + injection Hb as <- <-. apply (IH _ _ _ _ Hrest).
    + unfold bind, call, emit in Hb.
      destruct (get_pseudos repo root "standard" w) as [[tab|e'] w0];
        [|discriminate Hb]. injection Hb as <- <-.
      destruct (IH _ _ _ _ Hrest) as (Hpre & Hall & Hun).
      rewrite tables_app. simpl.
      split; [apply prefix_cons; exact Hpre|].
      split; [intros Hr; rewrite (Hall Hr); reflexivity|].
      repeat constructor. exact Hun.
Qed.

(** What a listing that found repositories has done. *)
Lemma abips_list_show_some options w t w' root repos :
  abips_list_show options w = (t, w', Ret (Some (root, repos))) ->
  root = repos_root options
  /\ repos = sorted_by rid (returned_repos t)
  /\ listings t = [(repos, root)]
  /\ tables t
     = if verbose options =? 0 then []
       else standard_tables (without_paw repos).
Proof.
  intros Hrun. unfold abips_list_show in Hrun.
  apply bind_inv in Hrun
    as [(e & _ & [=])|(t0 & w0 & root0 & t1 & Hroot & Hrun & ->)].
  destruct (get_repos_root_value _ _ _ _ _ Hroot) as (Hr0 & Hu0 & Hq0).
  destruct (unlisting_silent _ Hu0) as (Hret0 & Hls0).
  pose proof (tableless_silent _ Hq0) as Htb0.
  apply bind_inv in Hrun
    as [(e & _ & [=])|(ta & wa & names & tb & Hls & Hrun & ->)].
  unfold call in Hls. destruct (os_listdir root0 w0) as [out w1].
  injection Hls as <- <- ->.
  apply bind_inv in Hrun
    as [(e & _ & [=])|(tf & wf & isdirs & tc & Hf & Hrun & ->)].
  rewrite isdir_filter_run in Hf. injection Hf as <- <- <-.
  destruct (map (os_path_join root0) _) as [|dirpath dirpaths].
  { apply bind_inv in Hrun
      as [(e & _ & [=])|(tp & wp & [] & tq & _ & Hret & ->)].
    discriminate Hret. }
  set (found := dirpath :: dirpaths) in *.
  apply bind_inv in Hrun
    as [(e & _ & [=])|(tp & wp & [] & tq & Hpr & Hrun & ->)].
  injection Hpr as <- <-.
  apply bind_inv in Hrun
    as [(e & _ & [=])|(t2 & w2 & repos0 & t3 & Hall & Hrun & ->)].
  destruct (from_dirpath_all_returned _ _ _ _ _ Hall) as (Hrep & Hres).
  destruct (resolving_silent _ Hres) as (Hls2 & Htb2).
  cbv zeta in Hrun.
  apply bind_inv in Hrun
    as [(e & _ & [=])|(t4 & w4 & [] & t5 & Hpp & Hrun & ->)].
  unfold call in Hpp.
  destruct (pprint_repos (sorted_by rid repos0) root0 w2) as [out4 w4'].
  injection Hpp as <- <- ->.
  apply bind_inv in Hrun
    as [(e & _ & [=])|(t6 & w6 & [] & t7 & Hv & Hret & ->)].
  injection Hret as <- <- <- <-.
  assert (Hv' : returned_repos t6 = [] /\ listings t6 = []
                /\ tables t6
                   = if verbose options =? 0 then []
                     else standard_tables (without_paw (sorted_by rid repos0))).
  { destruct (verbose options =? 0); cbn [negb] in Hv.
    - injection Hv as <- <-. auto.
    - destruct (listing_tables_run _ _ _ _ _ _ Hv) as (_ & Htab & Hun).
      destruct (unlisting_silent _ Hun) as (H1 & H2).
      rewrite (Htab eq_refl). auto. }
  destruct Hv' as (Hret6 & Hls6 & Htb6).
  assert (Hreturned :
            returned_repos
              (t0 ++ [EvListdir (repos_root options) (Ret names)] ++ [] ++
               [EvPrint
                  ("The following pseudopotential repositories are installed in "
                   +:+ repos_root options +:+ ":" +:+ nl)] ++
               t2 ++
               [EvPprintRepos (sorted_by rid repos0) (repos_root options)
                  (Ret tt)] ++ t6 ++ []) = repos0).
  { unfold returned_repos in *. rewrite !omap_app, Hret0, Hrep, Hret6.
    simpl. rewrite app_nil_r. reflexivity. }
  subst root0. rewrite Hreturned.
  split; [reflexivity|]. split; [reflexivity|]. split.
  - unfold listings in *. rewrite !omap_app, Hls0, Hls2, Hls6. reflexivity.
  - rewrite !tables_app, Htb0, Htb2, Htb6. simpl. rewrite app_nil_r.
    reflexivity.
Qed.

(** X6. What the list command displays is sorted by ID: the repositories
    it hands to [pprint_repos], once, are those [from_dirpath] returned,
    in ascending order of [rid], two repositories of the same [rid]
    staying in the order of the directory listing. *)
Theorem listing_is_sorted_by_id options w t w' root repos :
  abips_list_show options w = (t, w', Ret (Some (root, repos))) ->
  listings t = [(repos, root)]
  /\ ascending (map rid repos) = true
  /\ repos ≡ₚ returned_repos t
  /\ forall k,
       List.filter (fun repo => rid repo =? k) repos
       = List.filter (fun repo => rid repo =? k) (returned_repos t).
Proof.
  intros Hrun.
  destruct (abips_list_show_some _ _ _ _ _ _ Hrun) as (_ & -> & Hls & _).
  split; [exact Hls|]. split; [apply sorted_by_ascending|].
  split; [apply sorted_by_perm|]. intros k. apply sorted_by_stable.
Qed.

(** X7. The tables of the list command. Without [-v] it asks for no
    table; with [-v] it asks, in the order of the listing, for the table
    of every repository that is not PAW, at the accuracy [standard], and
    for no other. *)
Theorem listing_tables options w t w' root repos :
  abips_list_show options w = (t, w', Ret (Some (root, repos))) ->
  tables t
  = if verbose options =? 0 then []
    else standard_tables (without_paw repos).
Proof.
  intros Hrun.
  destruct (abips_list_show_some _ _ _ _ _ _ Hrun) as (_ & _ & _ & Htab).
  exact Htab.
Qed.
End ListingShape.

Section Checksums.
Context {World : Type} `{!OS World} `{!PsRepos World}.
Local Abbreviation M := (Py.M World Event).

Lemma unvalidating_silent (t : list Event) :
  Forall unvalidating t ->
  validated t = [] /\ failures t = [] /\ printed_excs t = [].
Proof.
  intros H. repeat split; apply omap_silent;
    (eapply Forall_impl; [exact H|]); intros [] Hp; simpl in *;
    try reflexivity; try contradiction.
Qed.

(** X8. Without [--checksums] the list command validates nothing: it
    never calls [validate_checksums], prints no exception, and returns 0
    whenever it returns. *)
Theorem list_without_checksums options w :
  checksums options = false ->
  validated (abips_list options w).1.1 = []
  /\ printed_excs (abips_list options w).1.1 = []
  /\ forall v, (abips_list options w).2 = Ret v -> v = 0.
Proof.
  intros Hc.
  assert (Hun : emits_only unvalidating (abips_list options)).
  { unfold abips_list, abips_list_show, abips_list_checksums, get_repos_root,
      print. rewrite Hc. simpl. emits; exact I. }
  destruct (unvalidating_silent _ (Hun w)) as (Hv & _ & Hp).
  split; [exact Hv|]. split; [exact Hp|].
  clear Hv Hp Hun. revert w.
  change (returns_in (fun v => v = 0) (abips_list options)).
  unfold abips_list, abips_list_checksums. rewrite Hc. simpl.
  apply returns_in_bind. intros [[root repos]|]; apply returns_in_ret;
    reflexivity.
Qed.

(** One round of the loop of lines 63-67, whatever the call raises. *)
Lemma validate_round options root repo (acc : list PyExc) w :
  try_except is_Exception
    (call (EvValidateChecksums repo root (verbose options))
       (validate_checksums repo root (verbose options)) ;;
     ret acc)
    (fun exc => ret (acc ++ [exc])) w
  = ([EvValidateChecksums repo root (verbose options)
        (validate_checksums repo root (verbose options) w).1],
     (validate_checksums repo root (verbose options) w).2,
     match (validate_checksums repo root (verbose options) w).1 with
     | Ret _ => Ret acc
     | Raise e => if is_Exception e then Ret (acc ++ [e]) else Raise e
     end).
Proof.
  unfold try_except, bind, call, ret.
  destruct (validate_checksums repo root (verbose options) w)
    as [[[]|e] w1]; simpl; [reflexivity|].
  destruct (is_Exception e); reflexivity.
Qed.

Lemma validate_loop_outcome options root repos :
  forall acc w t w' r,
    for_acc repos
      (fun exc_list repo =>
         try_except is_Exception
           (call (EvValidateChecksums repo root (verbose options))
              (validate_checksums repo root (verbose options)) ;;
            ret exc_list)
           (fun exc => ret (exc_list ++ [exc])))
      acc w = (t, w', r) ->
    Forall validating t
    /\ validated t `prefix_of` repos
    /\ match r with
       | Ret l =>
           l = acc ++ failures t /\ validated t = repos
           /\ Forall (fun e => is_Exception e = true) (failures t)
       | Raise e =>
           is_Exception e = false
           /\ exists before repo,
                t = before
                    ++ [EvValidateChecksums repo root (verbose options)
                          (Raise e)]
       end.
Proof.
  induction repos as [|repo repos IH]; intros acc w t w' r; simpl.
  - intros [= <- <- <-]. rewrite app_nil_r.
    split; [constructor|]. split; [apply prefix_nil|]. auto.
  - intros Hrun. apply bind_inv in Hrun
      as [(e & Hone & ->)|(t1 & w1 & acc' & t2 & Hone & Hrest & ->)];
      rewrite validate_round in Hone;
      destruct (validate_checksums repo root (verbose options) w)
        as [out w0]; simpl in Hone.
    + injection Hone as <- <- Hout.
      destruct out as [[]|e']; [discriminate Hout|].
      destruct (is_Exception e') eqn:He; [discriminate Hout|].
      injection Hout as <-.
      split; [repeat constructor|].
      split; [exists repos; reflexivity|]. split; [exact He|].
      exists [], repo. reflexivity.
    + injection Hone as <- <- Hout.
      destruct (IH _ _ _ _ _ Hrest) as (Hval & Hpre & Hr).
      split; [constructor; [exact I|exact Hval]|].
      split; [simpl; apply prefix_cons; exact Hpre|].
      destruct r as [l|e].
      * destruct Hr as (-> & Hv & Hexc). simpl. rewrite Hv.
        destruct out as [[]|e'].
        -- injection Hout as <-. auto.
        -- destruct (is_Exception e') eqn:He; [|discriminate Hout].
           injection Hout as <-. rewrite <- app_assoc.
           split; [reflexivity|]. split; [reflexivity|].
           constructor; assumption.
      * destruct Hr as (He & before & repo' & ->).
        split; [exact He|].
        exists (EvValidateChecksums repo root (verbose options) out :: before),
          repo'.
        reflexivity.
Qed.

Lemma validating_silent (t : list Event) :
  Forall validating t -> printed_excs t = [] /\ length (validated t) = length t.
Proof.
  induction 1 as [|ev t Hev _ (IH1 & IH2)]; [auto|].
  destruct ev; simpl in *; try contradiction. auto.
Qed.

Lemma report_observed (l : list PyExc) :
  printed_excs (report l) = l /\ validated (report l) = []
  /\ failures (report l) = [].
Proof.
  assert (H : forall l', printed_excs (map EvPrintExc l') = l'
                         /\ validated (map EvPrintExc l') = []
                         /\ failures (map EvPrintExc l') = []).
  { induction l' as [|e l' (IH1 & IH2 & IH3)]; simpl; [auto|].
    unfold printed_excs in *. simpl. rewrite IH1. auto. }
  destruct l as [|e l]; [auto|]. unfold report.
  destruct (H (e :: l)) as (H1 & H2 & H3).
  unfold printed_excs, validated, failures in *. simpl in *.
  rewrite H1, H2, H3. auto.
Qed.

Lemma failures_le_validated (t : list Event) :
  (length (failures t) <= length (validated t))%nat.
Proof.
  induction t as [|ev t IH]; [reflexivity|].
  destruct ev as [| | | | | | | | | | | |r rt v [[]|e]|]; simpl; lia.
Qed.

(** X9. The checksum phase of the list command, whatever
    [validate_checksums] raises. When it returns, every repository of the
    listing has been validated, every exception raised was an instance of
    [Exception] and has been printed, and the value returned is the number
    of these exceptions, between 0 and the number of repositories. It
    raises only what [except Exception] does not catch
    ([KeyboardInterrupt], [SystemExit]): the loop then stops at the failing
    call, the repositories after it are not validated and nothing of what
    was collected is printed. *)
Theorem checksum_loop_outcome options root repos w :
  checksums options = true ->
  match (abips_list_checksums options root repos w).2 with
  | Ret n =>
      validated (abips_list_checksums options root repos w).1.1 = repos
      /\ n = Z.of_nat
               (length
                  (failures (abips_list_checksums options root repos w).1.1))
      /\ 0 <= n <= Z.of_nat (length repos)
      /\ Forall (fun e => is_Exception e = true)
           (failures (abips_list_checksums options root repos w).1.1)
      /\ printed_excs (abips_list_checksums options root repos w).1.1
         = failures (abips_list_checksums options root repos w).1.1
  | Raise e =>
      is_Exception e = false
      /\ validated (abips_list_checksums options root repos w).1.1
         `prefix_of` repos
      /\ printed_excs (abips_list_checksums options root repos w).1.1 = []
      /\ exists before repo,
           (abips_list_checksums options root repos w).1.1
           = before
             ++ [EvValidateChecksums repo root (verbose options) (Raise e)]
  end.
Proof.
  intros Hc.
  destruct (abips_list_checksums options root repos w) as [[t w'] r] eqn:Hrun.
  simpl. unfold abips_list_checksums in Hrun. rewrite Hc in Hrun.
  simpl in Hrun. unfold validate_all in Hrun.
  apply bind_inv in Hrun
    as [(e & Hloop & ->)|(t1 & w1 & l & t2 & Hloop & Hrun & ->)];
    destruct (validate_loop_outcome _ _ _ _ _ _ _ _ Hloop)
      as (Hval & Hpre & Hr);
    destruct (validating_silent _ Hval) as (Hpr & Hlen).
  - destruct Hr as (He & Hlast). auto.
  - destruct Hr as (Hl & Hv & Hexc). simpl in Hl. subst l.
    apply bind_inv in Hrun
      as [(e & Hrep & _)|(t3 & w3 & [] & t4 & Hrep & Hret & ->)];
      fold (print (World:=World)) in Hrep; unfold print in Hrep;
      rewrite report_run in Hrep; [discriminate Hrep|].
    injection Hrep as <- <-. injection Hret as <- <- <-.
    destruct (report_observed (failures t1)) as (Hp2 & Hv2 & Hf2).
    assert (Hf : failures (t1 ++ report (failures t1) ++ []) = failures t1).
    { unfold failures in *. rewrite !omap_app, Hf2. simpl.
      rewrite app_nil_r. reflexivity. }
    assert (Hvd : validated (t1 ++ report (failures t1) ++ []) = repos).
    { unfold validated in *. rewrite !omap_app, Hv2, Hv. simpl.
      rewrite app_nil_r. reflexivity. }
    rewrite Hf, Hvd. split; [reflexivity|]. split; [reflexivity|].
    split.
    + pose proof (failures_le_validated t1) as Hle. rewrite Hv in Hle. lia.
    + split; [exact Hexc|].
      unfold printed_excs in *. rewrite !omap_app, Hpr, Hp2. simpl.
      rewrite app_nil_r. reflexivity.
Qed.
End Checksums.

Section Selecting.
Context {World : Type} `{!OS World} `{!PsRepos World}.
Local Abbreviation M := (Py.M World Event).

Lemma checked_app (t1 t2 : list Event) :
  checked (t1 ++ t2) = checked t1 ++ checked t2.
Proof. apply omap_app. Qed.

Lemma asked_app (t1 t2 : list Event) :
  asked (t1 ++ t2) = asked t1 ++ asked t2.
Proof. apply omap_app. Qed.

Lemma unselecting_silent (t : list Event) :
  Forall unselecting t -> checked t = [] /\ asked t = [].
Proof.
  intros H. split; apply omap_silent; (eapply Forall_impl; [exact H|]);
    intros [] Hp; simpl in *; try reflexivity; contradiction.
Qed.

Lemma found_missing_checked (t : list Event) :
  found_missing t `sublist_of` checked t.
Proof.
  induction t as [|ev t IH]; [constructor|].
  destruct ev as [| | | | | | | | | |r rt [[|]|e]| | |]; simpl;
    try exact IH; constructor; exact IH.
Qed.

Lemma prefix_is_sublist {A} (l1 l2 : list A) :
  l1 `prefix_of` l2 -> l1 `sublist_of` l2.
Proof. intros [k ->]. apply sublist_inserts_r. reflexivity. Qed.

Lemma filter_is_sublist {A} (f : A -> bool) (l : list A) :
  List.filter f l `sublist_of` l.
Proof.
  induction l as [|x l IH]; simpl; [constructor|].
  destruct (f x); constructor; exact IH.
Qed.

Lemma filter_all {A} (l : list A) : List.filter (fun _ => true) l = l.
Proof. induction l as [|x l IH]; simpl; [|rewrite IH]; reflexivity. Qed.

(** Lines 92, 114, 138 and 161: [is_installed] is asked of the
    repositories the command selects, in order. *)
Lemma not_installed_checked sel root repos w t w' r :
  not_installed sel root repos w = (t, w', r) ->
  checked t `prefix_of` List.filter sel repos
  /\ (is_Ret r = true -> checked t = List.filter sel repos)
  /\ asked t = [].
Proof.
  intros Hrun. split; [|split].
  - revert w t w' r Hrun. unfold not_installed.
    induction repos as [|repo repos IH]; intros w t w' r; simpl.
    + intros [= <- <- <-]. apply prefix_nil.
    + intros Hrun. apply bind_inv in Hrun
        as [(e & Hc & ->)|(t1 & w1 & keep & t2 & Hc & Hrest & ->)];
        destruct (sel repo).
      * unfold bind, check_installed, call, ret in Hc.
        destruct (is_installed repo root w) as [[b|e'] w0];
          [discriminate Hc|]. injection Hc as <- <- _.
        exists (List.filter sel repos). reflexivity.
      * discriminate Hc.
      * unfold bind, check_installed, call, ret in Hc.
        destruct (is_installed repo root w) as [[b|e'] w0];
          [|discriminate Hc]. injection Hc as <- <- _.
        apply bind_inv in Hrest
          as [(e & Hr & ->)|(t3 & w3 & ys & t4 & Hr & Hret & ->)];
          [|injection Hret as <- <- _; rewrite app_nil_r];
          simpl; apply prefix_cons; apply (IH _ _ _ _ Hr).
      * injection Hc as <- <- _.
        apply bind_inv in Hrest
          as [(e & Hr & ->)|(t3 & w3 & ys & t4 & Hr & Hret & ->)];
          [|injection Hret as <- <- _; rewrite app_nil_r];
          simpl; apply (IH _ _ _ _ Hr).
  - revert w t w' r Hrun. unfold not_installed.
    induction repos as [|repo repos IH]; intros w t w' r; simpl.
    + intros [= <- <- <-]. reflexivity.
    + intros Hrun Hret. apply bind_inv in Hrun
        as [(e & Hc & ->)|(t1 & w1 & keep & t2 & Hc & Hrest & ->)];
        [discriminate Hret|].
      apply bind_inv in Hrest
        as [(e & Hr & ->)|(t3 & w3 & ys & t4 & Hr & Hfin & ->)];
        [discriminate Hret|].
      injection Hfin as <- <- _. rewrite app_nil_r, checked_app.
      rewrite (IH _ _ _ _ Hr eq_refl).
      destruct (sel repo).
      * unfold bind, check_installed, call, ret in Hc.
        destruct (is_installed repo root w) as [[b|e'] w0];
          [|discriminate Hc]. injection Hc as <- <- _. reflexivity.
      * injection Hc as <- <- _. reflexivity.
  - apply omap_silent.
    apply (emits_run
             (fun ev => match ev with
                        | EvReposFromIdList _ (Ret l) => Some l
                        | _ => None
                        end = None) _ _ _ _ _ Hrun).
    unfold not_installed, check_installed. emits; reflexivity.
Qed.

Ltac unfold_commands :=
  unfold print, proceed, declined, user_wants_to_abort, install_all,
    abips_list, abips_list_show, abips_list_checksums, validate_all,
    get_repos_root.

Lemma get_repos_root_unselecting options :
  emits_only unselecting (get_repos_root options).
Proof. unfold get_repos_root. emits; exact I. Qed.

Lemma select_by_kind (sel : PseudosRepo -> bool) options
    (rest : string -> list PseudosRepo -> M Z) w :
  (forall root kept, emits_only unselecting (rest root kept)) ->
  checked
    ((root <- get_repos_root options ;;
      repos <- not_installed sel root ALL_REPOS ;;
      rest root repos) w).1.1
  `prefix_of` List.filter sel ALL_REPOS.
Proof.
  intros Hrest.
  destruct ((root <- get_repos_root options ;;
             repos <- not_installed sel root ALL_REPOS ;;
             rest root repos) w) as [[t w'] r] eqn:Hrun. simpl.
  apply bind_inv in Hrun
    as [(e & Hroot & ->)|(t0 & w0 & root & t1 & Hroot & Hrun & ->)];
    destruct (unselecting_silent _
                (emits_run unselecting _ _ _ _ _ Hroot
                   (get_repos_root_unselecting options))) as (Hc0 & _).
  { rewrite Hc0. apply prefix_nil. }
  apply bind_inv in Hrun
    as [(e & Hsel & ->)|(t2 & w2 & kept & t3 & Hsel & Hrun & ->)];
    destruct (not_installed_checked _ _ _ _ _ _ _ Hsel) as (Hpre & Hall & _).
  { rewrite checked_app, Hc0. exact Hpre. }
  destruct (unselecting_silent _
              (emits_run unselecting _ _ _ _ _ Hrun (Hrest root kept)))
    as (Hc3 & _).
  rewrite !checked_app, Hc0, Hc3, app_nil_r. exact Hpre.
Qed.

Lemma installs_within (sel : PseudosRepo -> bool) (t : list Event) r :
  install_discipline t r ->
  checked t `prefix_of` List.filter sel ALL_REPOS ->
  Forall (fun repo => sel repo = true /\ In repo ALL_REPOS) (installs t)
  /\ (NoDup ALL_REPOS -> NoDup (installs t)).
Proof.
  intros (Hpre & _) Hchecked.
  assert (Hsub : installs t `sublist_of` List.filter sel ALL_REPOS).
  { etransitivity; [apply prefix_is_sublist; exact Hpre|].
    etransitivity; [apply found_missing_checked|].
    apply prefix_is_sublist. exact Hchecked. }
  split.
  - apply List.Forall_forall. intros repo Hin.
    apply list_elem_of_In in Hin.
    apply (elem_of_sublist _ _ _ Hin) in Hsub.
    apply list_elem_of_In, filter_In in Hsub as [H1 H2]. auto.
  - intros Hnd. eapply sublist_NoDup; [|exact Hsub].
    eapply sublist_NoDup; [exact Hnd|apply filter_is_sublist].
Qed.

(** X10. [nc_get] works on the NC repositories of the catalog and
    [paw_get] on its PAW repositories: [is_installed] is asked of them
    only, in catalog order, and every repository installed is such a
    repository of the catalog, each at most once when the catalog lists
    none twice. *)
Theorem get_commands_select_by_kind options w :
  (checked (abips_nc_get options w).1.1 `prefix_of` List.filter isnc ALL_REPOS
   /\ Forall (fun repo => isnc repo = true /\ In repo ALL_REPOS)
        (installs (abips_nc_get options w).1.1)
   /\ (NoDup ALL_REPOS -> NoDup (installs (abips_nc_get options w).1.1)))
  /\ (checked (abips_paw_get options w).1.1
        `prefix_of` List.filter ispaw ALL_REPOS
      /\ Forall (fun repo => ispaw repo = true /\ In repo ALL_REPOS)
           (installs (abips_paw_get options w).1.1)
      /\ (NoDup ALL_REPOS -> NoDup (installs (abips_paw_get options w).1.1))).
Proof.
  assert (Hnc : checked (abips_nc_get options w).1.1
                `prefix_of` List.filter isnc ALL_REPOS).
  { apply (select_by_kind isnc options
             (fun root repos =>
                match repos with
                | [] =>
                    print
                      ("All registered NC repositories are already installed in "
                       +:+ root +:+ ". Returning") ;;
                    ret 0
                | _ =>
                    print ("The following NC repositories will be installed:"
                           +:+ nl) ;;
                    proceed
                      (Some "Fetching NC repositories. It may take some time ...")
                      options root repos
                end)).
    intros root kept. unfold_commands. emits; exact I. }
  assert (Hpaw : checked (abips_paw_get options w).1.1
                 `prefix_of` List.filter ispaw ALL_REPOS).
  { apply (select_by_kind ispaw options
             (fun root repos =>
                match repos with
                | [] =>
                    print
                      ("All registered PAW repositories are already installed in "
                       +:+ root +:+ ". Returning") ;;
                    ret 0
                | _ =>
                    print "The following PAW repositories will be installed:" ;;
                    proceed
                      (Some "Fetching PAW repositories. It may take some time ...")
                      options root repos
                end)).
    intros root kept. unfold_commands. emits; exact I. }
  split.
  - split; [exact Hnc|].
    apply (installs_within isnc _ (abips_nc_get options w).2);
      [apply abips_nc_get_discipline|exact Hnc].
  - split; [exact Hpaw|].
    apply (installs_within ispaw _ (abips_paw_get options w).2);
      [apply abips_paw_get_discipline|exact Hpaw].
Qed.

(** What [get_byid] and [show] do with the list of ids. *)
Lemma select_by_id options (rest : string -> list PseudosRepo -> M Z) w :
  (forall root kept, emits_only unselecting (rest root kept)) ->
  match asked
          ((root <- get_repos_root options ;;
            repos <- call (EvReposFromIdList (id_list options))
                       (repos_from_id_list (id_list options)) ;;
            repos <- not_installed (fun _ => true) root repos ;;
            rest root repos) w).1.1 with
  | [] =>
      checked
        ((root <- get_repos_root options ;;
          repos <- call (EvReposFromIdList (id_list options))
                     (repos_from_id_list (id_list options)) ;;
          repos <- not_installed (fun _ => true) root repos ;;
          rest root repos) w).1.1 = []
  | [requested] =>
      checked
        ((root <- get_repos_root options ;;
          repos <- call (EvReposFromIdList (id_list options))
                     (repos_from_id_list (id_list options)) ;;
          repos <- not_installed (fun _ => true) root repos ;;
          rest root repos) w).1.1 `prefix_of` requested
  | _ => False
  end.
Proof.
  intros Hrest.
  destruct ((root <- get_repos_root options ;;
             repos <- call (EvReposFromIdList (id_list options))
                        (repos_from_id_list (id_list options)) ;;
             repos <- not_installed (fun _ => true) root repos ;;
             rest root repos) w) as [[t w'] r] eqn:Hrun. simpl.
  apply bind_inv in Hrun
    as [(e & Hroot & ->)|(t0 & w0 & root & t1 & Hroot & Hrun & ->)];
    destruct (unselecting_silent _
                (emits_run unselecting _ _ _ _ _ Hroot
                   (get_repos_root_unselecting options))) as (Hc0 & Ha0).
  { rewrite Ha0. exact Hc0. }
  apply bind_inv in Hrun
    as [(e & Hids & ->)|(ta & wa & requested & tb & Hids & Hrun & ->)];
    unfold call in Hids;
    destruct (repos_from_id_list (id_list options) w0) as [out wb];
    injection Hids as <- <- ->.
  { rewrite asked_app, checked_app, Ha0, Hc0. reflexivity. }
  apply bind_inv in Hrun
    as [(e & Hsel & ->)|(t2 & w2 & kept & t3 & Hsel & Hrun & ->)];
    destruct (not_installed_checked _ _ _ _ _ _ _ Hsel) as (Hpre & _ & Ha2);
    rewrite filter_all in Hpre.
  { rewrite !asked_app, !checked_app, Ha0, Hc0, Ha2. exact Hpre. }
  destruct (unselecting_silent _
              (emits_run unselecting _ _ _ _ _ Hrun (Hrest root kept)))
    as (Hc3 & Ha3).
  rewrite !asked_app, !checked_app, Ha0, Hc0, Ha2, Ha3, Hc3.
  simpl. rewrite app_nil_r. exact Hpre.
Qed.

(** X11. [get_byid] and [show] call [repos_from_id_list] at most once,
    on [options.id_list], and work on what it returned: [is_installed] is
    asked of those repositories only, in that order, and not at all when
    the call raised; [get_byid] installs none but repositories it asked
    about, and [show] neither installs nor reads the terminal. *)
Theorem id_commands_work_on_the_request options w :
  (match asked (abips_get_byid options w).1.1 with
   | [] => checked (abips_get_byid options w).1.1 = []
   | [requested] =>
       checked (abips_get_byid options w).1.1 `prefix_of` requested
   | _ => False
   end
   /\ installs (abips_get_byid options w).1.1
      `sublist_of` checked (abips_get_byid options w).1.1)
  /\ (match asked (abips_show options w).1.1 with
      | [] => checked (abips_show options w).1.1 = []
      | [requested] =>
          checked (abips_show options w).1.1 `prefix_of` requested
      | _ => False
      end
      /\ installs (abips_show options w).1.1 = []
      /\ prompts (abips_show options w).1.1 = []).
Proof.
  split; split.
  - apply (select_by_id options
             (fun root repos =>
                match repos with
                | [] =>
                    print "Tables are already installed!" ;;
                    abips_list options ;;
                    ret 1
                | _ =>
                    print
                      "The following pseudopotential repositories will be installed:" ;;
                    proceed None options root repos
                end)).
    intros root kept. unfold_commands. emits; exact I.
  - destruct (abips_get_byid_discipline options w) as ((Hpre & _) & _).
    etransitivity; [apply prefix_is_sublist; exact Hpre|].
    apply found_missing_checked.
  - apply (select_by_id options
             (fun root repos =>
                match repos with
                | [] =>
                    print "Tables are already installed!" ;;
                    abips_list options ;;
                    ret 1
                | _ =>
                    for_ repos (fun repo =>
                      emit (EvPrintRepo repo) ;;
                      pseudos <- call (EvGetPseudos repo root "standard")
                                   (get_pseudos repo root "standard") ;;
                      emit (EvPrintPseudos pseudos)) ;;
                    ret 0
                end)).
    intros root kept. unfold_commands. emits; exact I.
  - assert (Hun : emits_only
                    (fun ev => match ev with
                               | EvInstall _ _ _ _ | EvInput _ _ => False
                               | _ => True
                               end) (abips_show options)).
    { unfold abips_show, not_installed, check_installed. unfold_commands.
      emits; exact I. }
    split; apply omap_silent; (eapply Forall_impl; [exact (Hun w)|]);
      intros [] Hp; simpl in *; try reflexivity; contradiction.
Qed.
End Selecting.

Section Composing.
Context {World : Type} `{!OS World} `{!PsRepos World}.
Local Abbreviation M := (Py.M World Event).

Lemma run_then {A B} (m : M A) (k : A -> M B) w t1 w1 a t2 w2 r :
  m w = (t1, w1, Ret a) -> k a w1 = (t2, w2, r) ->
  bind m k w = (t1 ++ t2, w2, r).
Proof. intros E1 E2. rewrite (run_bind _ _ _ _ _ _ E1), E2. reflexivity. Qed.

Lemma proceed_success announce options root repos w1 w2 td w3 ti w4 tl w5 n :
  pprint_repos repos root w1 = (Ret tt, w2) ->
  declined options w2 = (td, w3, Ret false) ->
  install_all options root repos w3 = (ti, w4, Ret tt) ->
  abips_list options w4 = (tl, w5, Ret n) ->
  proceed announce options root repos w1
  = ([EvPprintRepos repos root (Ret tt)] ++ td
     ++ match announce with Some line => [EvPrint line] | None => [] end
     ++ ti ++ tl,
     w5, Ret 0).
Proof.
  intros Hpp Hd Hi Hl. unfold proceed.
  assert (Hcall : call (Event:=Event) (EvPprintRepos repos root)
                    (pprint_repos repos root) w1
                  = ([EvPprintRepos repos root (Ret tt)], w2, Ret tt)).
  { unfold call. rewrite Hpp. reflexivity. }
  assert (Hgo : (install_all options root repos ;; abips_list options ;; ret 0)
                  w3 = (ti ++ tl, w5, Ret 0)).
  { eapply run_then; [exact Hi|].
    rewrite <- (app_nil_r tl). eapply run_then; [exact Hl|reflexivity]. }
  eapply run_then; [exact Hcall|].
  eapply run_then; [exact Hd|]. cbn match.
  destruct announce as [line|].
  - eapply (run_then (print line) _ w3 [EvPrint line] w3 tt);
      [reflexivity|exact Hgo].
  - exact Hgo.
Qed.

(** X12. An installing command that has something to install, gets
    consent and meets no exception does, in this order: the selection, the
    announcement and [pprint_repos] of what will be installed, the
    question, the installations, and the list command, run in the world
    the installations left. It then returns 0 whatever the list command
    returned. *)
Theorem installing_then_listing options w t0 w0 root t1 w1 repo kept
    w2 td w3 ti w4 tl w5 n :
  get_repos_root options w = (t0, w0, Ret root) ->
  pprint_repos (repo :: kept) root w1 = (Ret tt, w2) ->
  declined options w2 = (td, w3, Ret false) ->
  install_all options root (repo :: kept) w3 = (ti, w4, Ret tt) ->
  abips_list options w4 = (tl, w5, Ret n) ->
  (not_installed isnc root ALL_REPOS w0 = (t1, w1, Ret (repo :: kept)) ->
   abips_nc_get options w
   = (t0 ++ t1
      ++ [EvPrint ("The following NC repositories will be installed:" +:+ nl);
          EvPprintRepos (repo :: kept) root (Ret tt)]
      ++ td
      ++ [EvPrint "Fetching NC repositories. It may take some time ..."]
      ++ ti ++ tl,
      w5, Ret 0))
  /\ (not_installed ispaw root ALL_REPOS w0 = (t1, w1, Ret (repo :: kept)) ->
      abips_paw_get options w
      = (t0 ++ t1
         ++ [EvPrint "The following PAW repositories will be installed:";
             EvPprintRepos (repo :: kept) root (Ret tt)]
         ++ td
         ++ [EvPrint "Fetching PAW repositories. It may take some time ..."]
         ++ ti ++ tl,
         w5, Ret 0))
  /\ (forall tr wr requested,
        call (EvReposFromIdList (id_list options))
          (repos_from_id_list (id_list options)) w0
        = (tr, wr, Ret requested) ->
        not_installed (fun _ => true) root requested wr
        = (t1, w1, Ret (repo :: kept)) ->
        abips_get_byid options w
        = (t0 ++ tr ++ t1
           ++ [EvPrint
                 "The following pseudopotential repositories will be installed:";
               EvPprintRepos (repo :: kept) root (Ret tt)]
           ++ td ++ ti ++ tl,
           w5, Ret 0)).
Proof.
  intros Hroot Hpp Hd Hi Hl.
  split; [|split].
  - intros Hsel. unfold abips_nc_get.
    eapply run_then; [exact Hroot|].
    eapply run_then; [exact Hsel|]. cbn match.
    pose proof (proceed_success
                  (Some "Fetching NC repositories. It may take some time ...")
                  _ _ _ _ _ _ _ _ _ _ _ _ Hpp Hd Hi Hl) as Hgo.
    eapply (run_then (print _) _ w1 [EvPrint _] w1 tt);
      [reflexivity|exact Hgo].
  - intros Hsel. unfold abips_paw_get.
    eapply run_then; [exact Hroot|].
    eapply run_then; [exact Hsel|]. cbn match.
    pose proof (proceed_success
                  (Some "Fetching PAW repositories. It may take some time ...")
                  _ _ _ _ _ _ _ _ _ _ _ _ Hpp Hd Hi Hl) as Hgo.
    eapply (run_then (print _) _ w1 [EvPrint _] w1 tt);
      [reflexivity|exact Hgo].
  - intros tr wr requested Hids Hsel. unfold abips_get_byid.
    eapply run_then; [exact Hroot|].
    eapply run_then; [exact Hids|].
    eapply run_then; [exact Hsel|]. cbn match.
    pose proof (proceed_success None
                  _ _ _ _ _ _ _ _ _ _ _ _ Hpp Hd Hi Hl) as Hgo.
    eapply (run_then (print _) _ w1 [EvPrint _] w1 tt);
      [reflexivity|exact Hgo].
Qed.

(** X13. The avail command prints its header before anything else, also
    when the root cannot be created, and hands the whole catalog to
    [pprint_repos] once the root is there; it asks [is_installed] of no
    repository by itself, installs nothing, validates nothing and never
    reads the terminal. *)
Theorem avail_shows_the_catalog options w :
  (exists rest,
     (abips_avail options w).1.1
     = EvPrint ("List of available pseudopotential repositories:" +:+ nl)
       :: rest)
  /\ (forall t0 w0 root,
        get_repos_root options w = (t0, w0, Ret root) ->
        listings (abips_avail options w).1.1 = [(ALL_REPOS, root)])
  /\ ((abips_avail options w).2 = Ret tt ->
      listings (abips_avail options w).1.1
      = [(ALL_REPOS, repos_root options)])
  /\ checked (abips_avail options w).1.1 = []
  /\ installs (abips_avail options w).1.1 = []
  /\ prompts (abips_avail options w).1.1 = []
  /\ validated (abips_avail options w).1.1 = [].
Proof.
  assert (Hshape :
    forall t0 w0 root,
      get_repos_root options w = (t0, w0, Ret root) ->
      (abips_avail options w).1.1
      = EvPrint ("List of available pseudopotential repositories:" +:+ nl)
        :: t0 ++ [EvPprintRepos ALL_REPOS root
                    (pprint_repos ALL_REPOS root w0).1]).
  { intros t0 w0 root Hroot. unfold abips_avail, print.
    unfold bind at 1, emit at 1. rewrite (run_bind _ _ _ _ _ _ Hroot).
    cbn [fst snd]. unfold call.
    destruct (pprint_repos ALL_REPOS root w0) as [out w1]. reflexivity. }
  assert (Hlist :
    forall t0 w0 root,
      get_repos_root options w = (t0, w0, Ret root) ->
      listings (abips_avail options w).1.1 = [(ALL_REPOS, root)]).
  { intros t0 w0 root Hroot. rewrite (Hshape _ _ _ Hroot).
    destruct (get_repos_root_value _ _ _ _ _ Hroot) as (_ & Hu & _).
    destruct (unlisting_silent _ Hu) as (_ & Hl0).
    unfold listings in *. simpl. rewrite omap_app, Hl0. reflexivity. }
  split; [|split; [exact Hlist|split]].
  - unfold abips_avail, print. unfold bind at 1, emit at 1.
    destruct ((root <- get_repos_root options ;;
               call (EvPprintRepos ALL_REPOS root)
                 (pprint_repos ALL_REPOS root)) w) as [[t1 w1] r1].
    simpl. eexists. reflexivity.
  - intros Hret.
    destruct (get_repos_root options w) as [[t0 w0] [root|e]] eqn:Hroot.
    + destruct (get_repos_root_value _ _ _ _ _ Hroot) as (<- & _).
      apply (Hlist _ _ _ eq_refl).
    + exfalso. revert Hret. unfold abips_avail, print.
      unfold bind at 1, emit at 1.
      rewrite (run_bind_raise _ _ _ _ _ _ Hroot). discriminate.
  - assert (Hpas : emits_only passive (abips_avail options)).
    { unfold abips_avail, print, get_repos_root. emits; exact I. }
    assert (Hunv : emits_only unvalidating (abips_avail options)).
    { unfold abips_avail, print, get_repos_root. emits; exact I. }
    assert (Huns : emits_only unselecting (abips_avail options)).
    { unfold abips_avail, print, get_repos_root. emits; exact I. }
    destruct (passive_silent _ (Hpas w)) as (Hi & _ & Hp).
    destruct (unvalidating_silent _ (Hunv w)) as (Hv & _).
    destruct (unselecting_silent _ (Huns w)) as (Hc & _).
    auto.
Qed.
End Composing.

Section Asking.
Context {World : Type} `{!OS World} `{!PsRepos World}.
Local Abbreviation M := (Py.M World Event).

(** X17. [user_wants_to_abort] reads the terminal once. It returns
    [True] exactly when the answer is n or no, in any letter case and with
    any whitespace around; it returns [False] when the terminal is closed
    ([EOFError]), and any other exception of [input] leaves it
    unchanged. *)
Theorem abort_answers w :
  (user_wants_to_abort w).1.1 = [EvInput prompt (input prompt w).1]
  /\ (user_wants_to_abort w).1.2 = (input prompt w).2
  /\ ((user_wants_to_abort w).2 = Ret true
      <-> exists ws1 core ws2,
            (input prompt w).1 = Ret (ws1 +:+ core +:+ ws2)
            /\ blank ws1 = true /\ blank ws2 = true
            /\ In core ["n"; "N"; "no"; "No"; "nO"; "NO"])
  /\ ((input prompt w).1 = Raise EOFError ->
      (user_wants_to_abort w).2 = Ret false)
  /\ (forall e,
        (user_wants_to_abort w).2 = Raise e
        <-> (input prompt w).1 = Raise e /\ e <> EOFError).
Proof.
  unfold user_wants_to_abort, try_except, bind, call, ret.
  destruct (input prompt w) as [[answer|e] w1]; cbn [fst snd].
  - split; [reflexivity|]. split; [reflexivity|]. split; [|split].
    + change (str_in (strip (lower answer)) ["n"; "no"])
        with (says_no answer).
      split.
      * intros [= Hs]. apply says_no_spec in Hs.
        destruct Hs as (ws1 & core & ws2 & -> & H1 & H2 & Hc).
        exists ws1, core, ws2. auto.
      * intros (ws1 & core & ws2 & [= ->] & H1 & H2 & Hc). f_equal.
        apply says_no_spec. exists ws1, core, ws2. auto.
    + discriminate.
    + intros e. split; [discriminate|]. intros [[=] _].
  - destruct e; cbn [is_EOFError fst snd];
      (split; [reflexivity|]); (split; [reflexivity|]);
      (split; [split; [discriminate|intros (? & ? & ? & [=] & _)]|]);
      (split; [try discriminate; reflexivity|]);
      intros e'; (split; [intros [= <-]|intros [[= <-] Hne]]);
      try discriminate; try (split; [reflexivity|discriminate]);
      try reflexivity; try (destruct Hne; reflexivity).
Qed.
End Asking.

End CommandFacts.

(* ===================================================================== *)
(** * What the commands ask before they install or show                    *)
(* ===================================================================== *)

Module SelectionFacts.
Import Py Script Observe PyFacts ScriptFacts RuntimeFacts CommandFacts.
Local Open Scope py_scope.

Section Selection.
Context {World : Type} `{!OS World} `{!PsRepos World}.
Local Abbreviation M := (Py.M World Event).

Ltac unfold_rest :=
  unfold print, proceed, declined, user_wants_to_abort, install_all,
    abips_list, abips_list_show, abips_list_checksums, validate_all,
    get_repos_root.

(** Events that are not a call to [repos_from_id_list]. *)
Lemma unasking_silent (t : list Event) :
  Forall (fun ev => match ev with
                    | EvReposFromIdList _ _ => False
                    | _ => True
                    end) t ->
  asked t = [] /\ forall ids out, ~ In (EvReposFromIdList ids out) t.
Proof.
  intros H. split.
  - apply omap_silent. eapply Forall_impl; [exact H|].
    intros [] Hp; simpl in *; try reflexivity; contradiction.
  - intros ids out Hin. rewrite List.Forall_forall in H.
    apply (H _ Hin).
Qed.

(** A run that has asked nothing, installed nothing, shown nothing and
    raised. *)
Lemma selection_idle selected (t : list Event) e :
  checked t = [] -> installs t = [] -> tables t = [] ->
  selection_discipline selected t (Raise e).
Proof.
  intros Hc Hi Ht. unfold selection_discipline. rewrite Hc, Hi, Ht.
  split; [apply prefix_nil|]. split; [discriminate|].
  split; [intros H; destruct (H eq_refl)|].
  split; [intros H; destruct (H eq_refl)|].
  exists t, []. rewrite app_nil_r. auto.
Qed.

(** Lines 92, 114, 138 and 161 and what follows them: the selection asks
    [is_installed] about every repository selected, and the rest of the
    command asks about none. *)
Lemma after_check sel root repos (rest : list PseudosRepo -> M Z)
    (pre : list Event) w t w' r :
  (forall kept, emits_only unselecting (rest kept)) ->
  checked pre = [] -> installs pre = [] -> tables pre = [] ->
  (kept <- not_installed sel root repos ;; rest kept) w = (t, w', r) ->
  selection_discipline (List.filter sel repos) (pre ++ t) r.
Proof.
  intros Hrest Hc0 Hi0 Ht0 Hrun.
  apply bind_inv in Hrun
    as [(e & Hsel & ->)|(t1 & w1 & kept & t2 & Hsel & Hrun & ->)];
    destruct (not_installed_checked _ _ _ _ _ _ _ Hsel) as (Hpre & Hall & _);
    destruct (not_installed_run _ _ _ _ _ _ _ Hsel) as (Hi1 & _ & _);
    pose proof (tableless_silent _
                  (emits_run tableless _ _ _ _ _ Hsel
                     (not_installed_tableless sel root repos))) as Ht1.
  - unfold selection_discipline.
    rewrite checked_app, installs_app, tables_app, Hc0, Hi0, Hi1, Ht0, Ht1.
    simpl. split; [exact Hpre|]. split; [discriminate|].
    split; [intros H; destruct (H eq_refl)|].
    split; [intros H; destruct (H eq_refl)|].
    exists (pre ++ t), []. rewrite app_nil_r.
    rewrite installs_app, tables_app, Hi0, Hi1, Ht0, Ht1. auto.
  - specialize (Hall eq_refl).
    destruct (unselecting_silent _
                (emits_run unselecting _ _ _ _ _ Hrun (Hrest kept)))
      as (Hc2 & _).
    assert (Hwhole : checked (pre ++ t1 ++ t2) = List.filter sel repos).
    { rewrite !checked_app, Hc0, Hall, Hc2, app_nil_r. reflexivity. }
    unfold selection_discipline. rewrite Hwhole.
    split; [reflexivity|]. split; [reflexivity|]. split; [reflexivity|].
    split; [reflexivity|].
    exists (pre ++ t1), t2. rewrite app_assoc.
    rewrite installs_app, tables_app, Hi0, Hi1, Ht0, Ht1. auto.
Qed.

(** What [get_repos_root] leaves on the trace. *)
Lemma get_repos_root_quiet options w t w' r :
  get_repos_root options w = (t, w', r) ->
  checked t = [] /\ asked t = [] /\ installs t = [] /\ tables t = []
  /\ forall ids out, ~ In (EvReposFromIdList ids out) t.
Proof.
  intros Hroot.
  destruct (unselecting_silent _
              (emits_run unselecting _ _ _ _ _ Hroot
                 (get_repos_root_unselecting options))) as (Hc & Ha).
  pose proof (get_repos_root_passive options w) as Hpas.
  rewrite Hroot in Hpas. destruct (passive_silent _ Hpas) as (Hi & _ & _).
  pose proof (tableless_silent _
                (emits_run tableless _ _ _ _ _ Hroot
                   (get_repos_root_tableless options))) as Ht.
  assert (Hun : emits_only
                  (fun ev => match ev with
                             | EvReposFromIdList _ _ => False
                             | _ => True
                             end) (get_repos_root options)).
  { unfold get_repos_root. emits; exact I. }
  destruct (unasking_silent _ (emits_run _ _ _ _ _ _ Hroot Hun)) as (_ & Hno).
  auto.
Qed.

(** A command that selects among the repositories of the catalog. *)
Lemma selects_by_kind (sel : PseudosRepo -> bool) options
    (rest : string -> list PseudosRepo -> M Z) w :
  (forall root kept, emits_only unselecting (rest root kept)) ->
  selection_discipline (List.filter sel ALL_REPOS)
    ((root <- get_repos_root options ;;
      repos <- not_installed sel root ALL_REPOS ;;
      rest root repos) w).1.1
    ((root <- get_repos_root options ;;
      repos <- not_installed sel root ALL_REPOS ;;
      rest root repos) w).2.
Proof.
  intros Hrest.
  destruct ((root <- get_repos_root options ;;
             repos <- not_installed sel root ALL_REPOS ;;
             rest root repos) w) as [[t w'] r] eqn:Hrun. cbn [fst snd].
  apply bind_inv in Hrun
    as [(e & Hroot & ->)|(t0 & w0 & root & t1 & Hroot & Hrun & ->)];
    destruct (get_repos_root_quiet _ _ _ _ _ Hroot)
      as (Hc0 & _ & Hi0 & Ht0 & _).
  - apply selection_idle; assumption.
  - apply (after_check sel root ALL_REPOS (rest root) t0 w0 t1 w' r
             (Hrest root) Hc0 Hi0 Ht0 Hrun).
Qed.

(** A command that works on the repositories of [options.id_list]. *)
Lemma selects_by_id options (rest : string -> list PseudosRepo -> M Z) w :
  (forall root kept, emits_only unselecting (rest root kept)) ->
  request_discipline options
    ((root <- get_repos_root options ;;
      repos <- call (EvReposFromIdList (id_list options))
                 (repos_from_id_list (id_list options)) ;;
      repos <- not_installed (fun _ => true) root repos ;;
      rest root repos) w).1.1
    ((root <- get_repos_root options ;;
      repos <- call (EvReposFromIdList (id_list options))
                 (repos_from_id_list (id_list options)) ;;
      repos <- not_installed (fun _ => true) root repos ;;
      rest root repos) w).2.
Proof.
  intros Hrest.
  destruct ((root <- get_repos_root options ;;
             repos <- call (EvReposFromIdList (id_list options))
                        (repos_from_id_list (id_list options)) ;;
             repos <- not_installed (fun _ => true) root repos ;;
             rest root repos) w) as [[t w'] r] eqn:Hrun. cbn [fst snd].
  apply bind_inv in Hrun
    as [(e & Hroot & ->)|(t0 & w0 & root & t1 & Hroot & Hrun & ->)];
    destruct (get_repos_root_quiet _ _ _ _ _ Hroot)
      as (Hc0 & Ha0 & Hi0 & Ht0 & Hno0).
  { unfold request_discipline. rewrite Ha0, Hc0, Hi0, Ht0.
    split; [intros ids out Hin; destruct (Hno0 _ _ Hin)|].
    split; [simpl; lia|]. split; [auto|]. discriminate. }
  apply bind_inv in Hrun
    as [(e & Hids & ->)|(ta & wa & requested & tb & Hids & Hrun & ->)];
    unfold call in Hids;
    destruct (repos_from_id_list (id_list options) w0) as [out wb];
    injection Hids as <- <- ->.
  { unfold request_discipline.
    rewrite asked_app, checked_app, installs_app, tables_app,
      Ha0, Hc0, Hi0, Ht0. simpl.
    split.
    - intros ids out Hin. apply in_app_or in Hin as [Hin|[[= <- _]|[]]];
        [destruct (Hno0 _ _ Hin)|reflexivity].
    - split; [lia|]. split; [auto|]. discriminate. }
  assert (Hsuffix : emits_only
                      (fun ev => match ev with
                                 | EvReposFromIdList _ _ => False
                                 | _ => True
                                 end)
                      (kept <- not_installed (fun _ => true) root requested ;;
                       rest root kept)).
  { apply emits_bind.
    - unfold not_installed, check_installed. emits; exact I.
    - intros kept. eapply emits_weaken; [|apply (Hrest root kept)].
      intros [] Hp; simpl in *; try exact I; contradiction. }
  destruct (unasking_silent _ (emits_run _ _ _ _ _ _ Hrun Hsuffix))
    as (Hab & Hnob).
  pose proof (after_check (fun _ => true) root requested (rest root)
                (t0 ++ [EvReposFromIdList (id_list options) (Ret requested)])
                wb tb w' r (Hrest root)) as Hsel.
  rewrite filter_all, checked_app, installs_app, tables_app,
    Hc0, Hi0, Ht0 in Hsel.
  specialize (Hsel eq_refl eq_refl eq_refl Hrun).
  rewrite <- app_assoc in Hsel.
  unfold request_discipline.
  rewrite !asked_app, Ha0, Hab. simpl.
  split.
  - intros ids out Hin.
    apply in_app_or in Hin as [Hin|Hin]; [destruct (Hno0 _ _ Hin)|].
    destruct Hin as [[= <- _]|Hin]; [reflexivity|].
    destruct (Hnob _ _ Hin).
  - split; [lia|]. split; [discriminate|].
    intros requested' [= <-]. exact Hsel.
Qed.

Lemma nc_get_selection options w :
  selection_discipline (List.filter isnc ALL_REPOS)
    (abips_nc_get options w).1.1 (abips_nc_get options w).2.
Proof.
  apply (selects_by_kind isnc options
           (fun root repos =>
              match repos with
              | [] =>
                  print
                    ("All registered NC repositories are already installed in "
                     +:+ root +:+ ". Returning") ;;
                  ret 0
              | _ =>
                  print ("The following NC repositories will be installed:"
                         +:+ nl) ;;
                  proceed
                    (Some "Fetching NC repositories. It may take some time ...")
                    options root repos
              end)).
  intros root kept. unfold_rest. emits; exact I.
Qed.

Lemma paw_get_selection options w :
  selection_discipline (List.filter ispaw ALL_REPOS)
    (abips_paw_get options w).1.1 (abips_paw_get options w).2.
Proof.
  apply (selects_by_kind ispaw options
           (fun root repos =>
              match repos with
              | [] =>
                  print
                    ("All registered PAW repositories are already installed in "
                     +:+ root +:+ ". Returning") ;;
                  ret 0
              | _ =>
                  print "The following PAW repositories will be installed:" ;;
                  proceed
                    (Some "Fetching PAW repositories. It may take some time ...")
                    options root repos
              end)).
  intros root kept. unfold_rest. emits; exact I.
Qed.

Lemma get_byid_selection options w :
  request_discipline options
    (abips_get_byid options w).1.1 (abips_get_byid options w).2.
Proof.
  apply (selects_by_id options
           (fun root repos =>
              match repos with
              | [] =>
                  print "Tables are already installed!" ;;
                  abips_list options ;;
                  ret 1
              | _ =>
                  print
                    "The following pseudopotential repositories will be installed:" ;;
                  proceed None options root repos
              end)).
  intros root kept. unfold_rest. emits; exact I.
Qed.


Lemma emits_bind_in {A B} (P : Event -> Prop) (S : A -> Prop)
    (m : M A) (k : A -> M B) :
  emits_only P m -> returns_in S m ->
  (forall a, S a -> emits_only P (k a)) ->
  emits_only P (bind m k).
Proof.
  intros Hm HS Hk w. unfold bind. specialize (Hm w). specialize (HS w).
  destruct (m w) as [[t1 w1] [a|e]]; simpl in *; [|assumption].
  specialize (Hk a (HS a eq_refl) w1).
  destruct (k a w1) as [[t2 w2] r]. simpl in *.
  apply Forall_app. auto.
Qed.

Lemma get_repos_root_returns options :
  returns_in (fun root => root = repos_root options) (get_repos_root options).
Proof.
  intros w root Hret.
  destruct (get_repos_root options w) as [[t w'] r] eqn:Hrun.
  simpl in Hret. subst r.
  exact (proj1 (get_repos_root_value _ _ _ _ _ Hrun)).
Qed.

Lemma get_repos_root_at_root options options' :
  emits_only (at_root options) (get_repos_root options').
Proof. unfold get_repos_root. emits; exact I. Qed.

(** Decomposes a goal [emits_only (at_root options) m], knowing what
    [get_repos_root] returns. *)
Ltac rooted :=
  repeat first
    [ match goal with
      | |- emits_only (at_root ?options) (bind (get_repos_root ?options) _) =>
          apply (emits_bind_in (at_root options)
                   (fun root => root = repos_root options));
          [ apply get_repos_root_at_root
          | apply get_repos_root_returns
          | intros ? -> ]
      end
    | apply emits_ret | apply emits_raise | apply emits_query
    | apply emits_emit | apply emits_call; intros ?
    | apply emits_bind; [|intros ?]
    | apply emits_try; [|intros ?]
    | apply emits_for; intros ?
    | apply emits_comprehension; intros ?
    | apply emits_comprehension_if; intros ?
    | apply emits_for_acc; intros ? ?
    | match goal with
      | |- emits_only _ (if ?b then _ else _) => destruct b
      | |- emits_only _ (match ?x with _ => _ end) => destruct x
      end ];
  first [exact I | reflexivity | split; reflexivity].

Lemma abips_list_at_root options :
  emits_only (at_root options) (abips_list options).
Proof.
  unfold abips_list, abips_list_show, abips_list_checksums, validate_all,
    print.
  rooted.
Qed.

Lemma commands_at_root options :
  emits_only (at_root options) (abips_nc_get options)
  /\ emits_only (at_root options) (abips_paw_get options)
  /\ emits_only (at_root options) (abips_get_byid options)
  /\ emits_only (at_root options) (abips_show options).
Proof.
  split; [|split; [|split]].
  - unfold abips_nc_get, not_installed, check_installed, print, proceed,
      declined, user_wants_to_abort, install_all, abips_list,
      abips_list_show, abips_list_checksums, validate_all.
    rooted.
  - unfold abips_paw_get, not_installed, check_installed, print, proceed,
      declined, user_wants_to_abort, install_all, abips_list,
      abips_list_show, abips_list_checksums, validate_all.
    rooted.
  - unfold abips_get_byid, not_installed, check_installed, print, proceed,
      declined, user_wants_to_abort, install_all, abips_list,
      abips_list_show, abips_list_checksums, validate_all.
    rooted.
  - unfold abips_show, not_installed, check_installed, print, abips_list,
      abips_list_show, abips_list_checksums, validate_all.
    rooted.
Qed.

(** C5. Each installing command filters the repositories it selects by
    [is_installed] before it installs. It asks [is_installed], in order,
    about the repositories selected and no other: the NC repositories of
    the catalog for [nc_get], its PAW repositories for [paw_get], what
    [repos_from_id_list] returned for [options.id_list] for [get_byid];
    about all of them whenever it returns or installs anything, and every
    question comes before the first installation; the questions and the
    installations are for [options.repos_root]. It calls [install], in
    order, on the repositories the answer was [False] for: on a beginning
    of that list in every run, on the whole list when the command returns
    something else than 2. When nothing is missing the command neither
    installs nor asks for confirmation: it prints its message and
    returns, [get_byid] after the listing. *)
Theorem installs_exactly_the_missing options w :
  (forall cmd, In cmd install_commands ->
     installs (cmd options w).1.1 `prefix_of` found_missing (cmd options w).1.1
     /\ (forall v, (cmd options w).2 = Ret v -> v <> 2 ->
           installs (cmd options w).1.1 = found_missing (cmd options w).1.1)
     /\ (found_missing (cmd options w).1.1 = [] ->
           installs (cmd options w).1.1 = []
           /\ prompts (cmd options w).1.1 = [])
     /\ found_missing (cmd options w).1.1
        `sublist_of` checked (cmd options w).1.1
     /\ Forall (at_root options) (cmd options w).1.1)
  /\ selection_discipline (List.filter isnc ALL_REPOS)
       (abips_nc_get options w).1.1 (abips_nc_get options w).2
  /\ selection_discipline (List.filter ispaw ALL_REPOS)
       (abips_paw_get options w).1.1 (abips_paw_get options w).2
  /\ request_discipline options
       (abips_get_byid options w).1.1 (abips_get_byid options w).2
  /\ (forall t0 w0 root t1 w1,
        get_repos_root options w = (t0, w0, Ret root) ->
        not_installed isnc root ALL_REPOS w0 = (t1, w1, Ret []) ->
        abips_nc_get options w
        = (t0 ++ t1
           ++ [EvPrint
                 ("All registered NC repositories are already installed in "
                  +:+ root +:+ ". Returning")],
           w1, Ret 0))
  /\ (forall t0 w0 root t1 w1,
        get_repos_root options w = (t0, w0, Ret root) ->
        not_installed ispaw root ALL_REPOS w0 = (t1, w1, Ret []) ->
        abips_paw_get options w
        = (t0 ++ t1
           ++ [EvPrint
                 ("All registered PAW repositories are already installed in "
                  +:+ root +:+ ". Returning")],
           w1, Ret 0))
  /\ (forall t0 w0 root asked w1 t1 w2 t2 w3 n,
        get_repos_root options w = (t0, w0, Ret root) ->
        repos_from_id_list (id_list options) w0 = (Ret asked, w1) ->
        not_installed (fun _ => true) root asked w1 = (t1, w2, Ret []) ->
        abips_list options w2 = (t2, w3, Ret n) ->
        abips_get_byid options w
        = (t0 ++ [EvReposFromIdList (id_list options) (Ret asked)] ++ t1
           ++ [EvPrint "Tables are already installed!"] ++ t2,
           w3, Ret 1)).
Proof.
  split; [|split; [|split; [|split; [|split; [|split]]]]].
  - intros cmd Hcmd.
    destruct (install_commands_discipline cmd options w Hcmd)
      as [(H1 & H2 & H3) _].
    split; [exact H1|]. split; [exact H2|]. split; [exact H3|].
    split; [apply found_missing_checked|].
    destruct (commands_at_root options) as (Hnc & Hpaw & Hid & _).
    destruct Hcmd as [<-|[<-|[<-|[]]]]; [apply Hnc|apply Hpaw|apply Hid].
  - apply nc_get_selection.
  - apply paw_get_selection.
  - apply get_byid_selection.
  - apply nothing_missing_nc.
  - apply nothing_missing_paw.
  - apply nothing_missing_byid.
Qed.

End Selection.

End SelectionFacts.

(* ===================================================================== *)
(** * Facts about the entry point                                          *)
(* ===================================================================== *)

Module EntryFacts.
Import Py Script Observe Entry PyFacts ScriptFacts RuntimeFacts CommandFacts.
Local Open Scope py_scope.

Section MainFacts.
Context {World : Type} `{!OS World} `{!PsRepos World}.
Context (parse_args : World -> Res Namespace * World).
Local Abbreviation M := (Py.M World Event).

Lemma global_name_inj cmd name :
  global_name cmd = "abips_" +:+ name -> name <> "None" -> cmd = Some name.
Proof.
  unfold global_name. rewrite !append_cons, !append_nil.
  intros [= E] Hn. destruct cmd as [s|]; congruence.
Qed.

Lemma global_name_eqb cmd name :
  name <> "None" ->
  String.eqb (global_name cmd) ("abips_" +:+ name)
  = bool_decide (cmd = Some name).
Proof.
  intros Hn. destruct (String.eqb_spec (global_name cmd) ("abips_" +:+ name))
    as [E|E].
  - rewrite bool_decide_eq_true_2; [reflexivity|].
    apply global_name_inj; assumption.
  - rewrite bool_decide_eq_false_2; [reflexivity|].
    intros ->. apply E. reflexivity.
Qed.

(** [globals()] by the sub-command rather than by the name built from
    it. *)
Lemma globals_by_command cmd :
  globals (global_name cmd)
  = if bool_decide (cmd = Some "list") then Some (returning abips_list)
    else if bool_decide (cmd = Some "avail")
         then Some (fun opts => abips_avail opts ;; ret None)
    else if bool_decide (cmd = Some "nc_get")
         then Some (returning abips_nc_get)
    else if bool_decide (cmd = Some "paw_get")
         then Some (returning abips_paw_get)
    else if bool_decide (cmd = Some "get_byid")
         then Some (returning abips_get_byid)
    else if bool_decide (cmd = Some "show") then Some (returning abips_show)
    else None.
Proof.
  unfold globals.
  change "abips_list" with ("abips_" +:+ "list").
  change "abips_avail" with ("abips_" +:+ "avail").
  change "abips_nc_get" with ("abips_" +:+ "nc_get").
  change "abips_paw_get" with ("abips_" +:+ "paw_get").
  change "abips_get_byid" with ("abips_" +:+ "get_byid").
  change "abips_show" with ("abips_" +:+ "show").
  rewrite !global_name_eqb by discriminate. reflexivity.
Qed.

Lemma globals_unknown cmd :
  globals (global_name cmd) = None
  <-> (forall name, cmd = Some name -> ~ In name subcommands).
Proof.
  rewrite globals_by_command. unfold subcommands. split.
  - intros H name -> Hin. simpl in Hin.
    repeat match type of Hin with
           | _ \/ _ => destruct Hin as [<-|Hin]
           end;
      try (rewrite ?bool_decide_eq_true_2 in H by reflexivity;
           repeat case_bool_decide; congruence);
      try contradiction.
  - intros H.
    repeat case_bool_decide; try reflexivity; subst cmd; exfalso;
      eapply H; try reflexivity; simpl; tauto.
Qed.

Lemma command_events_map ev (t : list Event) :
  command_events (MeParseArgs ev :: map MeCommand t) = t.
Proof.
  unfold command_events. simpl. induction t as [|x t IH]; simpl;
    [reflexivity|]. f_equal. exact IH.
Qed.

Lemma stderr_map ev (t : list Event) :
  stderr (MeParseArgs ev :: map MeCommand t) = [].
Proof.
  unfold stderr. simpl. induction t as [|x t IH]; simpl;
    [reflexivity|exact IH].
Qed.

(** X14. [main] ends with a [KeyError] exactly when the parser returned
    a namespace whose sub-command is none of the six the script defines;
    the key is then the name built from it, which is [abips_None] when the
    command line names no sub-command, and no command has run. *)
Theorem main_key_error w key :
  ((main parse_args w).2 = RaisedKeyError key
   <-> exists ns w1,
         parse_args w = (Ret ns, w1)
         /\ key = global_name (command ns)
         /\ (forall name, command ns = Some name -> ~ In name subcommands))
  /\ (forall ns w1,
        parse_args w = (Ret ns, w1) ->
        (forall name, command ns = Some name -> ~ In name subcommands) ->
        main parse_args w
        = ([MeParseArgs (Ret ns)], w1,
           RaisedKeyError (global_name (command ns))))
  /\ (forall ns w1,
        parse_args w = (Ret ns, w1) -> command ns = None ->
        (main parse_args w).2 = RaisedKeyError "abips_None").
Proof.
  assert (Hrun : forall ns w1,
            parse_args w = (Ret ns, w1) ->
            (forall name, command ns = Some name -> ~ In name subcommands) ->
            main parse_args w
            = ([MeParseArgs (Ret ns)], w1,
               RaisedKeyError (global_name (command ns)))).
  { intros ns w1 Hp Hun. unfold main. rewrite Hp.
    apply globals_unknown in Hun. rewrite Hun. reflexivity. }
  split; [split|split; [exact Hrun|]].
  - unfold main. destruct (parse_args w) as [[ns|exc] w1].
    + destruct (globals (global_name (command ns))) as [cmd|] eqn:Hg.
      * destruct (cmd (options ns) w1) as [[t w2] [v|e]]; discriminate.
      * intros [= <-]. exists ns, w1. split; [reflexivity|].
        split; [reflexivity|]. apply globals_unknown. exact Hg.
    + destruct (is_Exception exc); discriminate.
  - intros (ns & w1 & Hp & -> & Hun). rewrite (Hrun _ _ Hp Hun). reflexivity.
  - intros ns w1 Hp Hnone. rewrite (Hrun _ _ Hp).
    + rewrite Hnone. reflexivity.
    + intros name. rewrite Hnone. discriminate.
Qed.

(** X15. [main] writes on [stderr] exactly when the parser raised an
    instance of [Exception]: it then writes the usage examples, and only
    them, runs no command and raises [SystemExit(1)]. What the parser
    raises otherwise, such as the [SystemExit] of argparse itself, leaves
    [main] unchanged with nothing written. *)
Theorem main_parse_failure w :
  (stderr (main parse_args w).1.1 <> []
   <-> exists exc w1,
         parse_args w = (Raise exc, w1) /\ is_Exception exc = true)
  /\ (forall text, In text (stderr (main parse_args w).1.1) ->
        text = get_epilog)
  /\ (forall exc w1,
        parse_args w = (Raise exc, w1) ->
        command_events (main parse_args w).1.1 = []
        /\ (main parse_args w).1.2 = w1
        /\ (is_Exception exc = true ->
            stderr (main parse_args w).1.1 = [get_epilog]
            /\ (main parse_args w).2 = Raised (SystemExit 1))
        /\ (is_Exception exc = false ->
            stderr (main parse_args w).1.1 = []
            /\ (main parse_args w).2 = Raised exc)).
Proof.
  unfold main. destruct (parse_args w) as [[ns|exc] w1].
  - assert (Hs : stderr
                   (match globals (global_name (command ns)) with
                    | Some cmd =>
                        match cmd (options ns) w1 with
                        | (t, w2, Ret v) =>
                            (MeParseArgs (Ret ns) :: map MeCommand t, w2,
                             Returned v)
                        | (t, w2, Raise e) =>
                            (MeParseArgs (Ret ns) :: map MeCommand t, w2,
                             Raised e)
                        end
                    | None =>
                        ([MeParseArgs (Ret ns)], w1,
                         RaisedKeyError (global_name (command ns)))
                    end).1.1 = []).
    { destruct (globals (global_name (command ns))) as [cmd|];
        [|reflexivity].
      destruct (cmd (options ns) w1) as [[t w2] [v|e]]; apply stderr_map. }
    rewrite Hs. split; [split|split].
    + intros H. destruct (H eq_refl).
    + intros (exc & w2 & [=] & _).
    + intros text [].
    + intros exc w2 [=].
  - destruct (is_Exception exc) eqn:Hexc.
    + split; [split|split].
      * intros _. exists exc, w1. auto.
      * intros _. discriminate.
      * intros text [<-|[]]. reflexivity.
      * intros exc' w2 [= <- <-]. rewrite Hexc.
        split; [reflexivity|]. split; [reflexivity|].
        split; [auto|discriminate].
    + split; [split|split].
      * intros H. destruct (H eq_refl).
      * intros (exc' & w2 & [= <- <-] & H). congruence.
      * intros text [].
      * intros exc' w2 [= <- <-]. rewrite Hexc.
        split; [reflexivity|]. split; [reflexivity|].
        split; [discriminate|auto].
Qed.

Lemma main_of_command (cmd : Options -> M (option Z)) w ns w1 :
  parse_args w = (Ret ns, w1) ->
  globals (global_name (command ns)) = Some cmd ->
  main parse_args w
  = (MeParseArgs (Ret ns) :: map MeCommand (cmd (options ns) w1).1.1,
     (cmd (options ns) w1).1.2,
     match (cmd (options ns) w1).2 with
     | Ret v => Returned v
     | Raise e => Raised e
     end).
Proof.
  intros Hp Hg. unfold main. rewrite Hp, Hg.
  destruct (cmd (options ns) w1) as [[t w2] [v|e]]; reflexivity.
Qed.

Lemma returning_run (cmd : Options -> M Z) opts w :
  returning cmd opts w
  = ((cmd opts w).1.1, (cmd opts w).1.2,
     match (cmd opts w).2 with
     | Ret v => Ret (Some v)
     | Raise e => Raise e
     end).
Proof.
  unfold returning, bind. destruct (cmd opts w) as [[t w1] [v|e]]; simpl;
    [rewrite app_nil_r|]; reflexivity.
Qed.

Lemma main_outcome_of (cmd : Options -> M Z) (S : Z -> Prop) w ns w1 :
  parse_args w = (Ret ns, w1) ->
  globals (global_name (command ns)) = Some (returning cmd) ->
  well_ended (cmd (options ns)) ->
  returns_in S (cmd (options ns)) ->
  (forall v, S v -> 0 <= v /\ (command ns <> Some "list" -> v <= 2)) ->
  command ns <> Some "avail" ->
  match (main parse_args w).2 with
  | Returned None =>
      command ns = Some "avail"
      /\ omap fatal (command_events (main parse_args w).1.1) = []
  | Returned (Some v) =>
      0 <= v
      /\ (command ns <> Some "list" -> v <= 2)
      /\ command ns <> Some "avail"
      /\ omap fatal (command_events (main parse_args w).1.1) = []
  | Raised e =>
      exists before ev,
        command_events (main parse_args w).1.1 = before ++ [ev]
        /\ fatal ev = Some e /\ omap fatal before = []
  | RaisedKeyError _ => command_events (main parse_args w).1.1 = []
  end.
Proof.
  intros Hp Hg Hwe Hin HS Hna. rewrite (main_of_command _ _ _ _ Hp Hg).
  cbn [fst snd]. rewrite command_events_map, returning_run. cbn [fst snd].
  specialize (Hwe w1). specialize (Hin w1).
  destruct (cmd (options ns) w1) as [[t w2] [v|e]]; cbn [fst snd] in *.
  - destruct (HS v (Hin v eq_refl)) as [H0 H2]. auto.
  - exact Hwe.
Qed.

(** X16. What [main] hands to [sys.exit] once the parser has returned.
    It returns [None] only for [avail]; for the other commands it returns
    a number that is not negative and, [list] apart, at most 2. It returns
    only when no call of the command raised something the script does not
    catch; an exception it ends with is the one such call raised, and that
    call was the last thing the command did. *)
Theorem main_outcome w ns w1 :
  parse_args w = (Ret ns, w1) ->
  match (main parse_args w).2 with
  | Returned None =>
      command ns = Some "avail"
      /\ omap fatal (command_events (main parse_args w).1.1) = []
  | Returned (Some v) =>
      0 <= v
      /\ (command ns <> Some "list" -> v <= 2)
      /\ command ns <> Some "avail"
      /\ omap fatal (command_events (main parse_args w).1.1) = []
  | Raised e =>
      exists before ev,
        command_events (main parse_args w).1.1 = before ++ [ev]
        /\ fatal ev = Some e /\ omap fatal before = []
  | RaisedKeyError _ => command_events (main parse_args w).1.1 = []
  end.
Proof.
  intros Hp.
  pose proof (globals_by_command (command ns)) as Hg.
  repeat case_bool_decide.
  - apply (main_outcome_of _ _ _ _ _ Hp Hg
             (well_ended_abips_list _) (abips_list_codes _));
      [|congruence].
    intros v Hv. split; [exact Hv|congruence].
  - rewrite (main_of_command _ _ _ _ Hp Hg). cbn [fst snd].
    rewrite command_events_map.
    pose proof (well_ended_abips_avail (options ns) w1) as Hwe.
    unfold bind.
    destruct (abips_avail (options ns) w1) as [[t w2] [[]|e]];
      cbn [fst snd] in *.
    + simpl. rewrite app_nil_r. split; [assumption|exact Hwe].
    + exact Hwe.
  - apply (main_outcome_of _ _ _ _ _ Hp Hg
             (well_ended_abips_nc_get _) (abips_nc_get_codes _));
      [|congruence].
    intros v Hv. lia.
  - apply (main_outcome_of _ _ _ _ _ Hp Hg
             (well_ended_abips_paw_get _) (abips_paw_get_codes _));
      [|congruence].
    intros v Hv. lia.
  - apply (main_outcome_of _ _ _ _ _ Hp Hg
             (well_ended_abips_get_byid _) (abips_get_byid_codes _));
      [|congruence].
    intros v Hv. lia.
  - apply (main_outcome_of _ _ _ _ _ Hp Hg
             (well_ended_abips_show _) (abips_show_codes _));
      [|congruence].
    intros v Hv. lia.
  - unfold main. rewrite Hp, Hg. reflexivity.
Qed.
End MainFacts.

End EntryFacts.

(* ===================================================================== *)
(** * The facts on the machines                                            *)
(* ===================================================================== *)

Module TrialFacts.
Import Py Script Observe Entry Core Demo Trials.
Import PyFacts ScriptFacts CommandFacts SelectionFacts EntryFacts.

(** [os.mkdir] of the demo makes the directory. *)
Lemma demo_mkdir_creates : mkdir_creates (World:=World).
Proof.
  intros path w w'. simpl.
  destruct (is_dir path w || is_file path w); [discriminate|].
  destruct (negb (parent_is_dir path w)); [discriminate|].
  intros [= <-]. unfold is_dir, with_disk. simpl.
  rewrite lookup_insert_eq. reflexivity.
Qed.

(** [nc_get --yes] with one of the two NC repositories installed: both
    are asked about, the missing one is installed. *)
Lemma installs_exactly_the_missing_witness :
  checked (abips_nc_get fetch_options (machine clean_disk [])).1.1
  = List.filter isnc ALL_REPOS
  /\ installs (abips_nc_get fetch_options (machine clean_disk [])).1.1
     = found_missing (abips_nc_get fetch_options (machine clean_disk [])).1.1.
Proof.
  split.
  - apply (proj1 (proj2 (proj1 (proj2
             (installs_exactly_the_missing fetch_options
                (machine clean_disk [])))))).
    vm_compute. reflexivity.
  - apply (proj1 (proj2 (proj1 (installs_exactly_the_missing fetch_options
                                  (machine clean_disk []))
                           abips_nc_get ltac:(left; reflexivity))) 0).
    + vm_compute. reflexivity.
    + discriminate.
Defined.


(** [nc_get -y] interrupted during the first installation. *)
Lemma failed_install_ends_the_command_witness :
  (abips_nc_get fetch_options halted).2 = Raise KeyboardInterrupt
  /\ exists before rt v,
       (abips_nc_get fetch_options halted).1.1
       = before
         ++ [EvInstall (pbe_sr : PseudosRepo (World:=World)) rt v
               (Raise KeyboardInterrupt)]
       /\ install_failures before = [].
Proof.
  apply (@failed_install_ends_the_command World demo_os demo_psrepos
           abips_nc_get fetch_options halted pbe_sr KeyboardInterrupt).
  - left. reflexivity.
  - vm_compute. left. reflexivity.
Defined.

(** The root is created on a machine that has none. *)
Lemma get_repos_root_ensures_witness :
  root = repos_root fetch_options
  /\ os_path_exists root (get_repos_root fetch_options fresh).1.2 = true
  /\ mkdirs (get_repos_root fetch_options fresh).1.1
     = if os_path_exists root fresh then [] else [root].
Proof.
  apply (proj1 (get_repos_root_ensures fetch_options fresh demo_mkdir_creates)
           _ _ root).
  reflexivity.
Defined.

(** The list command on a root that holds a file only. *)
Lemma list_of_a_root_without_directories_witness :
  abips_list listing_options (machine readme_disk [])
  = ([] ++ [EvListdir root (Ret ["README"]);
            EvPrint ("Could not find any pseudopotential repository installed in:"
                     +:+ " " +:+ root)],
     machine readme_disk [], Ret 0).
Proof.
  apply (list_of_a_root_without_directories listing_options
           (machine readme_disk []) [] (machine readme_disk []) root
           ["README"] (machine readme_disk [])).
  - reflexivity.
  - reflexivity.
  - reflexivity.
Defined.

(** The listing of the machine with two repositories. *)
Lemma listing_is_sorted_by_id_witness :
  listings (abips_list_show listing_options (machine installed_disk [])).1.1
  = [(listed, root)]
  /\ ascending (map rid listed) = true
  /\ listed
     ≡ₚ returned_repos
          (abips_list_show listing_options (machine installed_disk [])).1.1
  /\ forall k,
       List.filter (fun repo => rid repo =? k) listed
       = List.filter (fun repo => rid repo =? k)
           (returned_repos
              (abips_list_show listing_options (machine installed_disk [])).1.1).
Proof.
  apply (listing_is_sorted_by_id listing_options (machine installed_disk [])
           _ (abips_list_show listing_options (machine installed_disk [])).1.2
           root listed).
  reflexivity.
Defined.

(** [list -v] on the same machine: the table of the repository that is
    not PAW. *)
Lemma listing_tables_witness :
  tables (abips_list_show verbose_options (machine installed_disk [])).1.1
  = if verbose verbose_options =? 0 then []
    else standard_tables (without_paw listed).
Proof.
  apply (listing_tables verbose_options (machine installed_disk [])
           _ (abips_list_show verbose_options (machine installed_disk [])).1.2
           root listed).
  reflexivity.
Defined.

(** The list command without [--checksums]. *)
Lemma list_without_checksums_witness :
  validated (abips_list fetch_options (machine installed_disk [])).1.1 = []
  /\ printed_excs (abips_list fetch_options (machine installed_disk [])).1.1
     = []
  /\ forall v,
       (abips_list fetch_options (machine installed_disk [])).2 = Ret v ->
       v = 0.
Proof.
  apply (list_without_checksums fetch_options (machine installed_disk [])).
  reflexivity.
Defined.

(** The checksum phase on the machine with a tampered file. *)
Lemma checksum_loop_outcome_witness :
  match
    (abips_list_checksums listing_options root listed
       (machine installed_disk [])).2
  with
  | Ret n =>
      validated
        (abips_list_checksums listing_options root listed
           (machine installed_disk [])).1.1 = listed
      /\ n = Z.of_nat
               (length
                  (failures
                     (abips_list_checksums listing_options root listed
                        (machine installed_disk [])).1.1))
      /\ 0 <= n <= Z.of_nat (length listed)
      /\ Forall (fun e => is_Exception e = true)
           (failures
              (abips_list_checksums listing_options root listed
                 (machine installed_disk [])).1.1)
      /\ printed_excs
           (abips_list_checksums listing_options root listed
              (machine installed_disk [])).1.1
         = failures
             (abips_list_checksums listing_options root listed
                (machine installed_disk [])).1.1
  | Raise e =>
      is_Exception e = false
      /\ validated
           (abips_list_checksums listing_options root listed
              (machine installed_disk [])).1.1
         `prefix_of` listed
      /\ printed_excs
           (abips_list_checksums listing_options root listed
              (machine installed_disk [])).1.1 = []
      /\ exists before repo,
           (abips_list_checksums listing_options root listed
              (machine installed_disk [])).1.1
           = before
             ++ [EvValidateChecksums repo root (verbose listing_options)
                   (Raise e)]
  end.
Proof.
  apply (checksum_loop_outcome listing_options root listed
           (machine installed_disk [])).
  reflexivity.
Defined.

(** [nc_get -y] with one of the two NC repositories missing. *)
Lemma installing_then_listing_witness :
  abips_nc_get fetch_options (machine clean_disk [])
  = ([] ++ selected.1.1
     ++ [EvPrint ("The following NC repositories will be installed:" +:+ nl);
         EvPprintRepos [pbe_fr : PseudosRepo (World:=World)] root (Ret tt)]
     ++ []
     ++ [EvPrint "Fetching NC repositories. It may take some time ..."]
     ++ fetched.1.1 ++ relisted.1.1,
     relisted.1.2, Ret 0).
Proof.
  apply (proj1 (@installing_then_listing World demo_os demo_psrepos
                  fetch_options (machine clean_disk [])
                  [] (machine clean_disk []) root selected.1.1 selected.1.2
                  pbe_fr [] selected.1.2 [] selected.1.2
                  fetched.1.1 fetched.1.2 relisted.1.1 relisted.1.2 0
                  eq_refl eq_refl eq_refl eq_refl eq_refl)).
  reflexivity.
Defined.

(** [abips.py nc_get -y] on the same machine. *)
Lemma main_outcome_witness :
  match (main nc_get_line (machine clean_disk [])).2 with
  | Returned None =>
      command {| command := Some "nc_get"; options := fetch_options |}
      = Some "avail"
      /\ omap fatal
           (command_events (main nc_get_line (machine clean_disk [])).1.1)
         = []
  | Returned (Some v) =>
      0 <= v
      /\ (command {| command := Some "nc_get"; options := fetch_options |}
          <> Some "list" -> v <= 2)
      /\ command {| command := Some "nc_get"; options := fetch_options |}
         <> Some "avail"
      /\ omap fatal
           (command_events (main nc_get_line (machine clean_disk [])).1.1)
         = []
  | Raised e =>
      exists before ev,
        command_events (main nc_get_line (machine clean_disk [])).1.1
        = before ++ [ev]
        /\ fatal ev = Some e /\ omap fatal before = []
  | RaisedKeyError _ =>
      command_events (main nc_get_line (machine clean_disk [])).1.1 = []
  end.
Proof.
  apply (main_outcome nc_get_line (machine clean_disk [])
           {| command := Some "nc_get"; options := fetch_options |}
           (machine clean_disk [])).
  reflexivity.
Defined.

End TrialFacts.
